(** * MiniGit: a content-addressed object store with a staging index

    A shallow embedding of [minigit.py] (class [MiniGit]) together with the
    parts of the Python runtime it calls: [hashlib.sha1], [str.encode] and
    text-mode file I/O (UTF-8, universal newlines, POSIX line separator),
    [json.dump]/[json.dumps]/[json.load], [os.path.join], [os.path.exists],
    [os.makedirs] and [print].

    Conventions of the embedding
    - a Python [str] is a list of code points ([list N]);
    - [bytes] and file contents are [list byte];
    - the filesystem is a finite map from path strings to nodes; two
      spellings of one path are two keys (no normalisation, no symbolic
      links), and a file's parent is the path [os.path.dirname] gives;
    - every method runs in a state-and-exception monad over the [world]:
      the filesystem, the lines printed so far and the log of file writes;
      a Python exception leaves the world as it was when it was raised;
    - a Python [dict] is an association list with unique keys in insertion
      order, as [json.dumps] prints it. *)

From Stdlib Require Import ZArith NArith List Lia String Ascii Bool.
From Stdlib Require Import ZifyBool ZifyN.
From Stdlib.Strings Require Import Byte.
From stdpp Require Import gmap list.
Import ListNotations.

Ltac Zify.zify_post_hook ::= Z.to_euclidean_division_equations.

(** ** Strings and bytes *)

Abbreviation str := (list N).

Definition lit (s : string) : str :=
  map N_of_ascii (list_ascii_of_string s).

Definition byte_of_N (n : N) : byte :=
  match Byte.of_N (n mod 256) with
  | Some b => b
  | None => x00
  end.

Definition bytes_of_string (s : string) : list byte :=
  map byte_of_ascii (list_ascii_of_string s).

(** Lower-case hexadecimal digit of a value below sixteen. *)
Definition hexdigit (n : N) : N :=
  (if n <? 10 then 48 + n else 87 + n)%N.

(** ** hashlib.sha1 (FIPS 180-4) *)

Module SHA1.
Local Open Scope Z_scope.

Definition w32 (x : Z) : Z := x mod 2 ^ 32.

Definition rotl (n x : Z) : Z :=
  w32 (Z.lor (Z.shiftl x n) (Z.shiftr x (32 - n))).

Definition add32 (x y : Z) : Z := w32 (x + y).

Definition lnot32 (x : Z) : Z := 2 ^ 32 - 1 - x.

Record state := State { ha : Z; hb : Z; hc : Z; hd : Z; he : Z }.

Definition H0 : state :=
  State 0x67452301 0xEFCDAB89 0x98BADCFE 0x10325476 0xC3D2E1F0.

(** Message padding: a [1] bit, zeros up to 56 modulo 64 bytes, then the
    bit length as a 64-bit big-endian number. *)

Definition be_bytes (k : nat) (x : Z) : list Z :=
  map (fun i => Z.shiftr x (8 * Z.of_nat (k - 1 - i)) mod 256) (seq 0 k).

Definition pad (msg : list byte) : list Z :=
  let len := Z.of_nat (List.length msg) in
  let zeros := Z.to_nat ((55 - len) mod 64) in
  map (fun b => Z.of_N (Byte.to_N b)) msg
    ++ 0x80 :: repeat 0 zeros ++ be_bytes 8 (8 * len).

Fixpoint words (n : nat) (bs : list Z) : list Z :=
  match n with
  | O => []
  | S n' =>
      match bs with
      | b0 :: b1 :: b2 :: b3 :: rest =>
          (((b0 * 256 + b1) * 256 + b2) * 256 + b3) :: words n' rest
      | _ => []
      end
  end.

(** The message schedule, latest word first: [W t] is
    [rotl 1 (W (t-3) xor W (t-8) xor W (t-14) xor W (t-16))]. *)

Fixpoint expand (n : nat) (rw : list Z) : list Z :=
  match n with
  | O => rw
  | S n' =>
      let x := Z.lxor (Z.lxor (nth 2 rw 0) (nth 7 rw 0))
                      (Z.lxor (nth 13 rw 0) (nth 15 rw 0)) in
      expand n' (rotl 1 x :: rw)
  end.

Definition schedule (block : list Z) : list Z :=
  rev (expand 64 (rev (words 16 block))).

Definition f (t : nat) (b c d : Z) : Z :=
  if (t <? 20)%nat then Z.lor (Z.land b c) (Z.land (lnot32 b) d)
  else if (t <? 40)%nat then Z.lxor (Z.lxor b c) d
  else if (t <? 60)%nat then
    Z.lor (Z.lor (Z.land b c) (Z.land b d)) (Z.land c d)
  else Z.lxor (Z.lxor b c) d.

Definition K (t : nat) : Z :=
  if (t <? 20)%nat then 0x5A827999
  else if (t <? 40)%nat then 0x6ED9EBA1
  else if (t <? 60)%nat then 0x8F1BBCDC
  else 0xCA62C1D6.

Definition round (s : state) (tw : nat * Z) : state :=
  let '(t, w) := tw in
  let temp :=
    add32 (add32 (add32 (add32 (rotl 5 (ha s)) (f t (hb s) (hc s) (hd s)))
                        (he s)) (K t)) w in
  State temp (ha s) (rotl 30 (hb s)) (hc s) (hd s).

Definition compress (h : state) (block : list Z) : state :=
  let s := fold_left round (combine (seq 0 80) (schedule block)) h in
  State (add32 (ha h) (ha s)) (add32 (hb h) (hb s)) (add32 (hc h) (hc s))
        (add32 (hd h) (hd s)) (add32 (he h) (he s)).

Fixpoint blocks (n : nat) (bs : list Z) : list (list Z) :=
  match n with
  | O => []
  | S n' => firstn 64 bs :: blocks n' (skipn 64 bs)
  end.

Definition digest (msg : list byte) : state :=
  let p := pad msg in
  fold_left compress (blocks (List.length p / 64) p) H0.

(** [hexdigest]: each of the five words as eight lower-case hex digits. *)

Definition hex8 (x : Z) : list N :=
  map (fun i => hexdigit (Z.to_N (Z.shiftr x (4 * Z.of_nat (7 - i)) mod 16)))
      (seq 0 8).

Definition hexdigest (msg : list byte) : str :=
  let s := digest msg in
  hex8 (ha s) ++ hex8 (hb s) ++ hex8 (hc s) ++ hex8 (hd s) ++ hex8 (he s).

End SHA1.

(** ** Text encoding: [str.encode()] and text-mode decoding (UTF-8, strict) *)

Definition is_surrogate (c : N) : bool := (0xD800 <=? c)%N && (c <=? 0xDFFF)%N.

Definition utf8_encode_char (c : N) : option (list byte) :=
  (if c <? 0x80 then Some [byte_of_N c]
   else if c <? 0x800 then
     Some [byte_of_N (0xC0 + c / 64); byte_of_N (0x80 + c mod 64)]
   else if c <? 0x10000 then
     if is_surrogate c then None
     else Some [byte_of_N (0xE0 + c / 4096);
                byte_of_N (0x80 + c / 64 mod 64);
                byte_of_N (0x80 + c mod 64)]
   else if c <? 0x110000 then
     Some [byte_of_N (0xF0 + c / 262144);
           byte_of_N (0x80 + c / 4096 mod 64);
           byte_of_N (0x80 + c / 64 mod 64);
           byte_of_N (0x80 + c mod 64)]
   else None)%N.

Fixpoint utf8_encode (s : str) : option (list byte) :=
  match s with
  | [] => Some []
  | c :: rest =>
      match utf8_encode_char c, utf8_encode rest with
      | Some bs, Some bs' => Some (bs ++ bs')
      | _, _ => None
      end
  end.

Definition in_range (lo hi : N) (b : byte) : bool :=
  (lo <=? Byte.to_N b)%N && (Byte.to_N b <=? hi)%N.

Definition cont (b : byte) : N := (Byte.to_N b - 0x80)%N.

(** The strict decoder: shortest forms only, no surrogates, nothing above
    U+10FFFF. [None] is Python's [UnicodeDecodeError]. *)

Fixpoint utf8_decode (bs : list byte) : option str :=
  match bs with
  | [] => Some []
  | b0 :: r0 =>
      let n0 := Byte.to_N b0 in
      if in_range 0x00 0x7F b0 then cons n0 <$> utf8_decode r0
      else
        match r0 with
        | [] => None
        | b1 :: r1 =>
            if in_range 0xC2 0xDF b0 then
              if in_range 0x80 0xBF b1
              then cons ((n0 - 0xC0) * 64 + cont b1)%N <$> utf8_decode r1
              else None
            else
              match r1 with
              | [] => None
              | b2 :: r2 =>
                  if in_range 0xE0 0xEF b0 then
                    if in_range (if (n0 =? 0xE0)%N then 0xA0 else 0x80)
                                (if (n0 =? 0xED)%N then 0x9F else 0xBF) b1
                       && in_range 0x80 0xBF b2
                    then cons (((n0 - 0xE0) * 64 + cont b1) * 64 + cont b2)%N
                           <$> utf8_decode r2
                    else None
                  else
                    match r2 with
                    | [] => None
                    | b3 :: r3 =>
                        if in_range 0xF0 0xF4 b0 then
                          if in_range (if (n0 =? 0xF0)%N then 0x90 else 0x80)
                                      (if (n0 =? 0xF4)%N then 0x8F else 0xBF) b1
                             && in_range 0x80 0xBF b2 && in_range 0x80 0xBF b3
                          then cons ((((n0 - 0xF0) * 64 + cont b1) * 64
                                      + cont b2) * 64 + cont b3)%N
                                 <$> utf8_decode r3
                          else None
                        else None
                    end
              end
        end
  end.

(** Reading in text mode with [newline=None]: ["\r\n"] and a lone ["\r"]
    both become ["\n"]. Writing on POSIX leaves ["\n"] as it is. *)

Fixpoint universal_newlines (s : str) : str :=
  match s with
  | [] => []
  | c :: rest =>
      if (c =? 13)%N then
        match rest with
        | d :: rest' =>
            if (d =? 10)%N then 10%N :: universal_newlines rest'
            else 10%N :: universal_newlines rest
        | [] => [10%N]
        end
      else c :: universal_newlines rest
  end.

Definition decode_text (bs : list byte) : option str :=
  universal_newlines <$> utf8_decode bs.

(** ** Python exceptions and the JSON fragment

    [Unmodelled] marks what lies outside the embedding: a JSON document
    with arrays, numbers or literals. Nothing is claimed about such runs.
    [ObjectNotFound] is the error of the store's read operation, which the
    specification names and the source does not have. *)

Inductive exn :=
| FileNotFoundError
| FileExistsError
| IsADirectoryError
| NotADirectoryError
| UnicodeDecodeError
| UnicodeEncodeError
| JSONDecodeError
| TypeError
| ValueError
| ObjectNotFound
| Unmodelled.

Inductive result (A : Type) :=
| Ok (a : A)
| Raise (e : exn).
Arguments Ok {A} a.
Arguments Raise {A} e.

(** JSON values of the fragment the program writes: strings and objects.
    An object is a Python [dict]: unique keys, insertion order. *)

#[warnings="-register-all"]
Inductive json :=
| JStr (s : str)
| JObj (members : list (str * json)).

Section Dict.
Context {V : Type}.

(** [d[k] = v]: replaces the value in place, or appends a new entry. *)
Fixpoint dict_set (k : str) (v : V) (d : list (str * V)) : list (str * V) :=
  match d with
  | [] => [(k, v)]
  | (k', v') :: d' =>
      if decide (k = k') then (k', v) :: d' else (k', v') :: dict_set k v d'
  end.

Fixpoint dict_get (k : str) (d : list (str * V)) : option V :=
  match d with
  | [] => None
  | (k', v') :: d' => if decide (k = k') then Some v' else dict_get k d'
  end.

(** [dict(pairs)] *)
Definition dict_of_pairs (pairs : list (str * V)) : list (str * V) :=
  fold_left (fun d kv => dict_set (fst kv) (snd kv) d) pairs [].
End Dict.

(** *** json.dumps (ensure_ascii=True) *)

Definition hex4 (n : N) : str :=
  [hexdigit (n / 16 / 16 / 16 mod 16); hexdigit (n / 16 / 16 mod 16);
   hexdigit (n / 16 mod 16); hexdigit (n mod 16)]%N.

Definition escape_char (c : N) : str :=
  (if c =? 34 then [92; 34]
   else if c =? 92 then [92; 92]
   else if c =? 10 then [92; 110]
   else if c =? 13 then [92; 114]
   else if c =? 9 then [92; 116]
   else if c =? 8 then [92; 98]
   else if c =? 12 then [92; 102]
   else if (32 <=? c) && (c <=? 126) then [c]
   else if c <? 0x10000 then 92 :: 117 :: hex4 c
   else
     let n := c - 0x10000 in
     92 :: 117 :: hex4 (0xD800 + n / 1024 mod 1024)
       ++ 92 :: 117 :: hex4 (0xDC00 + n mod 1024))%N.

Definition encode_basestring_ascii (s : str) : str :=
  34%N :: concat (map escape_char s) ++ [34%N].

Fixpoint join_with (sep : str) (items : list str) : str :=
  match items with
  | [] => []
  | [x] => x
  | x :: rest => x ++ sep ++ join_with sep rest
  end.

Definition newline_indent (indent level : nat) : str :=
  10%N :: repeat 32%N (indent * level).

(** [indent = None] is [json.dump(obj, f)]: separators [", "] and [": "].
    [indent = Some n] is [json.dumps(obj, indent=n)]: separators [","] and
    [": "], every member on a line of its own. An empty dict is ["{}"]. *)

Fixpoint json_encode (indent : option nat) (level : nat) (v : json) : str :=
  match v with
  | JStr s => encode_basestring_ascii s
  | JObj ms =>
      let items :=
        map (fun kv => encode_basestring_ascii (fst kv) ++ lit ": "
                         ++ json_encode indent (S level) (snd kv)) ms in
      match ms with
      | [] => lit "{}"
      | _ :: _ =>
          match indent with
          | None => lit "{" ++ join_with (lit ", ") items ++ lit "}"
          | Some n =>
              lit "{" ++ newline_indent n (S level)
                ++ join_with (lit "," ++ newline_indent n (S level)) items
                ++ newline_indent n level ++ lit "}"
          end
      end
  end.

Definition json_dumps (indent : option nat) (v : json) : str :=
  json_encode indent 0 v.

(** *** json.loads *)

Inductive presult (A : Type) :=
| POk (a : A) (rest : str)
| PErr (e : exn).
Arguments POk {A} a rest.
Arguments PErr {A} e.

Definition pmap {A B : Type} (g : A -> B) (r : presult A) : presult B :=
  match r with
  | POk a rest => POk (g a) rest
  | PErr e => PErr e
  end.

Definition is_ws (c : N) : bool :=
  ((c =? 32) || (c =? 9) || (c =? 10) || (c =? 13))%N.

Fixpoint skip_ws (s : str) : str :=
  match s with
  | c :: rest => if is_ws c then skip_ws rest else s
  | [] => []
  end.

Definition hexval (c : N) : option N :=
  (if (48 <=? c) && (c <=? 57) then Some (c - 48)
   else if (97 <=? c) && (c <=? 102) then Some (c - 87)
   else if (65 <=? c) && (c <=? 70) then Some (c - 55)
   else None)%N.

Definition decode_hex4 (h1 h2 h3 h4 : N) : option N :=
  match hexval h1, hexval h2, hexval h3, hexval h4 with
  | Some a, Some b, Some c, Some d => Some (((a * 16 + b) * 16 + c) * 16 + d)%N
  | _, _, _, _ => None
  end.

Definition unescape (e : N) : option N :=
  (if e =? 34 then Some 34
   else if e =? 92 then Some 92
   else if e =? 47 then Some 47
   else if e =? 98 then Some 8
   else if e =? 102 then Some 12
   else if e =? 110 then Some 10
   else if e =? 114 then Some 13
   else if e =? 116 then Some 9
   else None)%N.

Definition is_high_surrogate (c : N) : bool := (0xD800 <=? c)%N && (c <=? 0xDBFF)%N.
Definition is_low_surrogate (c : N) : bool := (0xDC00 <=? c)%N && (c <=? 0xDFFF)%N.

Definition join_surrogates (hi lo : N) : N :=
  (0x10000 + ((hi - 0xD800) * 1024 + (lo - 0xDC00)))%N.

(** [scanstring] (strict): the input starts just after the opening quote.
    A high surrogate escape directly followed by a low surrogate escape is
    joined into one code point. *)

Fixpoint scanstring (s : str) : presult str :=
  match s with
  | [] => PErr JSONDecodeError
  | c :: r =>
      if (c =? 34)%N then POk [] r
      else if (c =? 92)%N then
        match r with
        | [] => PErr JSONDecodeError
        | e :: r1 =>
            if (e =? 117)%N then
              match r1 with
              | h1 :: h2 :: h3 :: h4 :: r2 =>
                  match decode_hex4 h1 h2 h3 h4 with
                  | None => PErr JSONDecodeError
                  | Some u1 =>
                      if is_high_surrogate u1 then
                        match r2 with
                        | b :: u :: l1 :: l2 :: l3 :: l4 :: ((_ :: _) as r3) =>
                            if (b =? 92)%N && (u =? 117)%N then
                              match decode_hex4 l1 l2 l3 l4 with
                              | None => PErr JSONDecodeError
                              | Some u2 =>
                                  if is_low_surrogate u2
                                  then pmap (cons (join_surrogates u1 u2))
                                            (scanstring r3)
                                  else pmap (cons u1) (scanstring r2)
                              end
                            else pmap (cons u1) (scanstring r2)
                        | _ => pmap (cons u1) (scanstring r2)
                        end
                      else pmap (cons u1) (scanstring r2)
                  end
              | _ => PErr JSONDecodeError
              end
            else
              match unescape e with
              | Some c' => pmap (cons c') (scanstring r1)
              | None => PErr JSONDecodeError
              end
        end
      else if (c <? 32)%N then PErr JSONDecodeError
      else pmap (cons c) (scanstring r)
  end.

(** First characters of the values outside the fragment: arrays, numbers,
    [null], [true], [false], [NaN], [Infinity]. *)
Definition starts_other_value (c : N) : bool :=
  ((c =? 91) || (c =? 45) || ((48 <=? c) && (c <=? 57))
   || (c =? 110) || (c =? 116) || (c =? 102) || (c =? 78) || (c =? 73))%N.

(** [scan_once] and the member loop of [JSONObject]. Every call consumes at
    least one character, so fuel above the length of the input is never
    used up. [members] starts just after the opening quote of a key. *)

Fixpoint scan_once (fuel : nat) (s : str) : presult json :=
  match fuel with
  | O => PErr Unmodelled
  | S fuel' =>
      match s with
      | [] => PErr JSONDecodeError
      | c :: r =>
          if (c =? 34)%N then pmap JStr (scanstring r)
          else if (c =? 123)%N then
            match skip_ws r with
            | [] => PErr JSONDecodeError
            | c1 :: r1 =>
                if (c1 =? 125)%N then POk (JObj []) r1
                else if (c1 =? 34)%N then members fuel' [] r1
                else PErr JSONDecodeError
            end
          else if starts_other_value c then PErr Unmodelled
          else PErr JSONDecodeError
      end
  end
with members (fuel : nat) (pairs : list (str * json)) (s : str) : presult json :=
  match fuel with
  | O => PErr Unmodelled
  | S fuel' =>
      match scanstring s with
      | PErr e => PErr e
      | POk key s1 =>
          match skip_ws s1 with
          | [] => PErr JSONDecodeError
          | c :: s2 =>
              if (c =? 58)%N then
                match scan_once fuel' (skip_ws s2) with
                | PErr e => PErr e
                | POk value s3 =>
                    let pairs' := pairs ++ [(key, value)] in
                    match skip_ws s3 with
                    | [] => PErr JSONDecodeError
                    | c' :: s4 =>
                        if (c' =? 125)%N then POk (JObj (dict_of_pairs pairs')) s4
                        else if (c' =? 44)%N then
                          match skip_ws s4 with
                          | [] => PErr JSONDecodeError
                          | q :: s5 =>
                              if (q =? 34)%N then members fuel' pairs' s5
                              else PErr JSONDecodeError
                          end
                        else PErr JSONDecodeError
                    end
                end
              else PErr JSONDecodeError
          end
      end
  end.

Definition json_loads (s : str) : result json :=
  match s with
  | 0xFEFF%N :: _ => Raise JSONDecodeError
  | _ =>
      let s0 := skip_ws s in
      match scan_once (S (List.length s0)) s0 with
      | PErr e => Raise e
      | POk v rest =>
          match skip_ws rest with
          | [] => Ok v
          | _ :: _ => Raise JSONDecodeError
          end
      end
  end.

(** ** The filesystem and the world *)

Inductive node :=
| Dir
| File (data : list byte).

Record world := World {
  fs : gmap str node;          (* path -> node *)
  stdout : list str;           (* lines printed, oldest first *)
  wlog : list str              (* paths opened for writing, latest first *)
}.

Inductive pyvalue :=
| VNone
| VStr (s : str).

(** State-and-exception monad: a raised exception stops the computation
    and keeps the world reached so far. *)

Definition M (A : Type) : Type := world -> world * result A.

Definition ret {A : Type} (a : A) : M A := fun w => (w, Ok a).

Definition raise {A : Type} (e : exn) : M A := fun w => (w, Raise e).

Definition bind {A B : Type} (m : M A) (k : A -> M B) : M B :=
  fun w =>
    match m w with
    | (w', Ok a) => k a w'
    | (w', Raise e) => (w', Raise e)
    end.

Declare Scope py_scope.
Delimit Scope py_scope with py.
Notation "x <- c1 ;; c2" := (bind c1 (fun x => c2))
  (at level 100, c1 at next level, right associativity) : py_scope.
Notation "c1 ;; c2" := (bind c1 (fun _ => c2))
  (at level 100, right associativity) : py_scope.
Local Open Scope py_scope.

(** [print(line)]: the line is added to what the standard output holds.
    The standard output is taken to accept the line. Python's [print] raises
    [UnicodeEncodeError] on a line its stream cannot encode (on a UTF-8
    stream, a line with a surrogate code point); this is not modelled, and
    the statements about what is printed take [printable] lines. *)
Definition print (line : str) : M unit :=
  fun w => (World (fs w) (stdout w ++ [line]) (wlog w), Ok tt).

(** *** os.path *)

Definition sep : N := 47%N.

Fixpoint take_while (P : N -> bool) (s : str) : str :=
  match s with
  | c :: r => if P c then c :: take_while P r else []
  | [] => []
  end.

Fixpoint drop_while (P : N -> bool) (s : str) : str :=
  match s with
  | c :: r => if P c then drop_while P r else s
  | [] => []
  end.

Definition is_sep (c : N) : bool := (c =? sep)%N.

Definition ends_with_sep (s : str) : bool :=
  match rev s with
  | c :: _ => is_sep c
  | [] => false
  end.

(** [posixpath.join(a, b)] *)
Definition os_path_join (a b : str) : str :=
  match b with
  | c :: _ =>
      if is_sep c then b
      else match a with
           | [] => b
           | _ :: _ => if ends_with_sep a then a ++ b else a ++ sep :: b
           end
  | [] =>
      match a with
      | [] => b
      | _ :: _ => if ends_with_sep a then a ++ b else a ++ sep :: b
      end
  end.

(** [posixpath.split(p)]: the head loses its trailing slashes unless it
    consists of slashes only. *)
Definition os_path_split (p : str) : str * str :=
  let head := rev (drop_while (fun c => negb (is_sep c)) (rev p)) in
  let tail := rev (take_while (fun c => negb (is_sep c)) (rev p)) in
  let head' :=
    if forallb is_sep head then head else rev (drop_while is_sep (rev head)) in
  (head', tail).

Definition os_path_dirname (p : str) : str := fst (os_path_split p).

(** A [str] names a path only if the OS encoding accepts it: no NUL, and
    no surrogate except those that [surrogateescape] produces. *)
Definition fs_char (c : N) : bool :=
  (negb (c =? 0)
   && ((c <? 0xD800) || ((0xDC80 <=? c) && (c <=? 0xDCFF))
       || ((0xE000 <=? c) && (c <? 0x110000))))%N.

Definition fs_encodable (p : str) : bool := forallb fs_char p.

(** [os.path.exists] answers [False] for a string that names no path.
    The path is looked up as it is spelled; the statements about a path the
    caller gives take it in its [canonical] spelling. *)
Definition exists_in (m : gmap str node) (p : str) : bool :=
  fs_encodable p && bool_decide (is_Some (m !! p)).

Definition os_path_exists (p : str) : M bool :=
  fun w => (w, Ok (exists_in (fs w) p)).

(** The directory a new entry [p] goes into must exist; the empty
    [dirname] is the current directory. Only this directory is examined:
    where it is missing because a more distant ancestor is a regular file,
    the operating system answers [NotADirectoryError], not
    [FileNotFoundError]; the statements about a missing directory take its
    ancestors to be directories. *)
Definition parent_check (m : gmap str node) (p : str) : result unit :=
  match p with
  | [] => Raise FileNotFoundError
  | _ :: _ =>
      match os_path_dirname p with
      | [] => Ok tt
      | d =>
          match m !! d with
          | Some Dir => Ok tt
          | Some (File _) => Raise NotADirectoryError
          | None => Raise FileNotFoundError
          end
      end
  end.

(** [os.mkdir(name)]. The name is taken as it is spelled, and no bound on
    its length is modelled: the statements about creating a directory take
    names without a trailing separator that fit in one component
    ([name_fits]). *)
Definition mkdir (name : str) (m : gmap str node)
  : gmap str node * result unit :=
  if negb (fs_encodable name) then (m, Raise ValueError)
  else
    match m !! name with
    | Some _ => (m, Raise FileExistsError)
    | None =>
        match parent_check m name with
        | Ok _ => (<[name := Dir]> m, Ok tt)
        | Raise e => (m, Raise e)
        end
    end.

(** [os.makedirs(name)] with [exist_ok=False]: missing ancestors first,
    then the leaf. The heads get shorter, so fuel [length name] suffices. *)
Fixpoint makedirs (fuel : nat) (name : str) (m : gmap str node)
  : gmap str node * result unit :=
  let '(head0, tail0) := os_path_split name in
  let '(head, tail) :=
    match tail0 with
    | [] => os_path_split head0
    | _ :: _ => (head0, tail0)
    end in
  match head, tail, exists_in m head with
  | _ :: _, _ :: _, false =>
      match fuel with
      | O => (m, Raise Unmodelled)
      | S fuel' =>
          match makedirs fuel' head m with
          | (m1, Ok _) | (m1, Raise FileExistsError) =>
              if decide (tail = lit ".") then (m1, Ok tt) else mkdir name m1
          | (m1, Raise e) => (m1, Raise e)
          end
      end
  | _, _, _ => mkdir name m
  end.

Definition os_makedirs (name : str) : M unit :=
  fun w =>
    let '(m, r) := makedirs (List.length name) name (fs w) in
    (World m (stdout w) (wlog w), r).

(** *** Text files

    [with open(p, 'r') as f: f.read()] *)
Definition read_text (p : str) : M str :=
  fun w =>
    if negb (fs_encodable p) then (w, Raise ValueError)
    else
      match fs w !! p with
      | None => (w, Raise FileNotFoundError)
      | Some Dir => (w, Raise IsADirectoryError)
      | Some (File bs) =>
          match decode_text bs with
          | Some s => (w, Ok s)
          | None => (w, Raise UnicodeDecodeError)
          end
      end.

(** [with open(p, 'w') as f: f.write(s)]: opening creates or truncates the
    file, whatever it held; the text is encoded when it is written. *)
Definition write_text (p : str) (s : str) : M unit :=
  fun w =>
    if negb (fs_encodable p) then (w, Raise ValueError)
    else
      match fs w !! p with
      | Some Dir => (w, Raise IsADirectoryError)
      | _ =>
          match parent_check (fs w) p with
          | Raise e => (w, Raise e)
          | Ok _ =>
              match utf8_encode s with
              | Some bs =>
                  (World (<[p := File bs]> (fs w)) (stdout w) (p :: wlog w),
                   Ok tt)
              | None =>
                  (World (<[p := File []]> (fs w)) (stdout w) (p :: wlog w),
                   Raise UnicodeEncodeError)
              end
          end
      end.

(** ** class MiniGit *)

Record MiniGit := {
  repo_dir : str;
  objects_dir : str;
  index_file : str
}.

(** Truth value of a JSON value: the empty dict and the empty string are
    false. *)
Definition truthy (v : json) : bool :=
  match v with
  | JStr [] | JObj [] => false
  | _ => true
  end.

(** [index[k] = v] *)
Definition setitem (index : json) (k : str) (v : json) : M json :=
  match index with
  | JObj d => ret (JObj (dict_set k v d))
  | JStr _ => raise TypeError
  end.

(** [hashlib.sha1(data.encode()).hexdigest()] *)
Definition _hash_object (data : str) : M str :=
  match utf8_encode data with
  | Some bs => ret (SHA1.hexdigest bs)
  | None => raise UnicodeEncodeError
  end.

Definition _write_index (self : MiniGit) (index_data : json) : M unit :=
  write_text (index_file self) (json_dumps None index_data).

Definition _read_index (self : MiniGit) : M json :=
  e <- os_path_exists (index_file self) ;;
  if (e : bool) then
    text <- read_text (index_file self) ;;
    match json_loads text with
    | Ok v => ret v
    | Raise e => raise e
    end
  else ret (JObj []).

Definition new_MiniGit (repo_dir : str) : MiniGit :=
  {| repo_dir := repo_dir;
     objects_dir := os_path_join repo_dir (lit "objects");
     index_file := os_path_join repo_dir (lit "index") |}.

(** [MiniGit(repo_dir)] *)
Definition __init__ (repo_dir : str) : M MiniGit :=
  let self := new_MiniGit repo_dir in
  e <- os_path_exists repo_dir ;;
  (if (e : bool) then ret tt
   else
     os_makedirs repo_dir ;;
     os_makedirs (objects_dir self) ;;
     _write_index self (JObj [])) ;;
  print (lit "Initialized empty MiniGit repository in " ++ repo_dir) ;;
  ret self.

Definition init (self : MiniGit) : M pyvalue :=
  e <- os_path_exists (repo_dir self) ;;
  if (e : bool) then
    print (lit "Repository already initialized.") ;;
    ret VNone
  else
    os_makedirs (repo_dir self) ;;
    os_makedirs (objects_dir self) ;;
    _write_index self (JObj []) ;;
    print (lit "Initialized empty MiniGit repository in " ++ repo_dir self) ;;
    ret VNone.

(** The object-store step that [add] (lines 69-75) and [commit] (lines
    100-105) both spell out: hash the text, join the digest to the objects
    directory, open that file for writing and write the text. *)
Definition put (self : MiniGit) (content : str) : M str :=
  file_hash <- _hash_object content ;;
  let object_file := os_path_join (objects_dir self) file_hash in
  write_text object_file content ;;
  ret file_hash.

(** The index step of [add] (lines 77-80): read, assign, write back. *)
Definition stage (self : MiniGit) (file_path : str) (file_hash : str) : M unit :=
  index <- _read_index self ;;
  index' <- setitem index file_path (JStr file_hash) ;;
  _write_index self index'.

Definition add (self : MiniGit) (file_path : str) : M pyvalue :=
  e <- os_path_exists file_path ;;
  if negb e then
    print (lit "File " ++ file_path ++ lit " does not exist.") ;;
    ret VNone
  else
    content <- read_text file_path ;;
    file_hash <- put self content ;;
    stage self file_path file_hash ;;
    print (lit "Added file " ++ file_path ++ lit " to the index.") ;;
    ret VNone.

Definition commit_record (message : str) (index : json) : json :=
  JObj [(lit "message", JStr message); (lit "files", index)].

Definition commit (self : MiniGit) (message : str) : M pyvalue :=
  index <- _read_index self ;;
  if negb (truthy index) then
    print (lit "No changes to commit.") ;;
    ret VNone
  else
    let commit_data := json_dumps (Some 4%nat) (commit_record message index) in
    commit_hash <- put self commit_data ;;
    print (lit "Committed with message: " ++ message) ;;
    print (lit "Commit hash: " ++ commit_hash) ;;
    ret VNone.

(** Modelled from the spec: the read operation of the object store,
    [get(id) -> bytes], which the source does not have. It returns the
    bytes stored under [id] and fails with [ObjectNotFound] when no object
    has that name. *)
Definition get (self : MiniGit) (id : str) : M (list byte) :=
  fun w =>
    match fs w !! os_path_join (objects_dir self) id with
    | Some (File bs) => (w, Ok bs)
    | _ => (w, Raise ObjectNotFound)
    end.

(** * The vocabulary of the statements *)

Definition is_hexchar (c : N) : bool :=
  ((48 <=? c) && (c <=? 57) || (97 <=? c) && (c <=? 102))%N.

Definition is_digest (h : str) : Prop :=
  List.length h = 40%nat /\ forallb is_hexchar h = true.

(** A code point [str.encode] accepts: a Unicode scalar value. *)
Definition scalar (c : N) : bool := negb (is_surrogate c) && (c <? 0x110000)%N.

Definition json_safe_char (c : N) : bool :=
  (c <? 0x110000)%N && negb (is_high_surrogate c).

Definition json_safe (s : str) : bool := forallb json_safe_char s.

(** Induction on JSON values, with the hypothesis for every member. *)
Fixpoint json_ind' (P : json -> Prop)
    (HS : forall s, P (JStr s))
    (HO : forall ms, Forall (fun kv => P (snd kv)) ms -> P (JObj ms))
    (v : json) : P v :=
  match v with
  | JStr s => HS s
  | JObj ms =>
      HO ms ((fix go (ms : list (str * json)) : Forall (fun kv => P (snd kv)) ms :=
                match ms with
                | [] => List.Forall_nil _
                | kv :: ms' => List.Forall_cons _ _ _ (json_ind' P HS HO (snd kv)) (go ms')
                end) ms)
  end.

(** Well-formed values: strings that survive escaping, and no key twice. *)
#[warnings="-register-all"]
Inductive wf_json : json -> Prop :=
| wf_str s : json_safe s = true -> wf_json (JStr s)
| wf_obj ms :
    NoDup (map fst ms) ->
    Forall (fun kv => json_safe (fst kv) = true /\ wf_json (snd kv)) ms ->
    wf_json (JObj ms).

(** The text of the members after the opening quote of the first key. *)
Fixpoint members_text (enc : json -> str) (sep : str) (ms : list (str * json)) : str :=
  match ms with
  | [] => []
  | kv :: ms' =>
      concat (map escape_char (fst kv)) ++ 34%N :: lit ": " ++ enc (snd kv)
        ++ match ms' with
           | [] => []
           | _ :: _ => sep ++ 34%N :: members_text enc sep ms'
           end
  end.

Definition starts_value (s : str) : Prop :=
  exists c t, s = c :: t /\ (c = 34%N \/ c = 123%N).

Ltac len_norm H :=
  repeat first [rewrite length_app in H | progress cbn [List.length app] in H].

Definition more_members (enc : json -> str) (sep : str) (ms : list (str * json)) : str :=
  match ms with
  | [] => []
  | _ :: _ => sep ++ 34%N :: members_text enc sep ms
  end.

(** The text [json.dumps] writes is printable ASCII and newlines. *)
Definition json_char (c : N) : bool :=
  ((32 <=? c) && (c <=? 126) || (c =? 10))%N.

Definition no_sep (s : str) : bool := forallb (fun c => negb (is_sep c)) s.

(** A directory name: not empty, no trailing slash. *)
Definition plain (d : str) : Prop := exists c t, rev d = c :: t /\ is_sep c = false.

Definition object_file (self : MiniGit) (id : str) : str :=
  os_path_join (objects_dir self) id.

(** The index as the program keeps it: path and digest, both strings. *)
Definition index_json (d : list (str * str)) : json :=
  JObj (map (fun kv => (fst kv, JStr (snd kv))) d).

Definition json_bytes (v : json) : list byte :=
  map byte_of_N (json_dumps None v).

(** The object store: the entries directly inside the objects directory. *)
Definition objects (self : MiniGit) (w : world) : gmap str node :=
  filter (fun kv => os_path_dirname (fst kv) = objects_dir self) (fs w).

Definition object_count (self : MiniGit) (w : world) : nat :=
  size (objects self w).

(** An initialised repository whose index holds [d]:
    the objects directory exists, the index file holds the dump of [d],
    every object is a file named by the digest of its bytes, and every
    digest in the index names an object. *)
Record store_ok (self : MiniGit) (m : gmap str node) (d : list (str * str)) : Prop := {
  ok_self : self = new_MiniGit (repo_dir self);
  ok_objects_enc : fs_encodable (objects_dir self) = true;
  ok_objects_dir : m !! objects_dir self = Some Dir;
  ok_index_enc : fs_encodable (index_file self) = true;
  ok_index_parent : parent_check m (index_file self) = Ok tt;
  ok_index : m !! index_file self = Some (File (json_bytes (index_json d)));
  ok_index_nodup : NoDup (map fst d);
  ok_index_safe : Forall (fun kv => json_safe (fst kv) = true) d;
  ok_refs :
    Forall (fun kv => is_digest (snd kv)
                      /\ exists bs, m !! object_file self (snd kv) = Some (File bs)) d;
  ok_objects :
    forall k n, m !! k = Some n -> os_path_dirname k = objects_dir self ->
                exists bs, n = File bs /\ k = object_file self (SHA1.hexdigest bs)
}.

Definition repo_ok (self : MiniGit) (w : world) (d : list (str * str)) : Prop :=
  store_ok self (fs w) d.

(** [run H]: execute the first statement, whose effect [H] states. *)
Ltac run H := unfold bind at 1; rewrite H; cbv beta iota.

Ltac run_ret := unfold bind at 1; unfold ret at 1; cbv beta iota.

Definition added_line (p : str) : str :=
  lit "Added file " ++ p ++ lit " to the index.".

Definition missing_line (p : str) : str :=
  lit "File " ++ p ++ lit " does not exist.".

Definition commit_data (message : str) (d : list (str * str)) : str :=
  json_dumps (Some 4%nat) (commit_record message (index_json d)).

Definition commit_bytes (message : str) (d : list (str * str)) : list byte :=
  map byte_of_N (commit_data message d).

Definition commit_id (message : str) (d : list (str * str)) : str :=
  SHA1.hexdigest (commit_bytes message d).

Definition hierarchicalb (m : gmap str node) : bool :=
  forallb (fun kv => match parent_check m (fst kv) with Ok _ => true | Raise _ => false end)
          (map_to_list m).

(** Every entry lies in a directory that exists. *)
Definition hierarchical (m : gmap str node) : Prop := hierarchicalb m = true.

(** What a call may change: entries that were absent become directories. *)
Definition grows (bound : nat) (m m' : gmap str node) : Prop :=
  forall k, m' !! k = m !! k
            \/ (m !! k = None /\ m' !! k = Some Dir /\ (List.length k <= bound)%nat).

Definition split2 (name : str) : str * str :=
  let '(head0, tail0) := os_path_split name in
  match tail0 with
  | [] => os_path_split head0
  | _ :: _ => (head0, tail0)
  end.

(** The block that creates a repository, as [__init__] and [init] both
    spell it out. *)
Definition setup (self : MiniGit) : M unit :=
  os_makedirs (repo_dir self) ;;
  os_makedirs (objects_dir self) ;;
  _write_index self (JObj []).

Definition initialized_line (r : str) : str :=
  lit "Initialized empty MiniGit repository in " ++ r.

Inductive op :=
| OpConstruct
| OpInit
| OpAdd (file_path : str)
| OpCommit (message : str)
| OpEdit (p : str) (data : list byte).

(** The world after one operation; [OpEdit] is the user writing a file of
    the working tree. *)
Definition exec (self : MiniGit) (o : op) (w : world) : world :=
  match o with
  | OpConstruct => fst (__init__ (repo_dir self) w)
  | OpInit => fst (init self w)
  | OpAdd p => fst (add self p w)
  | OpCommit message => fst (commit self message w)
  | OpEdit p data => World (<[p := File data]> (fs w)) (stdout w) (wlog w)
  end.

(** The user edits files outside the repository's own files only. *)
Definition allowed (self : MiniGit) (w : world) (o : op) : Prop :=
  match o with
  | OpEdit p _ =>
      fs_encodable p = true /\ p <> index_file self
      /\ os_path_dirname p <> objects_dir self
      /\ fs w !! p <> Some Dir /\ parent_check (fs w) p = Ok tt
  | _ => True
  end.

Inductive reachable (self : MiniGit) : world -> Prop :=
| reach_new w0 w1 :
    hierarchical (fs w0) -> exists_in (fs w0) (repo_dir self) = false ->
    __init__ (repo_dir self) w0 = (w1, Ok self) ->
    reachable self w1
| reach_step w o :
    reachable self w -> allowed self w o -> reachable self (exec self o w).

Definition ex_repo : str := lit ".minigit".

Definition ex_self : MiniGit := new_MiniGit ex_repo.

Definition ex_w0 : world :=
  World (list_to_map
           [(lit "a.txt", File (bytes_of_string "hello"));
            (lit "b.txt", File (bytes_of_string "hello"));
            (lit "crlf.txt", File [x61; x0d; x0a]);
            (lit "bin.dat", File [xff])])
        [] [].

Definition ex_w1 : world := fst (__init__ ex_repo ex_w0).

Definition ex_wa : world := fst (add ex_self (lit "a.txt") ex_w1).

Definition ex_wab : world := fst (add ex_self (lit "b.txt") ex_wa).

Definition ex_wabc : world := fst (add ex_self (lit "crlf.txt") ex_wab).

Definition id_hello : str := SHA1.hexdigest (bytes_of_string "hello").

Definition id_a_nl : str := SHA1.hexdigest [x61; x0a].

(** A line that [print] writes whatever the error handler of the standard
    output: text with no surrogate code point, on a UTF-8 stream. On any
    other line Python's [print] may raise [UnicodeEncodeError]; the
    statements about what is printed take printable lines. *)
Definition printable (s : str) : bool := forallb scalar s.

(** The pieces of a path between separators. *)
Fixpoint components_from (cur : str) (p : str) : list str :=
  match p with
  | [] => [rev cur]
  | c :: r =>
      if is_sep c then rev cur :: components_from [] r
      else components_from (c :: cur) r
  end.

Definition components (p : str) : list str := components_from [] p.

(** A path in the one spelling under which the filesystem map holds it:
    relative, with no empty component, no [.] and no [..]. The operating
    system resolves every other spelling ([./a.txt], [a//b], an absolute
    path) to the same file; the embedding looks a path up as it is spelled,
    so a statement about a path the caller gives takes it in this
    spelling. *)
Definition canonical (p : str) : bool :=
  forallb (fun c => negb (bool_decide (c = []))
                    && negb (bool_decide (c = lit "."))
                    && negb (bool_decide (c = lit "..")))
          (components p).

(** A name the filesystem takes as one component: at most 255 bytes
    ([NAME_MAX]); a longer one makes [os.mkdir] raise [OSError]. *)
Definition name_fits (r : str) : bool :=
  match utf8_encode r with
  | Some bs => (List.length bs <=? 255)%nat
  | None => false
  end.

Ltac decide_ifs :=
  repeat match goal with
         | |- context [if ?b then _ else _] =>
             first [ replace b with true by lia
                   | replace b with false by lia
                   | match b with (_ =? _)%N => destruct b eqn:? end ];
             cbv iota
         end.

Ltac same_char c :=
  match goal with
  | |- cons ?x <$> _ = _ => replace x with c by lia; reflexivity
  end.



(** A repository root given as one path component: a name with no
    separator, other than the two directory links. *)
Definition simple_name (r : str) : Prop :=
  r <> [] /\ no_sep r = true /\ fs_encodable r = true
  /\ r <> lit "." /\ r <> lit "..".

(** A working tree in which the repository directory exists but is empty. *)
Definition ex_wdir : world :=
  World (list_to_map
           [(lit ".minigit", Dir);
            (lit "a.txt", File (bytes_of_string "hello"))])
        [] [].

(** The repository of the examples after its index was emptied by hand. *)
Definition ex_wbad : world :=
  World (<[lit ".minigit/index" := File []]> (fs ex_w1)) [] [].

(** The working tree of the examples with a file [test.txt]. *)
Definition ex_wt : world :=
  World (<[lit "test.txt" := File [x61; x0a]]> (fs ex_w0)) [] [].

(** * Properties *)

(** ** Test vectors for the runtime model *)

Example sha1_empty :
  SHA1.hexdigest [] = lit "da39a3ee5e6b4b0d3255bfef95601890afd80709".
Proof. vm_compute. reflexivity. Qed.

Example sha1_abc :
  SHA1.hexdigest (bytes_of_string "abc")
  = lit "a9993e364706816aba3e25717850c26c9cd0d89d".
Proof. vm_compute. reflexivity. Qed.

Example sha1_two_blocks :
  SHA1.hexdigest
    (bytes_of_string "abcdbcdecdefdefgefghfghighijhijkijkljklmklmnlmnomnopnopq")
  = lit "84983e441c3bd26ebaae4aa1f95129e5e54670f1".
Proof. vm_compute. reflexivity. Qed.

Example sha1_fox :
  SHA1.hexdigest (bytes_of_string "The quick brown fox jumps over the lazy dog")
  = lit "2fd4e1c67a2d28fced849ee1bb76e7391b93eb12".
Proof. vm_compute. reflexivity. Qed.

Example utf8_vectors :
  utf8_encode [0x20AC; 0x1F600; 0xE9]%N
    = Some [xe2; x82; xac; xf0; x9f; x98; x80; xc3; xa9]
  /\ utf8_decode [xe2; x82; xac; xf0; x9f; x98; x80; xc3; xa9]
    = Some [0x20AC; 0x1F600; 0xE9]%N
  /\ utf8_decode [xed; xa0; x80] = None
  /\ utf8_decode [xc0; x80] = None
  /\ utf8_decode [xff] = None
  /\ utf8_decode [xe2; x82] = None.
Proof. vm_compute. repeat split. Qed.

Example newline_vector :
  decode_text [x61; x0d; x0a; x62; x0d; x63]
  = Some (lit "a" ++ [10%N] ++ lit "b" ++ [10%N] ++ lit "c").
Proof. vm_compute. reflexivity. Qed.

Example split_vectors :
  map os_path_split [lit "a/b"; lit "a/b/"; lit "/a"; lit "/"; lit "a"; []; lit "a//b"]
  = [(lit "a", lit "b"); (lit "a/b", []); (lit "/", lit "a"); (lit "/", []);
     ([], lit "a"); ([], []); (lit "a", lit "b")].
Proof. vm_compute. reflexivity. Qed.

(** ** Digests *)

Lemma hexdigit_hexchar n : (n < 16)%N -> is_hexchar (hexdigit n) = true.
Proof.
  intros Hn. unfold is_hexchar, hexdigit.
  destruct (N.ltb_spec n 10); lia.
Qed.

Lemma hex8_length x : List.length (SHA1.hex8 x) = 8%nat.
Proof. reflexivity. Qed.

Lemma hex8_hexchars x : forallb is_hexchar (SHA1.hex8 x) = true.
Proof.
  unfold SHA1.hex8. rewrite forallb_forall. intros c Hc.
  apply in_map_iff in Hc as (i & <- & _).
  apply hexdigit_hexchar.
  pose proof (Z.mod_pos_bound (Z.shiftr x (4 * Z.of_nat (7 - i))) 16).
  lia.
Qed.

Lemma hexdigest_is_digest bs : is_digest (SHA1.hexdigest bs).
Proof.
  unfold is_digest, SHA1.hexdigest. split.
  - rewrite !length_app, !hex8_length. reflexivity.
  - rewrite !forallb_app, !hex8_hexchars. reflexivity.
Qed.

(** ** UTF-8 *)

Lemma byte_of_to_N b : byte_of_N (Byte.to_N b) = b.
Proof.
  unfold byte_of_N. pose proof (Byte.to_N_bounded b).
  rewrite N.mod_small by lia. now rewrite Byte.of_to_N.
Qed.

Lemma to_N_byte_of_N n : (n < 256)%N -> Byte.to_N (byte_of_N n) = n.
Proof.
  intros Hn. unfold byte_of_N. rewrite N.mod_small by lia.
  destruct (Byte.of_N n) eqn:E.
  - now apply Byte.to_of_N.
  - apply Byte.of_N_None_iff in E. lia.
Qed.

Lemma byte_of_N_eq n b : n = Byte.to_N b -> byte_of_N n = b.
Proof. intros ->. apply byte_of_to_N. Qed.

Lemma utf8_encode_char_scalar c :
  scalar c = true -> exists bs, utf8_encode_char c = Some bs.
Proof.
  unfold scalar, utf8_encode_char. intros H.
  destruct (is_surrogate c); [discriminate|].
  repeat match goal with |- context [if ?b then _ else _] => destruct b eqn:? end;
    eauto; lia.
Qed.

Lemma utf8_encode_scalar s :
  forallb scalar s = true -> exists bs, utf8_encode s = Some bs.
Proof.
  induction s as [|c s IH]; simpl; [eauto|].
  rewrite andb_true_iff. intros [Hc Hs].
  destruct (utf8_encode_char_scalar c Hc) as [b ->].
  destruct (IH Hs) as [bs ->]. eauto.
Qed.

Lemma universal_newlines_In s c :
  In c (universal_newlines s) -> c = 10%N \/ In c s.
Proof.
  revert c. induction s as [s IH] using (induction_ltof1 _ (@List.length N)).
  unfold ltof in IH. intros c.
  destruct s as [|a [|d r]]; simpl.
  - tauto.
  - destruct (a =? 13)%N; simpl; intuition auto.
  - destruct (a =? 13)%N.
    + destruct (d =? 10)%N; simpl; intros [<-|H]; auto.
      * apply IH in H; simpl; [tauto | lia].
      * apply (IH (d :: r)) in H; simpl in *; [tauto | lia].
    + simpl. intros [<-|H]; auto.
      apply (IH (d :: r)) in H; simpl in *; [tauto | lia].
Qed.

Lemma universal_newlines_scalar s :
  forallb scalar s = true -> forallb scalar (universal_newlines s) = true.
Proof.
  rewrite !forallb_forall. intros H c Hc.
  apply universal_newlines_In in Hc as [-> | Hc]; auto.
Qed.

Lemma universal_newlines_no_cr s : ~ In 13%N (universal_newlines s).
Proof.
  induction s as [s IH] using (induction_ltof1 _ (@List.length N)).
  unfold ltof in IH.
  destruct s as [|a [|d r]]; simpl.
  - tauto.
  - destruct (a =? 13)%N eqn:E; simpl; lia.
  - destruct (a =? 13)%N eqn:E.
    + destruct (d =? 10)%N; simpl; intros [?|H]; try lia.
      * revert H. apply IH. simpl. lia.
      * revert H. apply (IH (d :: r)). simpl. lia.
    + simpl. intros [?|H]; try lia.
      revert H. apply (IH (d :: r)). simpl. lia.
Qed.

Lemma universal_newlines_id s : ~ In 13%N s -> universal_newlines s = s.
Proof.
  induction s as [|c s IH]; simpl; auto.
  intros H. destruct (c =? 13)%N eqn:E; [exfalso; apply H; left; lia|].
  f_equal. apply IH. tauto.
Qed.

Lemma utf8_encode_app s1 s2 :
  utf8_encode (s1 ++ s2)
  = match utf8_encode s1, utf8_encode s2 with
    | Some b1, Some b2 => Some (b1 ++ b2)
    | _, _ => None
    end.
Proof.
  induction s1 as [|c s1 IH]; simpl.
  - destruct (utf8_encode s2); reflexivity.
  - rewrite IH. destruct (utf8_encode_char c), (utf8_encode s1), (utf8_encode s2);
      try reflexivity. now rewrite app_assoc.
Qed.

(** Decoding is the inverse of encoding on what it accepts: the decoder
    takes shortest forms only. *)
Lemma utf8_decode_encode bs :
  forall s, utf8_decode bs = Some s -> utf8_encode s = Some bs.
Proof.
  induction bs as [bs IH] using (induction_ltof1 _ (@List.length byte)).
  unfold ltof in IH.
  destruct bs as [|b0 r0]; intros s H.
  - simpl in H. injection H as <-. reflexivity.
  - cbn [utf8_decode] in H. unfold in_range, cont in H.
    pose proof (Byte.to_N_bounded b0) as B0.
    destruct ((0 <=? Byte.to_N b0)%N && (Byte.to_N b0 <=? 127)%N) eqn:E1.
    { destruct (utf8_decode r0) as [s0|] eqn:D; [|discriminate].
      injection H as <-. apply IH in D; [|simpl; lia].
      simpl. rewrite D. unfold utf8_encode_char.
      destruct (Byte.to_N b0 <? 128)%N eqn:E2; [|lia].
      now rewrite byte_of_to_N. }
    destruct r0 as [|b1 r1]; [discriminate|].
    pose proof (Byte.to_N_bounded b1) as B1.
    destruct ((194 <=? Byte.to_N b0)%N && (Byte.to_N b0 <=? 223)%N) eqn:E2.
    { destruct ((128 <=? Byte.to_N b1)%N && (Byte.to_N b1 <=? 191)%N) eqn:E3;
        [|discriminate].
      destruct (utf8_decode r1) as [s0|] eqn:D; [|discriminate].
      injection H as <-. apply IH in D; [|simpl; lia].
      simpl. rewrite D. unfold utf8_encode_char.
      repeat match goal with |- context [if ?b then _ else _] => destruct b eqn:? end;
        try lia.
      simpl; repeat f_equal; apply byte_of_N_eq; lia. }
    destruct r1 as [|b2 r2]; [discriminate|].
    pose proof (Byte.to_N_bounded b2) as B2.
    destruct ((224 <=? Byte.to_N b0)%N && (Byte.to_N b0 <=? 239)%N) eqn:E3.
    { destruct (Byte.to_N b0 =? 224)%N eqn:Ea, (Byte.to_N b0 =? 237)%N eqn:Eb;
        (match type of H with (if ?c then _ else _) = _ => destruct c eqn:E4 end;
         [|discriminate]);
      (destruct (utf8_decode r2) as [s0|] eqn:D; [|discriminate]);
      injection H as <-; (apply IH in D; [|simpl; lia]);
      simpl; rewrite D; unfold utf8_encode_char, is_surrogate;
      repeat match goal with |- context [if ?b then _ else _] => destruct b eqn:? end;
        try lia;
      simpl; repeat f_equal; apply byte_of_N_eq; lia. }
    destruct r2 as [|b3 r3]; [discriminate|].
    pose proof (Byte.to_N_bounded b3) as B3.
    destruct ((240 <=? Byte.to_N b0)%N && (Byte.to_N b0 <=? 244)%N) eqn:E4;
      [|discriminate].
    destruct (Byte.to_N b0 =? 240)%N eqn:Ea, (Byte.to_N b0 =? 244)%N eqn:Eb;
      (match type of H with (if ?c then _ else _) = _ => destruct c eqn:E5 end;
         [|discriminate]);
      (destruct (utf8_decode r3) as [s0|] eqn:D; [|discriminate]);
      injection H as <-; (apply IH in D; [|simpl; lia]);
      simpl; rewrite D; unfold utf8_encode_char, is_surrogate;
      repeat match goal with |- context [if ?b then _ else _] => destruct b eqn:? end;
        try lia;
      simpl; repeat f_equal; apply byte_of_N_eq; lia.
Qed.

(** ** JSON: what [json.loads] gives back on what [json.dumps] wrote *)

Lemma hexval_hexdigit n : (n < 16)%N -> hexval (hexdigit n) = Some n.
Proof.
  intros Hn. unfold hexval, hexdigit.
  destruct (n <? 10)%N eqn:E.
  - replace ((48 <=? 48 + n) && (48 + n <=? 57))%N with true by lia.
    f_equal. lia.
  - replace ((48 <=? 87 + n) && (87 + n <=? 57))%N with false by lia.
    replace ((97 <=? 87 + n) && (87 + n <=? 102))%N with true by lia.
    f_equal. lia.
Qed.

Lemma decode_hex4_hex4 c :
  (c < 65536)%N ->
  decode_hex4 (hexdigit (c / 16 / 16 / 16 mod 16)) (hexdigit (c / 16 / 16 mod 16))
              (hexdigit (c / 16 mod 16)) (hexdigit (c mod 16)) = Some c.
Proof.
  intros Hc. unfold decode_hex4.
  rewrite !hexval_hexdigit by lia. f_equal. lia.
Qed.

Lemma scanstring_quote r : scanstring (34%N :: r) = POk [] r.
Proof. reflexivity. Qed.

Lemma scanstring_plain c r :
  c <> 34%N -> c <> 92%N -> (32 <= c)%N ->
  scanstring (c :: r) = pmap (cons c) (scanstring r).
Proof.
  intros H1 H2 H3. cbn [scanstring].
  replace (c =? 34)%N with false by lia.
  replace (c =? 92)%N with false by lia.
  replace (c <? 32)%N with false by lia.
  reflexivity.
Qed.

Lemma scanstring_esc e c' r :
  unescape e = Some c' -> e <> 117%N ->
  scanstring (92%N :: e :: r) = pmap (cons c') (scanstring r).
Proof.
  intros H1 H2. cbn [scanstring].
  change (92 =? 34)%N with false. change (92 =? 92)%N with true. cbv iota.
  replace (e =? 117)%N with false by lia. now rewrite H1.
Qed.

Lemma scanstring_u h1 h2 h3 h4 u1 r :
  decode_hex4 h1 h2 h3 h4 = Some u1 -> is_high_surrogate u1 = false ->
  scanstring (92%N :: 117%N :: h1 :: h2 :: h3 :: h4 :: r)
  = pmap (cons u1) (scanstring r).
Proof.
  intros H1 H2. cbn [scanstring].
  change (92 =? 34)%N with false. change (92 =? 92)%N with true.
  change (117 =? 117)%N with true. cbv iota.
  now rewrite H1, H2.
Qed.

Lemma scanstring_pair h1 h2 h3 h4 l1 l2 l3 l4 u1 u2 x r :
  decode_hex4 h1 h2 h3 h4 = Some u1 -> is_high_surrogate u1 = true ->
  decode_hex4 l1 l2 l3 l4 = Some u2 -> is_low_surrogate u2 = true ->
  scanstring (92%N :: 117%N :: h1 :: h2 :: h3 :: h4
                :: 92%N :: 117%N :: l1 :: l2 :: l3 :: l4 :: x :: r)
  = pmap (cons (join_surrogates u1 u2)) (scanstring (x :: r)).
Proof.
  intros H1 H2 H3 H4.
  cbn [scanstring].
  change (92 =? 34)%N with false. change (92 =? 92)%N with true.
  change (117 =? 117)%N with true. cbv iota.
  rewrite H1, H2. cbn [andb]. now rewrite H3, H4.
Qed.

Lemma scanstring_escaped s rest :
  json_safe s = true ->
  scanstring (concat (map escape_char s) ++ 34%N :: rest) = POk s rest.
Proof.
  induction s as [|c s IH]; intros Hs.
  - apply scanstring_quote.
  - cbn [json_safe forallb] in Hs. apply andb_true_iff in Hs as [Hc Hs].
    specialize (IH Hs). cbn [map concat]. rewrite <- app_assoc.
    set (X := concat (map escape_char s) ++ 34%N :: rest) in *.
    unfold json_safe_char, is_high_surrogate in Hc.
    unfold escape_char.
    repeat match goal with
           | |- context [if (c =? ?k)%N then _ else _] =>
               destruct (c =? k)%N eqn:?
           end;
      try (cbn [app]; erewrite scanstring_esc by (reflexivity || lia);
           rewrite IH; cbn [pmap]; do 2 f_equal; lia).
    destruct ((32 <=? c) && (c <=? 126))%N eqn:Hp.
    { cbn [app]. rewrite scanstring_plain by lia. now rewrite IH. }
    destruct (c <? 65536)%N eqn:Hb.
    { cbn [app hex4]. rewrite (scanstring_u _ _ _ _ c).
      - now rewrite IH.
      - apply decode_hex4_hex4. lia.
      - unfold is_high_surrogate. lia. }
    cbn zeta.
    assert (exists x X', X = x :: X') as (x & X' & HX).
    { unfold X. destruct (concat (map escape_char s)); simpl; eauto. }
    rewrite HX in *. cbn [app hex4].
    rewrite (scanstring_pair _ _ _ _ _ _ _ _
               (0xD800 + (c - 0x10000) / 1024 mod 1024)
               (0xDC00 + (c - 0x10000) mod 1024))%N.
    + rewrite IH. cbn [pmap]. do 2 f_equal. unfold join_surrogates. lia.
    + apply decode_hex4_hex4. lia.
    + unfold is_high_surrogate. lia.
    + apply decode_hex4_hex4. lia.
    + unfold is_low_surrogate. lia.
Qed.

Lemma skip_ws_nonws c s : is_ws c = false -> skip_ws (c :: s) = c :: s.
Proof. intros H. simpl. now rewrite H. Qed.

Lemma skip_ws_app ws s : forallb is_ws ws = true -> skip_ws (ws ++ s) = skip_ws s.
Proof.
  induction ws as [|c ws IH]; simpl; auto.
  intros H. apply andb_true_iff in H as [-> H]. auto.
Qed.

Lemma newline_indent_ws n l : forallb is_ws (newline_indent n l) = true.
Proof.
  unfold newline_indent. cbn [forallb]. change (is_ws 10) with true.
  induction (n * l)%nat; simpl; auto.
Qed.

Lemma scan_once_S f s :
  scan_once (S f) s
  = match s with
    | [] => PErr JSONDecodeError
    | c :: r =>
        if (c =? 34)%N then pmap JStr (scanstring r)
        else if (c =? 123)%N then
          match skip_ws r with
          | [] => PErr JSONDecodeError
          | c1 :: r1 =>
              if (c1 =? 125)%N then POk (JObj []) r1
              else if (c1 =? 34)%N then members f [] r1
              else PErr JSONDecodeError
          end
        else if starts_other_value c then PErr Unmodelled
        else PErr JSONDecodeError
    end.
Proof. reflexivity. Qed.

Lemma members_S f pairs s :
  members (S f) pairs s
  = match scanstring s with
    | PErr e => PErr e
    | POk key s1 =>
        match skip_ws s1 with
        | [] => PErr JSONDecodeError
        | c :: s2 =>
            if (c =? 58)%N then
              match scan_once f (skip_ws s2) with
              | PErr e => PErr e
              | POk value s3 =>
                  let pairs' := pairs ++ [(key, value)] in
                  match skip_ws s3 with
                  | [] => PErr JSONDecodeError
                  | c' :: s4 =>
                      if (c' =? 125)%N then POk (JObj (dict_of_pairs pairs')) s4
                      else if (c' =? 44)%N then
                        match skip_ws s4 with
                        | [] => PErr JSONDecodeError
                        | q :: s5 =>
                            if (q =? 34)%N then members f pairs' s5
                            else PErr JSONDecodeError
                        end
                      else PErr JSONDecodeError
                  end
              end
            else PErr JSONDecodeError
        end
    end.
Proof. reflexivity. Qed.

Lemma join_items enc sep ms :
  ms <> [] ->
  join_with sep
    (map (fun kv => encode_basestring_ascii (fst kv) ++ lit ": " ++ enc (snd kv)) ms)
  = 34%N :: members_text enc sep ms.
Proof.
  induction ms as [|kv ms IH]; [congruence|]. intros _.
  destruct ms as [|kv' ms].
  - cbn. unfold encode_basestring_ascii. cbn.
    rewrite <- !app_assoc. cbn. now rewrite app_nil_r.
  - specialize (IH ltac:(discriminate)).
    change (join_with sep (map ?g (kv :: kv' :: ms)))
      with (g kv ++ sep ++ join_with sep (map g (kv' :: ms))).
    rewrite IH. cbn [members_text]. unfold encode_basestring_ascii.
    cbn [app]. rewrite <- !app_assoc. reflexivity.
Qed.

Lemma skip_ws_value ws s rest :
  forallb is_ws ws = true -> starts_value s ->
  skip_ws (ws ++ s ++ rest) = s ++ rest.
Proof.
  intros Hws (c & t & -> & Hc). rewrite skip_ws_app by assumption.
  cbn [app]. apply skip_ws_nonws. destruct Hc as [-> | ->]; reflexivity.
Qed.

Lemma members_text_cons enc sep k x ms T :
  members_text enc sep ((k, x) :: ms) ++ T
  = concat (map escape_char k)
      ++ 34%N :: 58%N :: [32%N] ++ enc x ++ more_members enc sep ms ++ T.
Proof.
  cbn [members_text fst snd]. fold (more_members enc sep ms).
  change (lit ": ") with [58%N; 32%N].
  repeat first [rewrite <- app_assoc | progress cbn [app]]. reflexivity.
Qed.

Lemma members_roundtrip (enc : json -> str) (wsep close : str) :
  forallb is_ws wsep = true -> forallb is_ws close = true ->
  forall ms,
    ms <> [] ->
    Forall (fun kv =>
              json_safe (fst kv) = true /\ starts_value (enc (snd kv)) /\
              forall rest fuel,
                (List.length (enc (snd kv) ++ rest) < fuel)%nat ->
                scan_once fuel (enc (snd kv) ++ rest) = POk (snd kv) rest) ms ->
    forall pairs rest fuel,
      (List.length (members_text enc (44%N :: wsep) ms ++ close ++ 125%N :: rest)
       < fuel)%nat ->
      members fuel pairs (members_text enc (44%N :: wsep) ms ++ close ++ 125%N :: rest)
      = POk (JObj (dict_of_pairs (pairs ++ ms))) rest.
Proof.
  intros Hwsep Hclose ms. induction ms as [|[k x] ms IH]; [congruence|].
  intros _ HF pairs rest fuel Hlen.
  apply Forall_cons_iff in HF as [(Hk & Hx & Hrt) HF]. cbn [fst snd] in *.
  destruct fuel as [|f]; [lia|].
  rewrite members_text_cons in *.
  rewrite members_S, scanstring_escaped by assumption.
  rewrite skip_ws_nonws by reflexivity.
  change (58 =? 58)%N with true. cbv iota.
  rewrite skip_ws_value by (reflexivity || assumption).
  len_norm Hlen.
  rewrite Hrt by (rewrite ?length_app; cbn [List.length]; lia).
  cbv zeta.
  destruct ms as [|kv' ms].
  - cbn [more_members app]. rewrite skip_ws_app by assumption.
    rewrite skip_ws_nonws by reflexivity.
    change (125 =? 125)%N with true. cbv iota. reflexivity.
  - cbn [more_members] in *. rewrite <- !app_assoc. cbn [app].
    rewrite skip_ws_nonws by reflexivity.
    change (44 =? 125)%N with false. change (44 =? 44)%N with true. cbv iota.
    rewrite skip_ws_app by assumption.
    rewrite skip_ws_nonws by reflexivity.
    change (34 =? 34)%N with true. cbv iota.
    rewrite IH; [| discriminate | assumption |].
    + now rewrite <- app_assoc.
    + len_norm Hlen. rewrite ?length_app. cbn [List.length]. lia.
Qed.

Lemma dict_set_fresh {V} k (v : V) d :
  ~ In k (map fst d) -> dict_set k v d = d ++ [(k, v)].
Proof.
  induction d as [|[k' v'] d IH]; cbn [dict_set map fst In app]; [reflexivity|].
  intros H. destruct (decide (k = k')) as [->|?]; [tauto|].
  rewrite IH by tauto. reflexivity.
Qed.

Lemma dict_of_pairs_app {V} (acc ms : list (str * V)) :
  NoDup (map fst (acc ++ ms)) ->
  fold_left (fun d kv => dict_set (fst kv) (snd kv) d) ms acc = acc ++ ms.
Proof.
  revert acc. induction ms as [|[k v] ms IH]; intros acc H; cbn [fold_left fst snd].
  - now rewrite app_nil_r.
  - rewrite dict_set_fresh.
    + rewrite IH; rewrite <- app_assoc; [reflexivity | exact H].
    + rewrite map_app in H. cbn [map fst] in H. apply NoDup_app in H as (_ & H & _).
      intros Hin. apply (H k); [now apply list_elem_of_In | left].
Qed.

Lemma dict_of_pairs_nodup {V} (ms : list (str * V)) :
  NoDup (map fst ms) -> dict_of_pairs ms = ms.
Proof. intros H. unfold dict_of_pairs. now rewrite dict_of_pairs_app. Qed.

Lemma json_encode_starts indent level v : starts_value (json_encode indent level v).
Proof.
  destruct v as [s|[|kv ms]]; [| |destruct indent];
    cbn [json_encode encode_basestring_ascii]; unfold starts_value;
    cbn [lit list_ascii_of_string map N_of_ascii app]; eauto.
Qed.

Theorem scan_once_encode indent v :
  wf_json v ->
  forall level rest fuel,
    (List.length (json_encode indent level v ++ rest) < fuel)%nat ->
    scan_once fuel (json_encode indent level v ++ rest) = POk v rest.
Proof.
  induction v as [s|ms IH] using json_ind'; intros Hwf level rest fuel Hlen.
  - inversion Hwf as [s' Hs|]; subst.
    destruct fuel as [|f]; [lia|]. rewrite scan_once_S.
    cbn [json_encode]. unfold encode_basestring_ascii.
    rewrite <- app_comm_cons, <- app_assoc. cbn [app].
    change (34 =? 34)%N with true. cbv iota.
    now rewrite scanstring_escaped.
  - inversion Hwf as [|ms' Hnd HF]; subst.
    destruct fuel as [|f]; [lia|]. rewrite scan_once_S.
    destruct ms as [|kv ms]; [reflexivity|].
    assert (HF' : forall ind lvl,
      Forall (fun kv =>
        json_safe (fst kv) = true /\ starts_value (json_encode ind lvl (snd kv)) /\
        forall rest fuel,
          (List.length (json_encode indent lvl (snd kv) ++ rest) < fuel)%nat ->
          scan_once fuel (json_encode indent lvl (snd kv) ++ rest) = POk (snd kv) rest)
        (kv :: ms)).
    { intros ind lvl. rewrite Forall_forall in *. intros x Hx.
      destruct (HF x Hx) as [Hk Hv]. repeat split; auto using json_encode_starts. }
    cbn [json_encode] in *.
    destruct indent as [n|].
    + rewrite join_items in * by discriminate.
      change (lit "{") with [123%N] in *. change (lit "}") with [125%N] in *.
      change (lit ",") with [44%N] in *.
      repeat first [rewrite <- app_assoc in * | progress cbn [app] in * ].
      change (123 =? 34)%N with false. change (123 =? 123)%N with true. cbv iota.
      unfold newline_indent at 1. cbn [app skip_ws]. change (is_ws 10) with true.
      cbv iota.
      rewrite skip_ws_app by (clear; induction (n * S level)%nat; simpl; auto).
      rewrite skip_ws_nonws by reflexivity.
      change (34 =? 125)%N with false. change (34 =? 34)%N with true. cbv iota.
      unfold newline_indent in Hlen at 1. len_norm Hlen.
      rewrite (members_roundtrip (json_encode (Some n) (S level))
                 (newline_indent n (S level)) (newline_indent n level));
        auto using newline_indent_ws; try discriminate.
      * cbn [app]. now rewrite dict_of_pairs_nodup.
      * rewrite ?length_app. cbn [List.length]. lia.
    + rewrite join_items in * by discriminate.
      change (lit "{") with [123%N] in *. change (lit "}") with [125%N] in *.
      change (lit ", ") with (44%N :: [32%N]) in *.
      repeat first [rewrite <- app_assoc in * | progress cbn [app] in * ].
      change (123 =? 34)%N with false. change (123 =? 123)%N with true. cbv iota.
      rewrite skip_ws_nonws by reflexivity.
      change (34 =? 125)%N with false. change (34 =? 34)%N with true. cbv iota.
      len_norm Hlen.
      pose proof (members_roundtrip (json_encode None (S level)) [32%N] []
                    eq_refl eq_refl (kv :: ms) ltac:(discriminate) (HF' None (S level))
                    [] rest f) as Hm.
      cbn [app] in Hm. rewrite Hm.
      * now rewrite dict_of_pairs_nodup.
      * rewrite ?length_app. cbn [List.length]. lia.
Qed.

Theorem json_loads_dumps indent v :
  wf_json v -> json_loads (json_dumps indent v) = Ok v.
Proof.
  intros Hwf. unfold json_dumps.
  pose proof (scan_once_encode indent v Hwf 0 []
                (S (List.length (json_encode indent 0 v)))) as H.
  rewrite app_nil_r in H. specialize (H ltac:(lia)).
  destruct (json_encode_starts indent 0 v) as (c & t & E & Hc).
  rewrite E in *. unfold json_loads.
  assert (Hs : skip_ws (c :: t) = c :: t)
    by (apply skip_ws_nonws; destruct Hc as [-> | ->]; reflexivity).
  destruct Hc as [-> | ->]; cbv beta iota zeta; rewrite Hs, H; reflexivity.
Qed.

Lemma hexdigit_json_char n : (n < 16)%N -> json_char (hexdigit n) = true.
Proof. intros H. unfold json_char, hexdigit. destruct (n <? 10)%N eqn:E; lia. Qed.

Lemma hex4_json_char c : forallb json_char (hex4 c) = true.
Proof.
  unfold hex4. cbn [forallb].
  rewrite !hexdigit_json_char by lia. reflexivity.
Qed.

Lemma escape_char_json_char c : forallb json_char (escape_char c) = true.
Proof.
  unfold escape_char.
  repeat match goal with
         | |- context [if ?b then _ else _] => destruct b eqn:?
         end; try reflexivity.
  - cbn [forallb]. unfold json_char. lia.
  - cbn [forallb]. now rewrite hex4_json_char.
  - cbn [forallb]. rewrite forallb_app. cbn [forallb].
    now rewrite !hex4_json_char.
Qed.

Lemma encode_basestring_json_char s :
  forallb json_char (encode_basestring_ascii s) = true.
Proof.
  unfold encode_basestring_ascii. cbn [forallb]. rewrite forallb_app.
  cbn. rewrite andb_true_r.
  induction s as [|c s IH]; cbn [map concat]; [reflexivity|].
  now rewrite forallb_app, escape_char_json_char, IH.
Qed.

Lemma join_with_forallb (P : N -> bool) sep items :
  forallb P sep = true -> Forall (fun x => forallb P x = true) items ->
  forallb P (join_with sep items) = true.
Proof.
  intros Hsep. induction 1 as [|x items Hx HF IH]; [reflexivity|].
  destruct items as [|y items]; [exact Hx|].
  change (join_with sep (x :: y :: items))
    with (x ++ sep ++ join_with sep (y :: items)).
  now rewrite !forallb_app, Hx, Hsep, IH.
Qed.

Lemma newline_indent_json_char n l : forallb json_char (newline_indent n l) = true.
Proof.
  unfold newline_indent. cbn [forallb]. change (json_char 10) with true.
  induction (n * l)%nat; simpl; auto.
Qed.

Theorem json_encode_json_char indent v :
  forall level, forallb json_char (json_encode indent level v) = true.
Proof.
  induction v as [s|ms IH] using json_ind'; intros level.
  - apply encode_basestring_json_char.
  - cbn [json_encode].
    assert (HI : Forall (fun x => forallb json_char x = true)
              (map (fun kv => encode_basestring_ascii (fst kv) ++ lit ": "
                               ++ json_encode indent (S level) (snd kv)) ms)).
    { apply Forall_map. eapply Forall_impl; [exact IH|].
      intros kv H. cbn beta. rewrite !forallb_app, encode_basestring_json_char, H.
      reflexivity. }
    destruct ms as [|kv ms]; [reflexivity|].
    destruct indent as [n|]; rewrite ?forallb_app.
    + rewrite join_with_forallb, !newline_indent_json_char; auto.
      cbn [lit list_ascii_of_string map app forallb].
      now rewrite newline_indent_json_char.
    + rewrite join_with_forallb; auto.
Qed.

(** ** Text files that hold JSON *)

Lemma utf8_encode_ascii t :
  forallb (fun c => c <? 128)%N t = true -> utf8_encode t = Some (map byte_of_N t).
Proof.
  induction t as [|c t IH]; [reflexivity|]. cbn [forallb].
  intros H. apply andb_true_iff in H as [Hc Ht].
  cbn [utf8_encode map]. rewrite (IH Ht). unfold utf8_encode_char. now rewrite Hc.
Qed.

Lemma utf8_decode_ascii t :
  forallb (fun c => c <? 128)%N t = true -> utf8_decode (map byte_of_N t) = Some t.
Proof.
  induction t as [|c t IH]; [reflexivity|]. cbn [forallb].
  intros H. apply andb_true_iff in H as [Hc Ht].
  cbn [map utf8_decode]. unfold in_range.
  rewrite to_N_byte_of_N by lia.
  replace ((0 <=? c) && (c <=? 127))%N with true by lia.
  now rewrite (IH Ht).
Qed.

Lemma json_char_ascii t :
  forallb json_char t = true -> forallb (fun c => c <? 128)%N t = true.
Proof.
  rewrite !forallb_forall. intros H c Hc. specialize (H c Hc).
  unfold json_char in H. lia.
Qed.

Lemma json_char_no_cr t : forallb json_char t = true -> ~ In 13%N t.
Proof.
  rewrite forallb_forall. intros H Hin. specialize (H _ Hin). discriminate.
Qed.

Lemma json_text_roundtrip t :
  forallb json_char t = true ->
  utf8_encode t = Some (map byte_of_N t)
  /\ decode_text (map byte_of_N t) = Some t.
Proof.
  intros H. split.
  - now apply utf8_encode_ascii, json_char_ascii.
  - unfold decode_text. rewrite utf8_decode_ascii by now apply json_char_ascii.
    cbn. f_equal. now apply universal_newlines_id, json_char_no_cr.
Qed.

(** ** Paths *)

Lemma take_while_all P s : forallb P s = true -> take_while P s = s.
Proof.
  induction s as [|c s IH]; [reflexivity|]. cbn.
  intros H. apply andb_true_iff in H as [-> H]. now rewrite IH.
Qed.

Lemma drop_while_app P s c t :
  forallb P s = true -> P c = false -> drop_while P (s ++ c :: t) = c :: t.
Proof.
  induction s as [|a s IH]; cbn; intros H Hc.
  - now rewrite Hc.
  - apply andb_true_iff in H as [-> H]. now apply IH.
Qed.

Lemma take_while_app P s c t :
  forallb P s = true -> P c = false -> take_while P (s ++ c :: t) = s.
Proof.
  induction s as [|a s IH]; cbn; intros H Hc.
  - now rewrite Hc.
  - apply andb_true_iff in H as [-> H]. now rewrite IH.
Qed.

Lemma forallb_rev {A} (P : A -> bool) s : forallb P (rev s) = forallb P s.
Proof.
  induction s as [|a s IH]; [reflexivity|].
  cbn [rev]. rewrite forallb_app, IH. cbn. rewrite andb_true_r. apply andb_comm.
Qed.

Lemma join_plain d n :
  plain d -> (match n with c :: _ => is_sep c | [] => false end) = false ->
  os_path_join d n = d ++ sep :: n.
Proof.
  intros (c & t & Hr & Hc) Hn. unfold os_path_join, ends_with_sep.
  rewrite Hr, Hc.
  assert (d <> []) by (intros ->; discriminate).
  destruct d; [congruence|]. destruct n as [|x n]; [reflexivity|].
  now rewrite Hn.
Qed.

Lemma split_join d n :
  plain d -> no_sep n = true ->
  os_path_split (d ++ sep :: n) = (d, n).
Proof.
  intros (c & t & Hr & Hc) Hn. unfold os_path_split.
  assert (Hrev : rev (d ++ sep :: n) = rev n ++ sep :: rev d).
  { rewrite rev_app_distr. cbn [rev]. now rewrite <- app_assoc. }
  rewrite Hrev.
  rewrite drop_while_app, take_while_app;
    try (rewrite forallb_rev; exact Hn); try reflexivity.
  rewrite rev_involutive.
  assert (Hhead : rev (sep :: rev d) = d ++ [sep]).
  { cbn [rev]. now rewrite rev_involutive. }
  rewrite Hhead.
  assert (forallb is_sep (d ++ [sep]) = false) as ->.
  { rewrite <- forallb_rev, rev_app_distr, Hr. cbn. now rewrite Hc. }
  cbn [drop_while]. change (is_sep sep) with true. cbv iota.
  rewrite Hr. cbn [drop_while]. rewrite Hc. rewrite <- Hr.
  now rewrite !rev_involutive.
Qed.

Lemma dirname_join d n :
  plain d -> no_sep n = true -> os_path_dirname (os_path_join d n) = d.
Proof.
  intros Hd Hn. rewrite join_plain; auto.
  - unfold os_path_dirname. now rewrite split_join.
  - destruct n as [|x n]; [reflexivity|]. cbn in Hn.
    apply andb_true_iff in Hn as [Hx _]. now destruct (is_sep x).
Qed.

Lemma digest_no_sep h : is_digest h -> no_sep h = true.
Proof.
  intros [_ H]. unfold no_sep. rewrite forallb_forall in *.
  intros c Hc. specialize (H c Hc). unfold is_hexchar in H. unfold is_sep, sep. lia.
Qed.

Lemma digest_fs_encodable h : is_digest h -> fs_encodable h = true.
Proof.
  intros [_ H]. unfold fs_encodable. rewrite forallb_forall in *.
  intros c Hc. specialize (H c Hc). unfold is_hexchar in H. unfold fs_char. lia.
Qed.

Lemma digest_json_safe h : is_digest h -> json_safe h = true.
Proof.
  intros [_ H]. unfold json_safe. rewrite forallb_forall in *.
  intros c Hc. specialize (H c Hc). unfold is_hexchar in H.
  unfold json_safe_char, is_high_surrogate. lia.
Qed.

Lemma fs_encodable_json_safe p : fs_encodable p = true -> json_safe p = true.
Proof.
  unfold fs_encodable, json_safe. rewrite !forallb_forall. intros H c Hc.
  specialize (H c Hc). unfold fs_char in H.
  unfold json_safe_char, is_high_surrogate. lia.
Qed.

(** ** The repository's paths *)

Lemma join_first_not_sep r n c t :
  n = c :: t -> is_sep c = false ->
  exists R, os_path_join r n = R ++ n
            /\ (R = [] \/ R = r \/ R = r ++ [sep]).
Proof.
  intros -> Hc. unfold os_path_join. rewrite Hc.
  destruct r as [|a r]; [exists []; auto|].
  destruct (ends_with_sep (a :: r)).
  - exists (a :: r). auto.
  - exists ((a :: r) ++ [sep]). rewrite <- app_assoc. auto.
Qed.

Lemma self_paths r :
  exists R,
    objects_dir (new_MiniGit r) = R ++ lit "objects"
    /\ index_file (new_MiniGit r) = R ++ lit "index".
Proof.
  unfold new_MiniGit. cbn [objects_dir index_file]. unfold os_path_join.
  change (lit "objects") with (111%N :: lit "bjects").
  change (lit "index") with (105%N :: lit "ndex").
  change (is_sep 111) with false. change (is_sep 105) with false. cbv iota.
  destruct r as [|a r]; [exists []; auto|].
  destruct (ends_with_sep (a :: r)).
  - exists (a :: r). auto.
  - exists ((a :: r) ++ [sep]). now rewrite <- !app_assoc.
Qed.

Lemma objects_dir_plain r : plain (objects_dir (new_MiniGit r)).
Proof.
  destruct (self_paths r) as (R & -> & _). unfold plain.
  rewrite rev_app_distr. cbn. eauto.
Qed.

Lemma drop_while_length P s : (List.length (drop_while P s) <= List.length s)%nat.
Proof. induction s as [|c s IH]; cbn; [lia|]. destruct (P c); cbn; lia. Qed.

Lemma dirname_length p : (List.length (os_path_dirname p) <= List.length p)%nat.
Proof.
  unfold os_path_dirname, os_path_split. cbn [fst].
  set (head := rev (drop_while (fun c => negb (is_sep c)) (rev p))).
  assert (List.length head <= List.length p)%nat.
  { unfold head. rewrite length_rev.
    etransitivity; [apply drop_while_length|]. now rewrite length_rev. }
  destruct (forallb is_sep head); [assumption|].
  rewrite length_rev. etransitivity; [apply drop_while_length|].
  now rewrite length_rev.
Qed.

Section Paths.
Variable r : str.
Local Abbreviation self := (new_MiniGit r).

Lemma object_file_eq h :
  no_sep h = true -> object_file self h = objects_dir self ++ sep :: h.
Proof.
  intros Hh. apply join_plain; [apply objects_dir_plain|].
  destruct h as [|c h]; [reflexivity|]. cbn in Hh.
  apply andb_true_iff in Hh as [Hc _]. now destruct (is_sep c).
Qed.

Lemma object_file_dirname h :
  no_sep h = true -> os_path_dirname (object_file self h) = objects_dir self.
Proof. intros Hh. apply dirname_join; [apply objects_dir_plain | exact Hh]. Qed.

Lemma object_file_inj h1 h2 :
  no_sep h1 = true -> no_sep h2 = true ->
  object_file self h1 = object_file self h2 -> h1 = h2.
Proof.
  intros H1 H2. rewrite !object_file_eq by assumption.
  intros H. apply app_inv_head in H. now injection H.
Qed.

Lemma index_file_not_object :
  os_path_dirname (index_file self) <> objects_dir self.
Proof.
  intros H. pose proof (dirname_length (index_file self)) as L.
  rewrite H in L.
  destruct (self_paths r) as (R & E1 & E2). rewrite E1, E2 in L.
  rewrite !length_app in L. cbn in L. lia.
Qed.

Lemma index_file_not_objects_dir : index_file self <> objects_dir self.
Proof.
  destruct (self_paths r) as (R & -> & ->).
  intros H. apply app_inv_head in H. discriminate.
Qed.

Lemma object_file_not_index h :
  no_sep h = true -> object_file self h <> index_file self.
Proof.
  intros Hh. rewrite object_file_eq by assumption.
  destruct (self_paths r) as (R & -> & ->). rewrite <- app_assoc.
  intros H. apply app_inv_head in H. discriminate.
Qed.

Lemma object_file_not_objects_dir h :
  no_sep h = true -> object_file self h <> objects_dir self.
Proof.
  intros Hh. rewrite object_file_eq by assumption.
  intros H. apply (f_equal (@List.length N)) in H.
  rewrite length_app in H. cbn in H. lia.
Qed.

Lemma objects_dir_not_object :
  os_path_dirname (objects_dir self) <> objects_dir self.
Proof.
  destruct (objects_dir_plain r) as (c & t & Hr & Hc).
  unfold os_path_dirname, os_path_split. cbn [fst]. rewrite Hr.
  intros H. apply (f_equal (@List.length N)) in H. revert H.
  set (head := rev (drop_while (fun c => negb (is_sep c)) (c :: t))).
  assert (List.length head < List.length (objects_dir self))%nat.
  { unfold head. rewrite length_rev. cbn [drop_while]. rewrite Hc. cbn [negb].
    pose proof (drop_while_length (fun c => negb (is_sep c)) t).
    rewrite <- (length_rev (objects_dir self)), Hr. cbn. lia. }
  destruct (forallb is_sep head); [lia|].
  rewrite length_rev. pose proof (drop_while_length is_sep (rev head)).
  rewrite length_rev in *. lia.
Qed.

End Paths.
(** ** Repository states *)

Lemma bind_ok {A B} (m : M A) (k : A -> M B) w w' a :
  m w = (w', Ok a) -> bind m k w = k a w'.
Proof. intros H. unfold bind. now rewrite H. Qed.

Lemma bind_raise {A B} (m : M A) (k : A -> M B) w w' e :
  m w = (w', Raise e) -> bind m k w = (w', Raise e).
Proof. intros H. unfold bind. now rewrite H. Qed.

Lemma parent_check_ok (m : gmap str node) (p : str) :
  p <> [] -> m !! os_path_dirname p = Some Dir -> parent_check m p = Ok tt.
Proof.
  intros Hp Hd. unfold parent_check. destruct p; [congruence|].
  revert Hd. destruct (os_path_dirname (n :: p)); [reflexivity|].
  now intros ->.
Qed.

Lemma parent_check_insert (m : gmap str node) (p k : str) (n : node) :
  k <> os_path_dirname p -> parent_check (<[k := n]> m) p = parent_check m p.
Proof.
  intros Hk. unfold parent_check. destruct p; [reflexivity|].
  destruct (os_path_dirname (n0 :: p)) eqn:E; [reflexivity|].
  rewrite lookup_insert_ne; [reflexivity | assumption].
Qed.

Lemma fs_encodable_app a b :
  fs_encodable (a ++ b) = fs_encodable a && fs_encodable b.
Proof. apply forallb_app. Qed.

Opaque SHA1.hexdigest.

Section Ops.
Variable self : MiniGit.
Variable w : world.
Variable d : list (str * str).
Hypothesis OK : repo_ok self w d.

Lemma ok_object_file h :
  no_sep h = true -> object_file self h = objects_dir self ++ sep :: h.
Proof. rewrite (ok_self _ _ _ OK). apply object_file_eq. Qed.

Lemma ok_object_dirname h :
  no_sep h = true -> os_path_dirname (object_file self h) = objects_dir self.
Proof. rewrite (ok_self _ _ _ OK). apply object_file_dirname. Qed.

Lemma write_object_ok content bs h :
  utf8_encode content = Some bs -> h = SHA1.hexdigest bs ->
  write_text (object_file self h) content w
  = (World (<[object_file self h := File bs]> (fs w))
           (stdout w) (object_file self h :: wlog w), Ok tt).
Proof.
  intros Henc Hh.
  assert (Hd : is_digest h) by (rewrite Hh; apply hexdigest_is_digest).
  pose proof (digest_no_sep _ Hd) as Hns.
  unfold write_text.
  assert (fs_encodable (object_file self h) = true) as ->.
  { rewrite ok_object_file, fs_encodable_app by assumption.
    rewrite (ok_objects_enc _ _ _ OK). cbn [fs_encodable forallb].
    change (fs_char sep) with true. now apply digest_fs_encodable. }
  cbn [negb].
  assert (parent_check (fs w) (object_file self h) = Ok tt) as Hpc.
  { apply parent_check_ok.
    - rewrite ok_object_file by assumption. now destruct (objects_dir self).
    - rewrite ok_object_dirname by assumption. apply (ok_objects_dir _ _ _ OK). }
  destruct (fs w !! object_file self h) as [[|bs0]|] eqn:E.
  - destruct (ok_objects _ _ _ OK _ _ E) as (? & ? & _); [|discriminate].
    now apply ok_object_dirname.
  - rewrite Hpc, Henc. reflexivity.
  - rewrite Hpc, Henc. reflexivity.
Qed.

(** [put]: the text is hashed and written under its digest. *)
Lemma put_ok content bs :
  utf8_encode content = Some bs ->
  put self content w
  = (World (<[object_file self (SHA1.hexdigest bs) := File bs]> (fs w))
           (stdout w) (object_file self (SHA1.hexdigest bs) :: wlog w),
     Ok (SHA1.hexdigest bs)).
Proof.
  intros Henc. unfold put, _hash_object. rewrite Henc. run_ret.
  fold (object_file self (SHA1.hexdigest bs)).
  run (write_object_ok content bs _ Henc eq_refl). reflexivity.
Qed.

Lemma index_json_wf : wf_json (index_json d).
Proof.
  unfold index_json. constructor.
  - rewrite map_map. cbn [fst]. apply (ok_index_nodup _ _ _ OK).
  - apply Forall_map. pose proof (ok_index_safe _ _ _ OK) as Hs.
    pose proof (ok_refs _ _ _ OK) as Hr.
    rewrite Forall_forall in *. intros kv Hkv. cbn [fst snd]. split; [auto|].
    constructor. apply digest_json_safe. now apply Hr.
Qed.

Lemma exists_index : os_path_exists (index_file self) w = (w, Ok true).
Proof.
  unfold os_path_exists, exists_in.
  rewrite (ok_index_enc _ _ _ OK), (ok_index _ _ _ OK). reflexivity.
Qed.

Lemma read_index_text :
  read_text (index_file self) w = (w, Ok (json_dumps None (index_json d))).
Proof.
  unfold read_text. rewrite (ok_index_enc _ _ _ OK), (ok_index _ _ _ OK).
  cbn [negb]. unfold json_bytes.
  destruct (json_text_roundtrip (json_dumps None (index_json d))
              (json_encode_json_char _ _ _)) as [_ ->].
  reflexivity.
Qed.

Lemma read_index_ok : _read_index self w = (w, Ok (index_json d)).
Proof.
  unfold _read_index. run exists_index. run read_index_text.
  now rewrite json_loads_dumps by apply index_json_wf.
Qed.

Lemma write_index_ok v :
  _write_index self v w
  = (World (<[index_file self := File (json_bytes v)]> (fs w))
           (stdout w) (index_file self :: wlog w), Ok tt).
Proof.
  unfold _write_index, write_text.
  rewrite (ok_index_enc _ _ _ OK), (ok_index _ _ _ OK), (ok_index_parent _ _ _ OK).
  cbn [negb].
  destruct (json_text_roundtrip (json_dumps None v)
              (json_encode_json_char _ _ _)) as [-> _].
  reflexivity.
Qed.

End Ops.
Lemma plain_dirname_shorter p :
  plain p -> (List.length (os_path_dirname p) < List.length p)%nat.
Proof.
  intros (c & t & Hr & Hc). unfold os_path_dirname, os_path_split. cbn [fst].
  rewrite Hr. cbn [drop_while]. rewrite Hc. cbn [negb].
  set (head := rev (drop_while (fun c => negb (is_sep c)) t)).
  assert (List.length head < List.length p)%nat.
  { unfold head. rewrite length_rev.
    pose proof (drop_while_length (fun c => negb (is_sep c)) t).
    rewrite <- (length_rev p), Hr. cbn. lia. }
  destruct (forallb is_sep head); [assumption|].
  rewrite length_rev. pose proof (drop_while_length is_sep (rev head)).
  rewrite length_rev in *. lia.
Qed.

Lemma index_file_plain r : plain (index_file (new_MiniGit r)).
Proof.
  destruct (self_paths r) as (R & _ & ->). unfold plain.
  rewrite rev_app_distr. cbn. eauto.
Qed.

Lemma index_file_not_own_parent r :
  index_file (new_MiniGit r) <> os_path_dirname (index_file (new_MiniGit r)).
Proof.
  intros H. pose proof (plain_dirname_shorter _ (index_file_plain r)) as L.
  rewrite <- H in L. lia.
Qed.

Lemma object_file_not_index_parent r h :
  no_sep h = true ->
  object_file (new_MiniGit r) h <> os_path_dirname (index_file (new_MiniGit r)).
Proof.
  intros Hh H. pose proof (dirname_length (index_file (new_MiniGit r))) as L.
  rewrite <- H, object_file_eq in L by assumption.
  destruct (self_paths r) as (R & E1 & E2). rewrite E1, E2 in L.
  rewrite !length_app in L. cbn in L. lia.
Qed.

(** *** Dictionaries *)

Lemma dict_set_In_keys {V} k (v : V) d x :
  In x (map fst (dict_set k v d)) <-> x = k \/ In x (map fst d).
Proof.
  induction d as [|[k' v'] d IH]; cbn [dict_set map fst In].
  - intuition.
  - destruct (decide (k = k')) as [->|Hne]; cbn [map fst In].
    + intuition.
    + rewrite IH. intuition.
Qed.

Lemma dict_set_nodup {V} k (v : V) d :
  NoDup (map fst d) -> NoDup (map fst (dict_set k v d)).
Proof.
  induction d as [|[k' v'] d IH]; cbn [dict_set map fst]; intros H.
  - apply NoDup_singleton.
  - destruct (decide (k = k')) as [->|Hne]; [exact H|].
    cbn [map fst]. apply NoDup_cons in H as [Hnot Hd].
    apply NoDup_cons. split; [|auto].
    rewrite list_elem_of_In in *. rewrite dict_set_In_keys. intuition.
Qed.

Lemma dict_set_Forall {V} (P : str * V -> Prop) k v d :
  Forall P d -> P (k, v) -> Forall P (dict_set k v d).
Proof.
  intros Hd Hk. induction Hd as [|[k' v'] d Hx Hd IH]; cbn [dict_set].
  - constructor; [assumption | constructor].
  - destruct (decide (k = k')) as [->|Hne]; constructor; auto.
Qed.

Lemma dict_get_set_eq {V} k (v : V) d : dict_get k (dict_set k v d) = Some v.
Proof.
  induction d as [|[k' v'] d IH]; cbn [dict_set dict_get].
  - now rewrite decide_True.
  - destruct (decide (k = k')) as [->|Hne]; cbn [dict_get].
    + now rewrite decide_True.
    + now rewrite decide_False.
Qed.

Lemma dict_get_set_ne {V} k k0 (v : V) d :
  k0 <> k -> dict_get k0 (dict_set k v d) = dict_get k0 d.
Proof.
  intros Hne. induction d as [|[k' v'] d IH]; cbn [dict_set dict_get].
  - now rewrite decide_False.
  - destruct (decide (k = k')) as [->|Hne']; cbn [dict_get].
    + now rewrite !decide_False.
    + destruct (decide (k0 = k')); auto.
Qed.

Lemma index_json_set p h d :
  dict_set p (JStr h) (map (fun kv => (fst kv, JStr (snd kv))) d)
  = map (fun kv : str * str => (fst kv, JStr (snd kv))) (dict_set p h d).
Proof.
  induction d as [|[k v] d IH]; cbn [dict_set map fst snd]; [reflexivity|].
  destruct (decide (p = k)); cbn [map fst snd]; [reflexivity|]. now rewrite IH.
Qed.

(** *** What the steps keep *)

Lemma store_ok_put (self : MiniGit) (m : gmap str node)
    (d : list (str * str)) (bs : list byte) :
  store_ok self m d ->
  store_ok self (<[object_file self (SHA1.hexdigest bs) := File bs]> m) d.
Proof.
  intros OK. pose proof OK as [Hself ? ? ? ? ? ? ? Hrefs Hobjs].
  pose proof (digest_no_sep _ (hexdigest_is_digest bs)) as Hns.
  constructor; auto.
  - rewrite lookup_insert_ne; [assumption|].
    rewrite Hself. now apply object_file_not_objects_dir.
  - rewrite parent_check_insert; [assumption|].
    rewrite Hself. now apply object_file_not_index_parent.
  - rewrite lookup_insert_ne; [assumption|].
    rewrite Hself. now apply object_file_not_index.
  - eapply Forall_impl; [exact Hrefs|]. intros kv [Hd [bs' Hbs']]. split; auto.
    rewrite lookup_insert. case_decide; eauto.
  - intros k n Hk Hdir. rewrite lookup_insert in Hk. case_decide.
    + subst k. injection Hk as <-. eauto.
    + eauto.
Qed.

Lemma store_ok_stage (self : MiniGit) (m : gmap str node)
    (d : list (str * str)) (p h : str) :
  store_ok self m d ->
  json_safe p = true -> is_digest h ->
  (exists bs, m !! object_file self h = Some (File bs)) ->
  store_ok self
    (<[index_file self := File (json_bytes (index_json (dict_set p h d)))]> m)
    (dict_set p h d).
Proof.
  intros OK Hp Hh Hobj. pose proof OK as [Hself ? ? ? ? ? ? ? Hrefs Hobjs].
  constructor; auto.
  - rewrite lookup_insert_ne; [assumption|].
    rewrite Hself. apply index_file_not_objects_dir.
  - rewrite parent_check_insert; [assumption|].
    rewrite Hself. apply index_file_not_own_parent.
  - apply lookup_insert_eq.
  - now apply dict_set_nodup.
  - now apply dict_set_Forall.
  - assert (Hkeep : forall h', is_digest h' ->
              (exists bs, m !! object_file self h' = Some (File bs)) ->
              exists bs, <[index_file self :=
                             File (json_bytes (index_json (dict_set p h d)))]> m
                           !! object_file self h' = Some (File bs)).
    { intros h' Hd' Hex. rewrite lookup_insert_ne; [assumption|].
      intros E. symmetry in E. revert E. rewrite Hself.
      apply object_file_not_index. now apply digest_no_sep. }
    apply dict_set_Forall; cbn [snd].
    + eapply Forall_impl; [exact Hrefs|]. intros kv [Hd Hex]. auto.
    + auto.
  - intros k n Hk Hdir. rewrite lookup_insert in Hk. case_decide.
    + subst k. exfalso. revert Hdir. rewrite Hself. apply index_file_not_object.
    + eauto.
Qed.

Section Ops2.
Variable self : MiniGit.
Variable w : world.
Variable d : list (str * str).
Hypothesis OK : repo_ok self w d.

(** [stage]: the index is read back, updated and written. *)
Lemma stage_ok p h :
  stage self p h w
  = (World (<[index_file self := File (json_bytes (index_json (dict_set p h d)))]>
              (fs w))
           (stdout w) (index_file self :: wlog w), Ok tt).
Proof.
  unfold stage. run (read_index_ok self w d OK).
  unfold index_json at 1. cbn [setitem]. run_ret.
  rewrite index_json_set. fold (index_json (dict_set p h d)).
  apply (write_index_ok self w d OK).
Qed.

End Ops2.

Lemma exists_in_lookup (m : gmap str node) p :
  exists_in m p = true <-> fs_encodable p = true /\ is_Some (m !! p).
Proof.
  unfold exists_in. rewrite andb_true_iff, bool_decide_eq_true. tauto.
Qed.

Lemma exists_in_false (m : gmap str node) p :
  m !! p = None -> exists_in m p = false.
Proof.
  intros H. unfold exists_in. rewrite H.
  rewrite bool_decide_eq_false_2 by (intros [? ?]; discriminate).
  apply andb_false_r.
Qed.

Lemma print_eq line w :
  print line w = (World (fs w) (stdout w ++ [line]) (wlog w), Ok tt).
Proof. reflexivity. Qed.

Section Ops3.
Variable self : MiniGit.
Variable w : world.
Variable d : list (str * str).
Hypothesis OK : repo_ok self w d.

(** [add] of a readable text file: the blob is the encoded text, stored
    under its digest, and the path is staged with that digest. *)
Lemma add_ok p b s e :
  exists_in (fs w) p = true -> fs w !! p = Some (File b) ->
  decode_text b = Some s -> utf8_encode s = Some e ->
  add self p w
  = (World (<[index_file self :=
                File (json_bytes (index_json (dict_set p (SHA1.hexdigest e) d)))]>
              (<[object_file self (SHA1.hexdigest e) := File e]> (fs w)))
           (stdout w ++ [added_line p])
           (index_file self :: object_file self (SHA1.hexdigest e) :: wlog w),
     Ok VNone).
Proof.
  intros Hex Hp Hdec Henc. unfold add.
  unfold bind at 1. unfold os_path_exists at 1. rewrite Hex. cbn [negb].
  assert (Hread : read_text p w = (w, Ok s)).
  { unfold read_text. apply exists_in_lookup in Hex as [-> _].
    cbn [negb]. now rewrite Hp, Hdec. }
  run Hread. run (put_ok self w d OK s e Henc).
  match goal with |- bind _ _ ?w1 = _ =>
    assert (OK1 : repo_ok self w1 d) by (now apply store_ok_put);
    run (stage_ok self w1 d OK1 p (SHA1.hexdigest e))
  end.
  reflexivity.
Qed.

Lemma add_keeps_ok p b s e :
  exists_in (fs w) p = true -> fs w !! p = Some (File b) ->
  decode_text b = Some s -> utf8_encode s = Some e ->
  repo_ok self (fst (add self p w)) (dict_set p (SHA1.hexdigest e) d).
Proof.
  intros Hex Hp Hdec Henc. rewrite (add_ok p b s e) by assumption. cbn [fst].
  apply store_ok_stage.
  - now apply store_ok_put.
  - apply fs_encodable_json_safe. now apply exists_in_lookup in Hex.
  - apply hexdigest_is_digest.
  - rewrite lookup_insert_eq. eauto.
Qed.

Lemma commit_data_encode message :
  utf8_encode (commit_data message d) = Some (commit_bytes message d).
Proof. apply json_text_roundtrip, json_encode_json_char. Qed.

Lemma commit_empty message :
  d = [] ->
  commit self message w
  = (World (fs w) (stdout w ++ [lit "No changes to commit."]) (wlog w), Ok VNone).
Proof.
  intros ->. unfold commit. run (read_index_ok self w [] OK). reflexivity.
Qed.

Lemma commit_ok message :
  d <> [] ->
  commit self message w
  = (World (<[object_file self (commit_id message d) := File (commit_bytes message d)]>
              (fs w))
           (stdout w ++ [lit "Committed with message: " ++ message;
                         lit "Commit hash: " ++ commit_id message d])
           (object_file self (commit_id message d) :: wlog w),
     Ok VNone).
Proof.
  intros Hd. unfold commit. run (read_index_ok self w d OK).
  assert (truthy (index_json d) = true) as ->
    by (destruct d; [congruence | reflexivity]).
  cbn [negb]. cbv zeta. fold (commit_data message d).
  run (put_ok self w d OK _ _ (commit_data_encode message)).
  unfold bind, print, ret. cbn [fs stdout wlog]. rewrite <- app_assoc.
  reflexivity.
Qed.

End Ops3.
(** ** Directories *)

Lemma hierarchical_parent (m : gmap str node) (k : str) (n : node) :
  hierarchical m -> m !! k = Some n -> parent_check m k = Ok tt.
Proof.
  unfold hierarchical, hierarchicalb. rewrite forallb_forall. intros H Hk.
  specialize (H (k, n)). cbn [fst] in H.
  destruct (parent_check m k) as [[]|]; [reflexivity|].
  discriminate H. apply list_elem_of_In. now apply elem_of_map_to_list.
Qed.

Lemma grows_refl (bound : nat) (m : gmap str node) : grows bound m m.
Proof. intros k. now left. Qed.

Lemma grows_trans (b1 b2 : nat) (m1 m2 m3 : gmap str node) :
  grows b1 m1 m2 -> grows b2 m2 m3 -> grows (Nat.max b1 b2) m1 m3.
Proof.
  intros H12 H23 k. destruct (H12 k) as [E1|(N1 & D1 & L1)],
    (H23 k) as [E2|(N2 & D2 & L2)].
  - left. congruence.
  - right. rewrite <- E1. repeat split; auto. lia.
  - right. rewrite E2. repeat split; auto. lia.
  - congruence.
Qed.

Lemma grows_le (b1 b2 : nat) (m m' : gmap str node) :
  (b1 <= b2)%nat -> grows b1 m m' -> grows b2 m m'.
Proof. intros L H k. destruct (H k) as [?|(? & ? & ?)]; [now left|right]. repeat split; auto. lia. Qed.

Lemma mkdir_cases (name : str) (m m' : gmap str node) (r : result unit) :
  mkdir name m = (m', r) ->
  (r = Ok tt /\ fs_encodable name = true /\ m !! name = None
   /\ parent_check m name = Ok tt /\ m' = <[name := Dir]> m)
  \/ ((exists e, r = Raise e) /\ m' = m).
Proof.
  unfold mkdir. destruct (fs_encodable name); cbn [negb].
  - destruct (m !! name) eqn:E.
    + intros [= <- <-]. right. eauto.
    + destruct (parent_check m name) as [[]|e] eqn:P; intros [= <- <-].
      * left. auto.
      * right. eauto.
  - intros [= <- <-]. right. eauto.
Qed.

Lemma mkdir_grows (name : str) (m m' : gmap str node) (r : result unit) :
  mkdir name m = (m', r) -> grows (List.length name) m m'.
Proof.
  intros H. apply mkdir_cases in H as [(_ & _ & Hn & _ & ->)|(_ & ->)].
  - intros k. rewrite lookup_insert. case_decide.
    + subst k. right. auto.
    + now left.
  - apply grows_refl.
Qed.

Lemma mkdir_exists (name : str) (m m' : gmap str node) (r : result unit) (n : node) :
  m !! name = Some n -> mkdir name m = (m', r) -> exists e, r = Raise e.
Proof.
  intros Hn H. apply mkdir_cases in H as [(_ & _ & Hnone & _)|((e & ->) & _)].
  - congruence.
  - eauto.
Qed.

Lemma split2_length name : (List.length (fst (split2 name)) <= List.length name)%nat.
Proof.
  unfold split2. pose proof (dirname_length name) as L1.
  unfold os_path_dirname in L1.
  destruct (os_path_split name) as [head0 tail0]. cbn [fst] in L1.
  destruct tail0; [|assumption].
  pose proof (dirname_length head0) as L2. unfold os_path_dirname in L2. lia.
Qed.

Lemma makedirs_eq (fuel : nat) (name : str) (m : gmap str node) :
  makedirs fuel name m
  = let '(head, tail) := split2 name in
    match head, tail, exists_in m head with
    | _ :: _, _ :: _, false =>
        match fuel with
        | O => (m, Raise Unmodelled)
        | S fuel' =>
            match makedirs fuel' head m with
            | (m1, Ok _) | (m1, Raise FileExistsError) =>
                if decide (tail = lit ".") then (m1, Ok tt) else mkdir name m1
            | (m1, Raise e) => (m1, Raise e)
            end
        end
    | _, _, _ => mkdir name m
    end.
Proof.
  unfold split2. destruct fuel; cbn [makedirs];
    destruct (os_path_split name) as [head0 [|c tail0]]; reflexivity.
Qed.

Lemma makedirs_grows (fuel : nat) :
  forall (name : str) (m m' : gmap str node) (r : result unit),
    makedirs fuel name m = (m', r) -> grows (List.length name) m m'.
Proof.
  induction fuel as [|fuel IH]; intros name m m' r; rewrite makedirs_eq;
    pose proof (split2_length name) as L;
    destruct (split2 name) as [[|c head] [|c' tail]]; cbn [fst] in L;
    try apply mkdir_grows;
    (destruct (exists_in m (c :: head)); [apply mkdir_grows|]).
  - intros [= <- <-]. apply grows_refl.
  - destruct (makedirs fuel (c :: head) m) as [m1 r1] eqn:E.
    apply IH in E. apply (grows_le _ (List.length name)) in E; [|assumption].
    assert (Hmk : forall m' r, mkdir name m1 = (m', r) ->
                               grows (List.length name) m m').
    { intros m2 r2 H2. apply mkdir_grows in H2.
      pose proof (grows_trans _ _ _ _ _ E H2) as G.
      now rewrite Nat.max_id in G. }
    destruct r1 as [[]|[]]; try (intros [= <- <-]; exact E);
      (destruct (decide _); [intros [= <- <-]; exact E | apply Hmk]).
Qed.

(** When the leaf exists already, [os.makedirs] raises (the [exist_ok=False]
    default), unless the leaf is spelt ["."]. *)
Lemma makedirs_exists (fuel : nat) (name : str) (m m' : gmap str node)
    (r : result unit) (n : node) :
  m !! name = Some n -> snd (split2 name) <> lit "." ->
  makedirs fuel name m = (m', r) -> exists e, r = Raise e.
Proof.
  intros Hn Ht. rewrite makedirs_eq.
  pose proof (split2_length name) as L.
  destruct (split2 name) as [head tail]. cbn [fst snd] in *.
  assert (Hmk : forall m1 m' r, grows (List.length name) m m1 ->
                  mkdir name m1 = (m', r) -> exists e, r = Raise e).
  { intros m1 m2 r2 G H2. destruct (G name) as [E|(N & _)]; [|congruence].
    rewrite <- E in Hn. eapply mkdir_exists; eauto. }
  destruct head as [|c head], tail as [|c' tail];
    try (apply (Hmk m); apply grows_refl).
  destruct (exists_in m (c :: head)); [apply (Hmk m); apply grows_refl|].
  destruct fuel as [|fuel]; [intros [= <- <-]; eauto|].
  destruct (makedirs fuel (c :: head) m) as [m1 r1] eqn:E.
  apply makedirs_grows in E.
  apply (grows_le _ (List.length name)) in E; [|assumption].
  destruct r1 as [[]|[]]; try (intros [= <- <-]; eauto);
    (destruct (decide _); [congruence | now apply Hmk]).
Qed.

(** A successful call leaves the leaf as a directory that was not there. *)
Lemma makedirs_created (fuel : nat) (name : str) (m m' : gmap str node) :
  snd (split2 name) <> lit "." ->
  makedirs fuel name m = (m', Ok tt) ->
  m' !! name = Some Dir /\ fs_encodable name = true /\ m !! name = None.
Proof.
  intros Ht. rewrite makedirs_eq.
  pose proof (split2_length name) as L.
  destruct (split2 name) as [head tail]. cbn [fst snd] in *.
  assert (Hmk : forall m1, grows (List.length name) m m1 ->
                  mkdir name m1 = (m', Ok tt) ->
                  m' !! name = Some Dir /\ fs_encodable name = true
                  /\ m !! name = None).
  { intros m1 G H2.
    apply mkdir_cases in H2 as [(_ & He & Hn & _ & ->)|((e & [=]) & _)].
    rewrite lookup_insert_eq. repeat split; auto.
    destruct (G name) as [E|(N & _)]; congruence. }
  destruct head as [|c head], tail as [|c' tail];
    try (apply (Hmk m); apply grows_refl).
  destruct (exists_in m (c :: head)); [apply (Hmk m); apply grows_refl|].
  destruct fuel as [|fuel]; [intros [=]|].
  destruct (makedirs fuel (c :: head) m) as [m1 r1] eqn:E.
  apply makedirs_grows in E.
  apply (grows_le _ (List.length name)) in E; [|assumption].
  destruct r1 as [[]|[]];
    first [ destruct (decide _);
            [congruence | intros H2; apply (Hmk m1); assumption]
          | intros [=] ].
Qed.

Lemma self_paths_shape (r : str) :
  exists R,
    objects_dir (new_MiniGit r) = R ++ lit "objects"
    /\ index_file (new_MiniGit r) = R ++ lit "index"
    /\ (R = [] \/ ends_with_sep R = true)
    /\ (List.length r <= List.length R)%nat.
Proof.
  unfold new_MiniGit. cbn [objects_dir index_file]. unfold os_path_join.
  change (lit "objects") with (111%N :: lit "bjects").
  change (lit "index") with (105%N :: lit "ndex").
  change (is_sep 111) with false. change (is_sep 105) with false. cbv iota.
  destruct r as [|a r]; [exists []; cbn; auto|].
  destruct (ends_with_sep (a :: r)) eqn:E.
  - exists (a :: r). auto.
  - exists ((a :: r) ++ [sep]). rewrite <- !app_assoc. repeat split; auto.
    + right. unfold ends_with_sep. rewrite rev_app_distr. reflexivity.
    + rewrite length_app. lia.
Qed.

Lemma split_tail (R t : str) :
  R = [] \/ ends_with_sep R = true -> no_sep t = true ->
  snd (os_path_split (R ++ t)) = t.
Proof.
  intros HR Ht. unfold os_path_split. cbn [snd]. rewrite rev_app_distr.
  destruct HR as [-> | HR].
  - cbn [rev]. rewrite app_nil_r, take_while_all, rev_involutive; auto.
    now rewrite forallb_rev.
  - unfold ends_with_sep in HR. destruct (rev R) as [|c R'] eqn:E; [discriminate|].
    rewrite take_while_app, rev_involutive; auto.
    + now rewrite forallb_rev.
    + now rewrite HR.
Qed.

Lemma objects_dir_tail (r : str) :
  snd (split2 (objects_dir (new_MiniGit r))) <> lit ".".
Proof.
  destruct (self_paths_shape r) as (R & E & _ & HR & _). rewrite E.
  unfold split2. pose proof (split_tail R (lit "objects") HR eq_refl) as Ht.
  destruct (os_path_split (R ++ lit "objects")) as [h t]. cbn [snd] in Ht.
  subst t. cbn. discriminate.
Qed.

Lemma repo_dir_shorter (r : str) :
  (List.length r < List.length (objects_dir (new_MiniGit r)))%nat.
Proof.
  destruct (self_paths_shape r) as (R & -> & _ & _ & L).
  rewrite length_app. cbn. lia.
Qed.

Lemma drop_while_notsep_head (l : str) :
  drop_while (fun c => negb (is_sep c)) l = []
  \/ exists x, drop_while (fun c => negb (is_sep c)) l = sep :: x.
Proof.
  induction l as [|a l IH]; cbn; [auto|].
  destruct (is_sep a) eqn:Ea; cbn; [|exact IH].
  right. exists l. f_equal. unfold is_sep in Ea. lia.
Qed.

Lemma dirname_plain_shorter (k d : str) :
  os_path_dirname k = d -> plain d -> (List.length d < List.length k)%nat.
Proof.
  intros <- (c & t & Hr & Hc). revert Hr.
  unfold os_path_dirname, os_path_split. cbn [fst].
  set (dw := drop_while (fun c => negb (is_sep c)) (rev k)).
  assert (Hdw : (List.length dw <= List.length k)%nat).
  { unfold dw. etransitivity; [apply drop_while_length|]. now rewrite length_rev. }
  assert (Hhd : dw = [] \/ exists x, dw = sep :: x)
    by apply drop_while_notsep_head.
  destruct (forallb is_sep (rev dw)) eqn:Eall.
  - intros Hr. rewrite rev_involutive in Hr.
    rewrite forallb_rev in Eall. rewrite Hr in Eall. cbn in Eall.
    rewrite Hc in Eall. discriminate.
  - intros _. rewrite length_rev, rev_involutive.
    destruct Hhd as [-> | [x Hx]]; [discriminate|].
    rewrite Hx in *. cbn [drop_while]. change (is_sep sep) with true. cbv iota.
    pose proof (drop_while_length is_sep x). cbn in Hdw. lia.
Qed.

(** Directories that appear at paths no longer than the objects directory
    leave the repository as it is. *)
Lemma store_ok_grows (self : MiniGit) (m m' : gmap str node) (d : list (str * str)) :
  store_ok self m d -> grows (List.length (objects_dir self)) m m' ->
  store_ok self m' d.
Proof.
  intros [Hself ? Hod ? Hpar Hidx ? ? Hrefs Hobjs] G.
  assert (Hkeep : forall k n, m !! k = Some n -> m' !! k = Some n).
  { intros k n Hk. destruct (G k) as [E|(N & _)]; congruence. }
  constructor; auto.
  - revert Hpar. unfold parent_check. destruct (index_file self); [auto|].
    destruct (os_path_dirname (n :: l)) eqn:E; [auto|].
    destruct (m !! (n0 :: l0)) as [[|]|] eqn:E'; try discriminate.
    now rewrite (Hkeep _ _ E').
  - eapply Forall_impl; [exact Hrefs|]. intros kv [Hd [bs Hbs]]. eauto.
  - intros k n Hk Hdir. destruct (G k) as [E|(N & D & L)].
    + rewrite E in Hk. eauto.
    + exfalso. apply dirname_plain_shorter in Hdir; [lia|].
      rewrite Hself. apply objects_dir_plain.
Qed.

Lemma os_makedirs_eq (name : str) (w : world) :
  os_makedirs name w
  = (World (fst (makedirs (List.length name) name (fs w))) (stdout w) (wlog w),
     snd (makedirs (List.length name) name (fs w))).
Proof. unfold os_makedirs. now destruct (makedirs _ _ _). Qed.

(** On an initialised repository the block stops with an exception before
    it reaches the index. *)
Lemma setup_keeps (self : MiniGit) (w : world) (d : list (str * str)) :
  repo_ok self w d ->
  repo_ok self (fst (setup self w)) d /\ exists e, snd (setup self w) = Raise e.
Proof.
  intros OK. pose proof OK as [Hself _ Hod _ _ _ _ _ _ _].
  unfold setup, bind. rewrite os_makedirs_eq.
  destruct (makedirs _ (repo_dir self) (fs w)) as [m1 r1] eqn:E1. cbn [fst snd].
  pose proof (makedirs_grows _ _ _ _ _ E1) as G1.
  apply (grows_le _ (List.length (objects_dir self))) in G1;
    [| rewrite Hself; apply Nat.lt_le_incl, repo_dir_shorter].
  pose proof (store_ok_grows _ _ _ _ OK G1) as OK1.
  destruct r1 as [[]|e]; [|cbn [fst snd]; split; eauto].
  rewrite os_makedirs_eq. cbn [fs stdout wlog].
  destruct (makedirs _ (objects_dir self) m1) as [m2 r2] eqn:E2. cbn [fst snd].
  pose proof (makedirs_grows _ _ _ _ _ E2) as G2.
  pose proof (store_ok_grows _ _ _ _ OK1 G2) as OK2.
  eapply makedirs_exists in E2 as [e ->];
    [| apply (ok_objects_dir _ _ _ OK1) | rewrite Hself; apply objects_dir_tail].
  cbn [fst snd]. split; eauto.
Qed.

Lemma bind_assoc {A B C} (m : M A) (f : A -> M B) (g : B -> M C) (w : world) :
  bind (bind m f) g w = bind m (fun x => bind (f x) g) w.
Proof. unfold bind. destruct (m w) as [w' [a|e]]; reflexivity. Qed.

Lemma bind_fst_raise {A B} (m : M A) (k : A -> M B) (w : world) e :
  snd (m w) = Raise e -> bind m k w = (fst (m w), Raise e).
Proof. unfold bind. destruct (m w) as [w' [a|e']]; cbn; congruence. Qed.

Lemma init_eq (self : MiniGit) (w : world) :
  init self w
  = if exists_in (fs w) (repo_dir self)
    then (World (fs w) (stdout w ++ [lit "Repository already initialized."])
                (wlog w), Ok VNone)
    else bind (setup self)
              (fun _ => print (initialized_line (repo_dir self)) ;; ret VNone) w.
Proof.
  unfold init. unfold bind at 1. unfold os_path_exists.
  destruct (exists_in (fs w) (repo_dir self)); [reflexivity|].
  unfold setup, bind.
  destruct (os_makedirs (repo_dir self) w) as [w1 [[]|e]]; [|reflexivity].
  destruct (os_makedirs (objects_dir self) w1) as [w2 [[]|e]]; [|reflexivity].
  destruct (_write_index self (JObj []) w2) as [w3 [[]|e]]; reflexivity.
Qed.

Lemma construct_eq (r : str) (w : world) :
  __init__ r w
  = if exists_in (fs w) r
    then (World (fs w) (stdout w ++ [initialized_line r]) (wlog w),
          Ok (new_MiniGit r))
    else bind (setup (new_MiniGit r))
              (fun _ => print (initialized_line r) ;; ret (new_MiniGit r)) w.
Proof.
  unfold __init__. unfold bind at 1. unfold os_path_exists.
  destruct (exists_in (fs w) r); [reflexivity|].
  unfold setup, bind. cbn [repo_dir objects_dir new_MiniGit].
  destruct (os_makedirs r w) as [w1 [[]|e]]; [|reflexivity].
  destruct (os_makedirs _ w1) as [w2 [[]|e]]; [|reflexivity].
  destruct (_write_index _ (JObj []) w2) as [w3 [[]|e]]; reflexivity.
Qed.

Lemma init_keeps (self : MiniGit) (w : world) (d : list (str * str)) :
  repo_ok self w d -> repo_ok self (fst (init self w)) d.
Proof.
  intros OK. rewrite init_eq. destruct (exists_in _ _); [exact OK|].
  destruct (setup_keeps self w d OK) as [OK' [e He]].
  now rewrite (bind_fst_raise _ _ _ _ He).
Qed.

Lemma construct_keeps (self : MiniGit) (w : world) (d : list (str * str)) :
  repo_ok self w d -> repo_ok self (fst (__init__ (repo_dir self) w)) d.
Proof.
  intros OK. rewrite construct_eq. destruct (exists_in _ _); [exact OK|].
  rewrite <- (ok_self _ _ _ OK).
  destruct (setup_keeps self w d OK) as [OK' [e He]].
  now rewrite (bind_fst_raise _ _ _ _ He).
Qed.

Lemma parent_check_inv (m : gmap str node) (k : str) :
  parent_check m k = Ok tt ->
  os_path_dirname k = [] \/ m !! os_path_dirname k = Some Dir.
Proof.
  unfold parent_check. destruct k as [|c k]; [discriminate|].
  destruct (os_path_dirname (c :: k)) as [|c' k'] eqn:E; [auto|].
  destruct (m !! (c' :: k')) as [[|]|]; try discriminate. auto.
Qed.

Lemma plain_nonempty (d : str) : plain d -> d <> [].
Proof. intros (c & t & Hr & _) ->. discriminate. Qed.

(** Creating a repository where there was none. *)
Lemma construct_fresh (r : str) (w0 w1 : world) (self : MiniGit) :
  hierarchical (fs w0) -> exists_in (fs w0) r = false ->
  __init__ r w0 = (w1, Ok self) ->
  self = new_MiniGit r /\ repo_ok self w1 [].
Proof.
  intros Hier Hex. rewrite construct_eq, Hex.
  unfold setup, bind. change (repo_dir (new_MiniGit r)) with r.
  rewrite os_makedirs_eq.
  destruct (makedirs _ r (fs w0)) as [m1 r1] eqn:E1. cbn [fst snd].
  destruct r1 as [[]|e]; [|discriminate].
  rewrite os_makedirs_eq. cbn [fs stdout wlog].
  destruct (makedirs _ (objects_dir (new_MiniGit r)) m1) as [m2 r2] eqn:E2.
  cbn [fst snd]. destruct r2 as [[]|e]; [|discriminate].
  pose proof (makedirs_grows _ _ _ _ _ E1) as G1.
  pose proof (makedirs_grows _ _ _ _ _ E2) as G2.
  apply makedirs_created in E2 as (Hod & Henc & Hnone); [|apply objects_dir_tail].
  unfold _write_index, write_text. cbn [fs stdout wlog].
  destruct (fs_encodable (index_file (new_MiniGit r))) eqn:Hie;
    cbn [negb]; [|discriminate].
  destruct (json_text_roundtrip (json_dumps None (JObj []))
              (json_encode_json_char _ _ _)) as [Hjenc _].
  rewrite Hjenc.
  destruct (parent_check m2 (index_file (new_MiniGit r))) as [[]|e] eqn:Hpc.
  2:{ destruct (m2 !! index_file (new_MiniGit r)) as [[|]|]; discriminate. }
  assert (Hnd : m2 !! index_file (new_MiniGit r) <> Some Dir ->
            w1 = World (<[index_file (new_MiniGit r) :=
                            File (json_bytes (index_json []))]> m2)
                       (stdout w0 ++ [initialized_line r])
                       (index_file (new_MiniGit r) :: wlog w0)
            /\ self = new_MiniGit r ->
            self = new_MiniGit r /\ repo_ok self w1 []).
  { intros Hnd [-> ->]. split; [reflexivity|]. unfold repo_ok. cbn [fs].
    constructor; auto.
    - rewrite lookup_insert_ne; [assumption | apply index_file_not_objects_dir].
    - rewrite parent_check_insert; [assumption | apply index_file_not_own_parent].
    - apply lookup_insert_eq.
    - constructor.
    - intros k n Hk Hdir. exfalso.
      rewrite lookup_insert in Hk. case_decide.
      + subst k. revert Hdir. apply index_file_not_object.
      + pose proof (dirname_plain_shorter _ _ Hdir (objects_dir_plain r)) as L.
        pose proof (repo_dir_shorter r) as L'.
        destruct (G2 k) as [Ek|(_ & _ & L2)]; [|lia].
        destruct (G1 k) as [Ek1|(_ & _ & L1)]; [|lia].
        rewrite Ek, Ek1 in Hk.
        pose proof (hierarchical_parent _ _ _ Hier Hk) as Hp.
        apply parent_check_inv in Hp. rewrite Hdir in Hp.
        destruct Hp as [Hp|Hp].
        * now apply (plain_nonempty _ (objects_dir_plain r)).
        * destruct (G1 (objects_dir (new_MiniGit r))) as [Ek2|(Hn0 & _)];
            congruence. }
  destruct (m2 !! index_file (new_MiniGit r)) as [[|bs0]|] eqn:Hi.
  - discriminate.
  - intros [= <- <-]. apply Hnd; [discriminate | split; reflexivity].
  - intros [= <- <-]. apply Hnd; [discriminate | split; reflexivity].
Qed.

(** ** Decoded text can be encoded again *)

Lemma utf8_encode_char_Some c bs : utf8_encode_char c = Some bs -> scalar c = true.
Proof.
  unfold utf8_encode_char, scalar, is_surrogate.
  repeat match goal with
         | |- context [if ?b then _ else _] => destruct b eqn:?
         end; intros [=]; lia.
Qed.

Lemma utf8_encode_Some s bs : utf8_encode s = Some bs -> forallb scalar s = true.
Proof.
  revert bs. induction s as [|c s IH]; intros bs; cbn; [reflexivity|].
  destruct (utf8_encode_char c) eqn:Ec; [|discriminate].
  destruct (utf8_encode s) eqn:Es; [|discriminate]. intros _.
  now rewrite (utf8_encode_char_Some _ _ Ec), (IH _ eq_refl).
Qed.

Lemma decode_text_encodable b s :
  decode_text b = Some s -> exists e, utf8_encode s = Some e.
Proof.
  unfold decode_text. destruct (utf8_decode b) as [s0|] eqn:E; [|discriminate].
  intros [= <-]. apply utf8_encode_scalar, universal_newlines_scalar.
  eapply utf8_encode_Some, utf8_decode_encode, E.
Qed.

(** ** Sequences of operations *)

Lemma store_ok_edit (self : MiniGit) (m : gmap str node) (d : list (str * str))
    (p : str) (data : list byte) :
  store_ok self m d ->
  p <> index_file self -> os_path_dirname p <> objects_dir self ->
  m !! p <> Some Dir -> parent_check m p = Ok tt ->
  store_ok self (<[p := File data]> m) d.
Proof.
  intros OK Hpi Hpo Hnd Hpc. pose proof OK as [Hself ? Hod ? Hpar Hidx ? ? Hrefs Hobjs].
  constructor; auto.
  - rewrite lookup_insert_ne; [assumption | congruence].
  - rewrite parent_check_insert; [assumption|].
    intros ->. apply parent_check_inv in Hpar as [E|E]; [|congruence].
    rewrite E in Hpc. discriminate.
  - rewrite lookup_insert_ne; [assumption | congruence].
  - eapply Forall_impl; [exact Hrefs|]. intros kv [Hd [bs Hbs]]. split; auto.
    exists bs. rewrite lookup_insert_ne; [assumption|].
    intros ->. apply Hpo. rewrite Hself. apply object_file_dirname.
    now apply digest_no_sep.
  - intros k n Hk Hdir. rewrite lookup_insert in Hk. case_decide.
    + subst k. contradiction.
    + eauto.
Qed.

Lemma add_missing (self : MiniGit) (p : str) (w : world) :
  exists_in (fs w) p = false ->
  add self p w
  = (World (fs w) (stdout w ++ [missing_line p]) (wlog w), Ok VNone).
Proof.
  intros H. unfold add. unfold bind at 1. unfold os_path_exists. now rewrite H.
Qed.

Lemma add_keeps (self : MiniGit) (p : str) (w : world) (d : list (str * str)) :
  repo_ok self w d -> exists d', repo_ok self (fst (add self p w)) d'.
Proof.
  intros OK. destruct (exists_in (fs w) p) eqn:Hex.
  2:{ rewrite add_missing by assumption. now exists d. }
  pose proof Hex as Hex'. apply exists_in_lookup in Hex' as [Henc [n Hn]].
  destruct n as [|b].
  { exists d. unfold add. unfold bind at 1. unfold os_path_exists. rewrite Hex.
    cbn [negb]. unfold bind at 1. unfold read_text. rewrite Henc, Hn. exact OK. }
  destruct (decode_text b) as [s|] eqn:Hdec.
  - destruct (decode_text_encodable _ _ Hdec) as [e He].
    eexists. eapply add_keeps_ok; eauto.
  - exists d. unfold add. unfold bind at 1. unfold os_path_exists. rewrite Hex.
    cbn [negb]. unfold bind at 1. unfold read_text. rewrite Henc, Hn, Hdec. exact OK.
Qed.

Lemma commit_keeps (self : MiniGit) (message : str) (w : world) (d : list (str * str)) :
  repo_ok self w d -> repo_ok self (fst (commit self message w)) d.
Proof.
  intros OK. destruct d as [|kv d].
  - now rewrite (commit_empty self w [] OK).
  - rewrite (commit_ok self w _ OK) by discriminate. cbn [fst].
    now apply store_ok_put.
Qed.

(** Every reachable world is an initialised repository. *)
Theorem reachable_ok (self : MiniGit) (w : world) :
  reachable self w -> exists d, repo_ok self w d.
Proof.
  induction 1 as [w0 w1 Hier Hex Hc | w o Hr [d OK] Hal].
  - exists []. eapply construct_fresh; eauto.
  - destruct o as [| |p|message|p data]; cbn [exec].
    + exists d. now apply construct_keeps.
    + exists d. now apply init_keeps.
    + now apply (add_keeps self p w d).
    + exists d. now apply commit_keeps.
    + exists d. destruct Hal as (_ & ? & ? & ? & ?). now apply store_ok_edit.
Qed.

(** ** Frames: what a write leaves alone *)

Lemma write_text_frame (p s : str) (w : world) (k : str) :
  k <> p -> fs (fst (write_text p s w)) !! k = fs w !! k.
Proof.
  intros Hk. unfold write_text.
  destruct (fs_encodable p); cbn [negb]; [|reflexivity].
  assert (H : forall bs,
    fs (World (<[p := File bs]> (fs w)) (stdout w) (p :: wlog w)) !! k = fs w !! k)
    by (intros bs; cbn [fs]; rewrite lookup_insert_ne; [reflexivity | congruence]).
  destruct (fs w !! p) as [[|b]|]; [reflexivity| |];
    (destruct (parent_check (fs w) p); [|reflexivity]);
    (destruct (utf8_encode s); cbn [fst]; apply H).
Qed.

Lemma put_frame (self : MiniGit) (content : str) (w : world) (k : str) :
  (forall h, is_digest h -> k <> object_file self h) ->
  fs (fst (put self content w)) !! k = fs w !! k.
Proof.
  intros Hk. unfold put, _hash_object, bind.
  destruct (utf8_encode content) as [bs|]; [|reflexivity].
  unfold ret at 1. cbv beta iota.
  fold (object_file self (SHA1.hexdigest bs)).
  pose proof (write_text_frame (object_file self (SHA1.hexdigest bs)) content w k
                (Hk _ (hexdigest_is_digest bs))) as H.
  destruct (write_text _ content w) as [w' [[]|e]]; exact H.
Qed.

Lemma read_index_eq (self : MiniGit) (w : world) :
  _read_index self w
  = (w, if fs_encodable (index_file self)
        then match fs w !! index_file self with
             | Some Dir => Raise IsADirectoryError
             | Some (File b) =>
                 match decode_text b with
                 | Some text => json_loads text
                 | None => Raise UnicodeDecodeError
                 end
             | None => Ok (JObj [])
             end
        else Ok (JObj [])).
Proof.
  unfold _read_index, bind, os_path_exists, exists_in, read_text.
  destruct (fs_encodable (index_file self)); cbn [andb negb]; [|reflexivity].
  destruct (fs w !! index_file self) as [[|b]|] eqn:E.
  - rewrite bool_decide_eq_true_2 by eauto. now rewrite E.
  - rewrite bool_decide_eq_true_2 by eauto. rewrite E.
    destruct (decode_text b); [|reflexivity].
    destruct (json_loads l); reflexivity.
  - rewrite bool_decide_eq_false_2 by (intros [? ?]; discriminate). reflexivity.
Qed.

Lemma read_index_congr (self : MiniGit) (w w' : world) :
  fs w' !! index_file self = fs w !! index_file self ->
  snd (_read_index self w') = snd (_read_index self w).
Proof. intros H. rewrite !read_index_eq. cbn [snd]. now rewrite H. Qed.

Lemma read_index_pure (self : MiniGit) (w : world) : fst (_read_index self w) = w.
Proof. now rewrite read_index_eq. Qed.

Lemma commit_frame (self : MiniGit) (message : str) (w : world) (k : str) :
  (forall h, is_digest h -> k <> object_file self h) ->
  fs (fst (commit self message w)) !! k = fs w !! k.
Proof.
  intros Hk. unfold commit. unfold bind at 1.
  pose proof (read_index_pure self w) as Hp.
  destruct (_read_index self w) as [w' [index|e]]; cbn [fst] in Hp; subst w';
    [|reflexivity].
  destruct (truthy index); cbn [negb]; [|reflexivity].
  cbv zeta. unfold bind at 1.
  pose proof (put_frame self (json_dumps (Some 4%nat) (commit_record message index))
                w k Hk) as H.
  destruct (put self _ w) as [w1 [h|e]]; cbn [fst] in H; [|exact H].
  exact H.
Qed.

(** ** A small working tree *)

Lemma ex_w1_reachable : reachable ex_self ex_w1.
Proof.
  apply (reach_new ex_self ex_w0); [vm_compute; reflexivity ..|].
  unfold ex_w1. vm_compute. reflexivity.
Qed.

Lemma ex_w1_ok : repo_ok ex_self ex_w1 [].
Proof.
  apply (construct_fresh ex_repo ex_w0); [vm_compute; reflexivity ..|].
  unfold ex_w1. vm_compute. reflexivity.
Qed.

Lemma ex_wa_ok : repo_ok ex_self ex_wa [(lit "a.txt", id_hello)].
Proof.
  apply (add_keeps_ok ex_self ex_w1 [] ex_w1_ok (lit "a.txt")
           (bytes_of_string "hello") (lit "hello")); vm_compute; reflexivity.
Qed.

Lemma ex_wab_ok :
  repo_ok ex_self ex_wab [(lit "a.txt", id_hello); (lit "b.txt", id_hello)].
Proof.
  apply (add_keeps_ok ex_self ex_wa _ ex_wa_ok (lit "b.txt")
           (bytes_of_string "hello") (lit "hello")); vm_compute; reflexivity.
Qed.

Lemma ex_wabc_ok :
  repo_ok ex_self ex_wabc
    [(lit "a.txt", id_hello); (lit "b.txt", id_hello); (lit "crlf.txt", id_a_nl)].
Proof.
  apply (add_keeps_ok ex_self ex_wab _ ex_wab_ok (lit "crlf.txt")
           [x61; x0d; x0a] [97; 10]%N); vm_compute; reflexivity.
Qed.

(** ** The inputs the statements are about *)

Example canonical_vectors :
  map canonical [lit "a.txt"; lit ".minigit/index"; lit "a/b/c"]
  = [true; true; true]
  /\ map canonical [lit "./a.txt"; lit "/a"; lit "a//b"; lit "a/"; [];
                    lit "../x"; lit "a/./b"; lit "."]
     = [false; false; false; false; false; false; false; false].
Proof. vm_compute. split; reflexivity. Qed.

Lemma printable_json_safe (s : str) : printable s = true -> json_safe s = true.
Proof.
  unfold printable, json_safe. rewrite !forallb_forall. intros H c Hc.
  specialize (H c Hc). unfold scalar, is_surrogate in H.
  unfold json_safe_char, is_high_surrogate. lia.
Qed.

(** ** Encoded text decodes to itself *)

Lemma in_range_byte (lo hi n : N) :
  (n < 256)%N ->
  in_range lo hi (byte_of_N n) = ((lo <=? n) && (n <=? hi))%N.
Proof. intros Hn. unfold in_range. now rewrite to_N_byte_of_N. Qed.

Lemma cont_byte (n : N) : (n < 256)%N -> cont (byte_of_N n) = (n - 0x80)%N.
Proof. intros Hn. unfold cont. now rewrite to_N_byte_of_N. Qed.

Lemma utf8_decode_char (c : N) (bs rest : list byte) :
  utf8_encode_char c = Some bs ->
  utf8_decode (bs ++ rest) = cons c <$> utf8_decode rest.
Proof.
  unfold utf8_encode_char.
  destruct (N.ltb_spec c 0x80).
  { intros [= <-]. cbn [app utf8_decode].
    rewrite in_range_byte, to_N_byte_of_N by lia. decide_ifs. reflexivity. }
  destruct (N.ltb_spec c 0x800).
  { intros [= <-]. cbn [app utf8_decode].
    rewrite !in_range_byte, !cont_byte, !to_N_byte_of_N by lia.
    decide_ifs; same_char c. }
  destruct (N.ltb_spec c 0x10000).
  { destruct (is_surrogate c) eqn:Hs; [discriminate|]. unfold is_surrogate in Hs.
    intros [= <-]. cbn [app utf8_decode].
    rewrite !in_range_byte, !cont_byte, !to_N_byte_of_N by lia.
    decide_ifs; same_char c. }
  destruct (N.ltb_spec c 0x110000); [|discriminate].
  intros [= <-]. cbn [app utf8_decode].
  rewrite !in_range_byte, !cont_byte, !to_N_byte_of_N by lia.
  decide_ifs; same_char c.
Qed.

Lemma utf8_encode_decode (s : str) (bs : list byte) :
  utf8_encode s = Some bs -> utf8_decode bs = Some s.
Proof.
  revert bs. induction s as [|c s IH]; intros bs H.
  - injection H as <-. reflexivity.
  - cbn [utf8_encode] in H.
    destruct (utf8_encode_char c) as [cb|] eqn:Hc; [|discriminate].
    destruct (utf8_encode s) as [rest|] eqn:Hs; [|discriminate].
    injection H as <-. rewrite (utf8_decode_char _ _ _ Hc), (IH _ eq_refl).
    reflexivity.
Qed.

(** ** The claims *)

(** C1, as stated, fails: on a repository whose index holds one entry,
    [commit] does not return a ContentId; the call returns [None]. *)
Lemma commit_returns_none :
  repo_ok ex_self ex_wa [(lit "a.txt", id_hello)]
  /\ snd (commit ex_self (lit "msg") ex_wa) = Ok VNone
  /\ ~ (exists h, snd (commit ex_self (lit "msg") ex_wa) = Ok (VStr h)).
Proof.
  split; [exact ex_wa_ok|].
  assert (H : snd (commit ex_self (lit "msg") ex_wa) = Ok VNone)
    by (vm_compute; reflexivity).
  split; [exact H|]. intros [h Hh]. rewrite H in Hh. discriminate.
Qed.

(** C1, as amended: in every initialised repository whose index holds [d],
    for a printable message, [commit message] returns [None] and reports on
    standard output. When [d]
    is not empty it stores the serialised commit record (UTF-8 of
    [json.dumps({message, files: index}, indent=4)]) under the SHA-1 hex
    digest of those bytes and prints that digest after ["Commit hash: "];
    nothing else of the filesystem changes. When [d] is empty it prints
    ["No changes to commit."], writes no file and prints no hash. *)
Theorem commit_reports (self : MiniGit) (w : world) (d : list (str * str))
    (message : str) :
  repo_ok self w d ->
  printable message = true ->
  (d <> [] ->
   commit self message w
   = (World (<[object_file self (commit_id message d) :=
                 File (commit_bytes message d)]> (fs w))
            (stdout w ++ [lit "Committed with message: " ++ message;
                          lit "Commit hash: " ++ commit_id message d])
            (object_file self (commit_id message d) :: wlog w),
      Ok VNone)
   /\ utf8_encode (commit_data message d) = Some (commit_bytes message d)
   /\ commit_id message d = SHA1.hexdigest (commit_bytes message d))
  /\ (d = [] ->
      commit self message w
      = (World (fs w) (stdout w ++ [lit "No changes to commit."]) (wlog w),
         Ok VNone)).
Proof.
  intros OK _. split.
  - intros Hd. split; [now apply (commit_ok self w d OK)|]. split; [|reflexivity].
    apply json_text_roundtrip, json_encode_json_char.
  - intros Hd. now apply (commit_empty self w d OK).
Qed.

Lemma commit_reports_witness :
  repo_ok ex_self ex_wa [(lit "a.txt", id_hello)]
  /\ printable (lit "msg") = true
  /\ snd (commit ex_self (lit "msg") ex_wa) = Ok VNone
  /\ snd (commit ex_self (lit "msg") ex_w1) = Ok VNone.
Proof.
  split; [exact ex_wa_ok|]. split; [reflexivity|]. split.
  - destruct (commit_reports ex_self ex_wa _ (lit "msg") ex_wa_ok eq_refl) as [H _].
    destruct (H ltac:(discriminate)) as [-> _]. reflexivity.
  - destruct (commit_reports ex_self ex_w1 _ (lit "msg") ex_w1_ok eq_refl) as [_ H].
    rewrite (H eq_refl). reflexivity.
Defined.

(** C2, as stated, fails: [add] of a missing path returns no error value;
    it returns [None], exactly what a successful [add] returns. *)
Lemma add_missing_returns_none :
  exists_in (fs ex_w1) (lit "does-not-exist.txt") = false
  /\ snd (add ex_self (lit "does-not-exist.txt") ex_w1) = Ok VNone
  /\ snd (add ex_self (lit "a.txt") ex_w1) = Ok VNone.
Proof. vm_compute. repeat split. Qed.

(** C2, as amended: for every printable path, given in its canonical
    spelling, that [os.path.exists] does not find, [add path] prints ["File <path> does not exist."], returns [None] and
    leaves the filesystem as it was: object store (contents and count), index
    and write log are unchanged. *)
Theorem add_missing_file (self : MiniGit) (p : str) (w : world) :
  canonical p = true -> printable p = true ->
  exists_in (fs w) p = false ->
  add self p w = (World (fs w) (stdout w ++ [missing_line p]) (wlog w), Ok VNone)
  /\ objects self (fst (add self p w)) = objects self w
  /\ object_count self (fst (add self p w)) = object_count self w
  /\ _read_index self (fst (add self p w))
     = (fst (add self p w), snd (_read_index self w)).
Proof.
  intros _ _ H. rewrite (add_missing self p w H). cbn [fst].
  repeat split. rewrite !read_index_eq. reflexivity.
Qed.

Lemma add_missing_file_witness :
  canonical (lit "does-not-exist.txt") = true
  /\ printable (lit "does-not-exist.txt") = true
  /\ exists_in (fs ex_w1) (lit "does-not-exist.txt") = false
  /\ fs (fst (add ex_self (lit "does-not-exist.txt") ex_w1)) = fs ex_w1.
Proof.
  assert (H : exists_in (fs ex_w1) (lit "does-not-exist.txt") = false)
    by (vm_compute; reflexivity).
  split; [reflexivity|]. split; [reflexivity|]. split; [exact H|].
  destruct (add_missing_file ex_self (lit "does-not-exist.txt") ex_w1
              eq_refl eq_refl H) as [-> _].
  reflexivity.
Defined.

(** C9: for every repository root, every world and every message, [commit]
    leaves the index file as it was, so reading the index afterwards gives
    what it gave before. *)
Theorem commit_keeps_index (r : str) (message : str) (w : world) :
  fs (fst (commit (new_MiniGit r) message w)) !! index_file (new_MiniGit r)
  = fs w !! index_file (new_MiniGit r)
  /\ snd (_read_index (new_MiniGit r) (fst (commit (new_MiniGit r) message w)))
     = snd (_read_index (new_MiniGit r) w).
Proof.
  assert (H : fs (fst (commit (new_MiniGit r) message w)) !! index_file (new_MiniGit r)
              = fs w !! index_file (new_MiniGit r)).
  { apply commit_frame. intros h Hh E. symmetry in E. revert E.
    apply object_file_not_index. now apply digest_no_sep. }
  split; [exact H | now apply read_index_congr].
Qed.

(** C5, as stated, fails: storing content whose object exists does not
    skip the write; the object file is opened for writing once more. *)
Lemma put_writes_again :
  fs ex_wa !! object_file ex_self id_hello = Some (File (bytes_of_string "hello"))
  /\ snd (put ex_self (lit "hello") ex_wa) = Ok id_hello
  /\ wlog (fst (put ex_self (lit "hello") ex_wa))
     = object_file ex_self id_hello :: wlog ex_wa.
Proof. vm_compute. repeat split. Qed.

(** C5, as amended: when the objects directory already holds the encoded
    content under its digest, storing that content again opens the object
    file for writing and writes the same bytes (the write is not skipped);
    the digest returned is the same, and the filesystem, the object store
    and the object count are what they were. *)
Theorem put_existing (self : MiniGit) (w : world) (d : list (str * str))
    (content : str) (bs : list byte) :
  repo_ok self w d ->
  utf8_encode content = Some bs ->
  fs w !! object_file self (SHA1.hexdigest bs) = Some (File bs) ->
  put self content w
  = (World (fs w) (stdout w) (object_file self (SHA1.hexdigest bs) :: wlog w),
     Ok (SHA1.hexdigest bs))
  /\ objects self (fst (put self content w)) = objects self w
  /\ object_count self (fst (put self content w)) = object_count self w.
Proof.
  intros OK Henc Hobj. rewrite (put_ok self w d OK content bs Henc).
  rewrite (insert_id _ _ _ Hobj). cbn [fst]. repeat split.
Qed.

Lemma put_existing_witness :
  repo_ok ex_self ex_wa [(lit "a.txt", id_hello)]
  /\ fs (fst (put ex_self (lit "hello") ex_wa)) = fs ex_wa.
Proof.
  split; [exact ex_wa_ok|].
  destruct (put_existing ex_self ex_wa _ (lit "hello") (bytes_of_string "hello")
              ex_wa_ok) as [-> _]; [vm_compute; reflexivity ..|].
  reflexivity.
Defined.

(** C7, as stated, fails: the hasher takes text and encodes it first; on a
    string with a lone surrogate the encoding raises. *)
Lemma hash_object_lone_surrogate :
  _hash_object [0xD800%N] ex_w0 = (ex_w0, Raise UnicodeEncodeError).
Proof. vm_compute. reflexivity. Qed.

(** The strings the program hashes are made of scalar values: the decoded
    content of a file, and the text [json.dumps] writes. *)
Lemma decode_text_scalar b s : decode_text b = Some s -> forallb scalar s = true.
Proof.
  intros H. destruct (decode_text_encodable _ _ H) as [e He].
  eapply utf8_encode_Some, He.
Qed.

Lemma json_dumps_scalar indent v : forallb scalar (json_dumps indent v) = true.
Proof.
  pose proof (json_encode_json_char indent v 0) as H. unfold json_dumps.
  rewrite forallb_forall in *. intros c Hc. specialize (H c Hc).
  unfold json_char in H. unfold scalar, is_surrogate. lia.
Qed.

(** C7, as amended: on every text made of Unicode scalar values (no
    surrogate code point) [_hash_object] succeeds, changes nothing, and
    returns the SHA-1 digest of the UTF-8 bytes as forty lower-case
    hexadecimal digits; any text with the same bytes, in any world, gets the
    same digest; the empty text gets the digest of the empty message. *)
Theorem hash_object_total (data : str) (w : world) :
  forallb scalar data = true ->
  exists bs,
    utf8_encode data = Some bs
    /\ _hash_object data w = (w, Ok (SHA1.hexdigest bs))
    /\ is_digest (SHA1.hexdigest bs)
    /\ (forall data' w', utf8_encode data' = Some bs ->
                         _hash_object data' w' = (w', Ok (SHA1.hexdigest bs)))
    /\ (data = [] ->
        SHA1.hexdigest bs = lit "da39a3ee5e6b4b0d3255bfef95601890afd80709").
Proof.
  intros H. destruct (utf8_encode_scalar data H) as [bs Hbs]. exists bs.
  split; [exact Hbs|]. split; [unfold _hash_object; now rewrite Hbs|].
  split; [apply hexdigest_is_digest|]. split.
  - intros data' w' H'. unfold _hash_object. now rewrite H'.
  - intros ->. cbn in Hbs. injection Hbs as <-. apply sha1_empty.
Qed.

Lemma hash_object_total_witness :
  forallb scalar (lit "abc") = true
  /\ _hash_object (lit "abc") ex_w0
     = (ex_w0, Ok (lit "a9993e364706816aba3e25717850c26c9cd0d89d")).
Proof.
  assert (H : forallb scalar (lit "abc") = true) by (vm_compute; reflexivity).
  split; [exact H|].
  destruct (hash_object_total (lit "abc") ex_w0 H) as (bs & Hbs & -> & _).
  vm_compute in Hbs. injection Hbs as <-. vm_compute. reflexivity.
Defined.

(** C10: [add] works on the file's content decoded as text, for a file
    given by a printable path in its canonical spelling. When the bytes of
    the file are not the UTF-8 encoding of any text, [add] raises
    [UnicodeDecodeError] (an exception, not a returned value) and changes
    nothing. When they are the UTF-8 encoding of a text [t], the bytes hashed
    and the blob stored are the UTF-8 encoding of [t] with its line endings
    translated, and the path is staged with the digest of those bytes. *)
Theorem add_decodes_text (self : MiniGit) (w : world) (d : list (str * str))
    (p : str) (b : list byte) :
  repo_ok self w d ->
  canonical p = true -> printable p = true ->
  exists_in (fs w) p = true -> fs w !! p = Some (File b) ->
  ((forall t, utf8_encode t <> Some b) ->
   add self p w = (w, Raise UnicodeDecodeError))
  /\ (forall t, utf8_encode t = Some b ->
      exists e,
        utf8_encode (universal_newlines t) = Some e
        /\ add self p w
           = (World (<[index_file self :=
                         File (json_bytes
                                 (index_json (dict_set p (SHA1.hexdigest e) d)))]>
                       (<[object_file self (SHA1.hexdigest e) := File e]> (fs w)))
                    (stdout w ++ [lit "Added file " ++ p ++ lit " to the index."])
                    (index_file self :: object_file self (SHA1.hexdigest e) :: wlog w),
              Ok VNone)).
Proof.
  intros OK _ _ Hex Hp. split.
  - intros Hno.
    assert (Hdec : decode_text b = None).
    { unfold decode_text. destruct (utf8_decode b) as [t|] eqn:E; [|reflexivity].
      exfalso. apply (Hno t). now apply utf8_decode_encode. }
    unfold add. unfold bind at 1. unfold os_path_exists.
    rewrite Hex. cbn [negb]. unfold bind at 1. unfold read_text.
    apply exists_in_lookup in Hex as [-> _]. cbn [negb]. now rewrite Hp, Hdec.
  - intros t Ht.
    assert (Hdec : decode_text b = Some (universal_newlines t)).
    { unfold decode_text. now rewrite (utf8_encode_decode _ _ Ht). }
    destruct (decode_text_encodable _ _ Hdec) as [e He].
    exists e. split; [exact He|].
    exact (add_ok self w d OK p b (universal_newlines t) e Hex Hp Hdec He).
Qed.

Lemma add_decodes_text_witness :
  repo_ok ex_self ex_w1 []
  /\ add ex_self (lit "bin.dat") ex_w1 = (ex_w1, Raise UnicodeDecodeError)
  /\ snd (add ex_self (lit "crlf.txt") ex_w1) = Ok VNone
  /\ fs (fst (add ex_self (lit "crlf.txt") ex_w1)) !! object_file ex_self id_a_nl
     = Some (File [x61; x0a]).
Proof.
  split; [exact ex_w1_ok|]. split.
  - destruct (add_decodes_text ex_self ex_w1 [] (lit "bin.dat") [xff] ex_w1_ok)
      as [H _]; [vm_compute; reflexivity ..|].
    apply H. intros t Ht. apply utf8_encode_decode in Ht.
    vm_compute in Ht. discriminate.
  - destruct (add_decodes_text ex_self ex_w1 [] (lit "crlf.txt") [x61; x0d; x0a]
                ex_w1_ok) as [_ H]; [vm_compute; reflexivity ..|].
    destruct (H [97; 13; 10]%N) as (e & He & E); [vm_compute; reflexivity|].
    vm_compute in He. injection He as <-. rewrite E. cbn [fst snd fs].
    split; [reflexivity|].
    rewrite lookup_insert_ne by (intros X; vm_compute in X; discriminate).
    apply lookup_insert_eq.
Defined.

Lemma utf8_encode_In_cr (s : str) (bs : list byte) :
  utf8_encode s = Some bs -> In 13%N s -> In x0d bs.
Proof.
  revert bs. induction s as [|c s IH]; intros bs H Hin; [destruct Hin|].
  cbn [utf8_encode] in H.
  destruct (utf8_encode_char c) as [cb|] eqn:Hc; [|discriminate].
  destruct (utf8_encode s) as [rest|] eqn:Hs; [|discriminate].
  injection H as <-. apply in_or_app. destruct Hin as [->|Hin].
  - left. vm_compute in Hc. injection Hc as <-. now left.
  - right. now apply IH.
Qed.

Lemma decode_text_no_cr (b : list byte) (s : str) :
  decode_text b = Some s -> ~ In x0d b -> utf8_encode s = Some b.
Proof.
  unfold decode_text. intros H Hcr.
  destruct (utf8_decode b) as [t|] eqn:Ht; [|discriminate].
  injection H as <-. pose proof (utf8_decode_encode _ _ Ht) as He.
  rewrite universal_newlines_id; [exact He|].
  intros Hin. apply Hcr. eapply utf8_encode_In_cr; eauto.
Qed.

(** C3, as stated, fails for the bytes of a file: [add] stores the text it
    read, so a file holding a carriage return and a line feed is stored as a
    line feed alone, and reading back the object staged for it gives other
    bytes than the file's; a text with a lone surrogate cannot be stored. *)
Lemma get_after_add_alters_crlf :
  fs ex_wab !! lit "crlf.txt" = Some (File [x61; x0d; x0a])
  /\ snd (_read_index ex_self ex_wabc)
     = Ok (index_json [(lit "a.txt", id_hello); (lit "b.txt", id_hello);
                       (lit "crlf.txt", id_a_nl)])
  /\ get ex_self id_a_nl ex_wabc = (ex_wabc, Ok [x61; x0a])
  /\ snd (put ex_self [0xD800%N] ex_w1) = Raise UnicodeEncodeError.
Proof. vm_compute. repeat split. Qed.

(** C3, as amended: in an initialised repository, storing a text whose UTF-8
    encoding is [bs] returns the digest of [bs], and reading that digest back
    returns [bs] exactly; reading an identifier under which the objects
    directory holds nothing fails with [ObjectNotFound]; and when the text was
    decoded from file bytes that hold no carriage return, [bs] is those file
    bytes. *)
Theorem store_round_trip (self : MiniGit) (w : world) (d : list (str * str))
    (content : str) (bs : list byte) :
  repo_ok self w d ->
  utf8_encode content = Some bs ->
  snd (put self content w) = Ok (SHA1.hexdigest bs)
  /\ get self (SHA1.hexdigest bs) (fst (put self content w))
     = (fst (put self content w), Ok bs)
  /\ (forall id, fs w !! object_file self id = None ->
                 get self id w = (w, Raise ObjectNotFound))
  /\ (forall b, decode_text b = Some content -> ~ In x0d b -> bs = b).
Proof.
  intros OK Henc. rewrite (put_ok self w d OK content bs Henc). cbn [fst snd].
  split; [reflexivity|]. split; [|split].
  - unfold get. cbn [fs]. fold (object_file self (SHA1.hexdigest bs)).
    now rewrite lookup_insert_eq.
  - intros id Hid. unfold get. fold (object_file self id). now rewrite Hid.
  - intros b Hdec Hcr. pose proof (decode_text_no_cr _ _ Hdec Hcr) as H.
    congruence.
Qed.

Lemma store_round_trip_witness :
  repo_ok ex_self ex_w1 []
  /\ get ex_self id_hello (fst (put ex_self (lit "hello") ex_w1))
     = (fst (put ex_self (lit "hello") ex_w1), Ok (bytes_of_string "hello")).
Proof.
  split; [exact ex_w1_ok|].
  destruct (store_round_trip ex_self ex_w1 [] (lit "hello") (bytes_of_string "hello")
              ex_w1_ok) as (_ & H & _); [vm_compute; reflexivity|].
  exact H.
Defined.

(** C8, as stated, fails: two files with the same content share one
    identifier, so after the first path is staged again with another
    identifier the old one is still in the index, under the second path. *)
Lemma stage_keeps_shared_id :
  snd (_read_index ex_self ex_wab)
  = Ok (index_json [(lit "a.txt", id_hello); (lit "b.txt", id_hello)])
  /\ snd (_read_index ex_self
            (fst (stage ex_self (lit "a.txt") id_a_nl
                    (fst (stage ex_self (lit "a.txt") id_hello ex_wab)))))
     = Ok (index_json [(lit "a.txt", id_a_nl); (lit "b.txt", id_hello)])
  /\ dict_get (lit "b.txt") [(lit "a.txt", id_a_nl); (lit "b.txt", id_hello)]
     = Some id_hello.
Proof. vm_compute. repeat split. Qed.

(** C8, as amended: in an initialised repository with index [d], staging
    path [p] with identifier [A] and then with [B] (both naming stored
    objects) leaves an index that maps [p] to [B] and every other path to
    what [d] mapped it to; [A] stays in the index only where it equals [B]
    or where another path already held it; the object of [A] is untouched. *)
Theorem stage_overwrite (self : MiniGit) (w : world) (d : list (str * str))
    (p A B : str) (a b : list byte) :
  repo_ok self w d ->
  json_safe p = true -> is_digest A -> is_digest B ->
  fs w !! object_file self A = Some (File a) ->
  fs w !! object_file self B = Some (File b) ->
  let w2 := fst (stage self p B (fst (stage self p A w))) in
  let d2 := dict_set p B (dict_set p A d) in
  repo_ok self w2 d2
  /\ _read_index self w2 = (w2, Ok (index_json d2))
  /\ dict_get p d2 = Some B
  /\ (forall q, q <> p -> dict_get q d2 = dict_get q d)
  /\ (forall q, dict_get q d2 = Some A -> A = B \/ (q <> p /\ dict_get q d = Some A))
  /\ fs w2 !! object_file self A = Some (File a).
Proof.
  intros OK Hp HA HB Ha Hb w2 d2.
  assert (OK1 : repo_ok self (fst (stage self p A w)) (dict_set p A d)).
  { rewrite (stage_ok self w d OK). apply store_ok_stage; eauto. }
  assert (Hb1 : fs (fst (stage self p A w)) !! object_file self B = Some (File b)).
  { rewrite (stage_ok self w d OK). cbn [fst fs].
    rewrite lookup_insert_ne; [exact Hb|].
    intros E. symmetry in E. revert E. rewrite (ok_self _ _ _ OK).
    apply object_file_not_index, digest_no_sep, HB. }
  assert (OK2 : repo_ok self w2 d2).
  { unfold w2. rewrite (stage_ok self _ _ OK1). apply store_ok_stage; eauto. }
  split; [exact OK2|]. split; [apply (read_index_ok self w2 d2 OK2)|].
  split; [apply dict_get_set_eq|]. split; [|split].
  - intros q Hq. unfold d2. now rewrite !dict_get_set_ne.
  - intros q Hq. destruct (decide (q = p)) as [->|Hne].
    + left. unfold d2 in Hq. rewrite dict_get_set_eq in Hq. congruence.
    + right. split; [exact Hne|]. unfold d2 in Hq.
      now rewrite !dict_get_set_ne in Hq.
  - unfold w2. rewrite (stage_ok self _ _ OK1). cbn [fst fs].
    rewrite (stage_ok self w d OK). cbn [fst fs].
    rewrite !lookup_insert_ne; [exact Ha| |];
      (intros E; symmetry in E; revert E; rewrite (ok_self _ _ _ OK);
       apply object_file_not_index, digest_no_sep, HA).
Qed.

Lemma stage_overwrite_witness :
  repo_ok ex_self ex_wabc
    [(lit "a.txt", id_hello); (lit "b.txt", id_hello); (lit "crlf.txt", id_a_nl)]
  /\ _read_index ex_self
       (fst (stage ex_self (lit "a.txt") id_a_nl
               (fst (stage ex_self (lit "a.txt") id_hello ex_wabc))))
     = (fst (stage ex_self (lit "a.txt") id_a_nl
               (fst (stage ex_self (lit "a.txt") id_hello ex_wabc))),
        Ok (index_json [(lit "a.txt", id_a_nl); (lit "b.txt", id_hello);
                        (lit "crlf.txt", id_a_nl)])).
Proof.
  split; [exact ex_wabc_ok|].
  destruct (stage_overwrite ex_self ex_wabc _ (lit "a.txt") id_hello id_a_nl
              (bytes_of_string "hello") [x61; x0a] ex_wabc_ok)
    as (_ & H & _);
    [vm_compute; reflexivity | apply hexdigest_is_digest | apply hexdigest_is_digest
     | vm_compute; reflexivity | vm_compute; reflexivity |].
  exact H.
Defined.





(** What [add] does to the filesystem of an initialised repository: nothing,
    or one object and the index are written. *)
Lemma add_fs (self : MiniGit) (p : str) (w : world) (d : list (str * str)) :
  repo_ok self w d ->
  fs (fst (add self p w)) = fs w
  \/ exists e,
       fs (fst (add self p w))
       = <[index_file self :=
             File (json_bytes (index_json (dict_set p (SHA1.hexdigest e) d)))]>
           (<[object_file self (SHA1.hexdigest e) := File e]> (fs w)).
Proof.
  intros OK. destruct (exists_in (fs w) p) eqn:Hex.
  2:{ rewrite add_missing by assumption. now left. }
  pose proof Hex as Hex'. apply exists_in_lookup in Hex' as [Henc [n Hn]].
  destruct n as [|b].
  { left. unfold add. unfold bind at 1. unfold os_path_exists. rewrite Hex.
    cbn [negb]. unfold bind at 1. unfold read_text. now rewrite Henc, Hn. }
  destruct (decode_text b) as [s|] eqn:Hdec.
  - destruct (decode_text_encodable _ _ Hdec) as [e He].
    right. exists e. now rewrite (add_ok self w d OK p b s e).
  - left. unfold add. unfold bind at 1. unfold os_path_exists. rewrite Hex.
    cbn [negb]. unfold bind at 1. unfold read_text. now rewrite Henc, Hn, Hdec.
Qed.









Lemma ref_present (self : MiniGit) (m : gmap str node) (d : list (str * str))
    (p h : str) :
  store_ok self m d -> In (p, h) d ->
  exists bs, m !! object_file self h = Some (File bs)
             /\ os_path_dirname (object_file self h) = objects_dir self
             /\ SHA1.hexdigest bs = h.
Proof.
  intros OK Hin. pose proof (ok_refs _ _ _ OK) as Hr.
  rewrite List.Forall_forall in Hr. destruct (Hr _ Hin) as [Hd [bs Hbs]]. cbn [snd] in *.
  assert (Hdir : os_path_dirname (object_file self h) = objects_dir self).
  { rewrite (ok_self _ _ _ OK). apply object_file_dirname, digest_no_sep, Hd. }
  exists bs. split; [exact Hbs|]. split; [exact Hdir|].
  destruct (ok_objects _ _ _ OK _ _ Hbs Hdir) as (bs0 & [= <-] & E).
  rewrite (ok_self _ _ _ OK) in E. apply object_file_inj in E;
    [congruence | apply digest_no_sep; auto using hexdigest_is_digest ..].
Qed.



(** A path that ends in [t] is neither the index file nor an object. *)
Lemma txt_path_free (self : MiniGit) (q : str) :
  self = new_MiniGit (repo_dir self) ->
  q ++ [116%N] <> index_file self
  /\ forall h, is_digest h -> q ++ [116%N] <> object_file self h.
Proof.
  intros Hself. split.
  - rewrite Hself. destruct (self_paths (repo_dir self)) as (R & _ & ->).
    change (lit "index") with (lit "inde" ++ [120%N]). rewrite app_assoc.
    intros E. apply app_inj_tail in E as [_ E]. discriminate.
  - intros h Hd E. rewrite Hself in E.
    rewrite object_file_eq in E by now apply digest_no_sep.
    destruct Hd as [Hlen Hhex].
    destruct (exists_last (l := h)) as (h' & c & ->);
      [intros ->; discriminate|].
    rewrite forallb_app in Hhex. apply andb_true_iff in Hhex as [_ Hc].
    cbn in Hc. rewrite andb_true_r in Hc.
    change (objects_dir (new_MiniGit (repo_dir self)) ++ sep :: h' ++ [c])
      with (objects_dir (new_MiniGit (repo_dir self)) ++ (sep :: h') ++ [c]) in E.
    rewrite app_assoc in E. apply app_inj_tail in E as [_ <-]. discriminate.
Qed.

Lemma dict_set_nonempty {V} (k : str) (v : V) (d : list (str * V)) :
  dict_set k v d <> [].
Proof.
  intros E. pose proof (dict_get_set_eq k v d) as H. rewrite E in H. discriminate.
Qed.

Lemma commit_record_wf (self : MiniGit) (w : world) (d : list (str * str))
    (message : str) :
  repo_ok self w d -> json_safe message = true ->
  wf_json (commit_record message (index_json d)).
Proof.
  intros OK Hm. unfold commit_record. constructor.
  - cbn [map fst]. constructor; [|apply NoDup_singleton].
    intros H%list_elem_of_singleton. vm_compute in H. discriminate.
  - constructor; [split; [reflexivity | constructor; exact Hm]|].
    constructor; [split; [reflexivity | apply (index_json_wf self w d OK)]|].
    constructor.
Qed.

(** The stored commit object reads back as the record it was made from. *)
Lemma commit_bytes_read (self : MiniGit) (w : world) (d : list (str * str))
    (message : str) :
  repo_ok self w d -> json_safe message = true ->
  decode_text (commit_bytes message d) = Some (commit_data message d)
  /\ json_loads (commit_data message d)
     = Ok (commit_record message (index_json d)).
Proof.
  intros OK Hm. split.
  - unfold commit_bytes.
    apply (json_text_roundtrip _ (json_encode_json_char _ _ _)).
  - unfold commit_data. apply json_loads_dumps.
    now apply (commit_record_wf self w d).
Qed.

(** After an [add] that stored a text, a file of the working tree whose name
    ends in [t] is what it was. *)
Lemma add_keeps_txt (self : MiniGit) (w : world) (d : list (str * str))
    (p : str) (b : list byte) (s : str) (e : list byte) (q : str) (n : node) :
  repo_ok self w d ->
  exists_in (fs w) p = true -> fs w !! p = Some (File b) ->
  decode_text b = Some s -> utf8_encode s = Some e ->
  fs w !! (q ++ [116%N]) = Some n ->
  fs (fst (add self p w)) !! (q ++ [116%N]) = Some n.
Proof.
  intros OK Hex Hp Hdec Henc Hq.
  rewrite (add_ok self w d OK p b s e Hex Hp Hdec Henc). cbn [fst fs].
  destruct (txt_path_free self q (ok_self _ _ _ OK)) as [Hi Ho].
  rewrite lookup_insert_ne by (intros E; now apply Hi).
  rewrite lookup_insert_ne; [exact Hq|].
  intros E. symmetry in E. revert E. apply Ho, hexdigest_is_digest.
Qed.

(** C4, as stated, fails: [commit] returns no hash. After the two [add]
    calls, which return [None] as well, it returns [None]; the hash of the
    commit is only printed. *)
Lemma commit_snapshot_returns_none :
  snd (add ex_self (lit "a.txt") ex_w1) = Ok VNone
  /\ snd (add ex_self (lit "b.txt") ex_wa) = Ok VNone
  /\ snd (commit ex_self (lit "msg") ex_wab) = Ok VNone
  /\ stdout (fst (commit ex_self (lit "msg") ex_wab))
     = stdout ex_wab
       ++ [lit "Committed with message: msg";
           lit "Commit hash: a33ec7e6ed74b4dc5ef591203ece884d22210c9c"].
Proof. vm_compute. repeat split. Qed.

(** C4, as amended: in an initialised repository with index [d], where
    [a.txt] and [b.txt] are text files, [add] of the one, [add] of the other
    and [commit] with a printable message all return [None], and they leave,
    under the commit hash that is printed, an object that decodes and parses
    to the record with the given message and, as files, the index with
    [a.txt] and [b.txt] set to the identifiers the two [add] calls got from
    the store; when [d] was empty these are its two entries. *)
Theorem commit_snapshot (self : MiniGit) (w : world) (d : list (str * str))
    (ba bb : list byte) (sa sb : str) (ea eb : list byte) (message : str) :
  repo_ok self w d ->
  fs w !! lit "a.txt" = Some (File ba) -> fs w !! lit "b.txt" = Some (File bb) ->
  decode_text ba = Some sa -> decode_text bb = Some sb ->
  utf8_encode sa = Some ea -> utf8_encode sb = Some eb ->
  printable message = true ->
  let id_a := SHA1.hexdigest ea in
  let id_b := SHA1.hexdigest eb in
  let wa := fst (add self (lit "a.txt") w) in
  let wb := fst (add self (lit "b.txt") wa) in
  let wc := fst (commit self message wb) in
  let d2 := dict_set (lit "b.txt") id_b (dict_set (lit "a.txt") id_a d) in
  snd (add self (lit "a.txt") w) = Ok VNone
  /\ snd (add self (lit "b.txt") wa) = Ok VNone
  /\ snd (commit self message wb) = Ok VNone
  /\ snd (put self sa w) = Ok id_a
  /\ snd (put self sb wa) = Ok id_b
  /\ snd (_read_index self wb) = Ok (index_json d2)
  /\ (d = [] -> d2 = [(lit "a.txt", id_a); (lit "b.txt", id_b)])
  /\ stdout wc = stdout wb ++ [lit "Committed with message: " ++ message;
                               lit "Commit hash: " ++ commit_id message d2]
  /\ fs wc !! object_file self (commit_id message d2)
     = Some (File (commit_bytes message d2))
  /\ exists text,
       decode_text (commit_bytes message d2) = Some text
       /\ json_loads text = Ok (commit_record message (index_json d2)).
Proof.
  intros OK Ha Hb Hda Hdb Hea Heb Hpr id_a id_b wa wb wc d2.
  pose proof (printable_json_safe _ Hpr) as Hm.
  assert (Hxa : exists_in (fs w) (lit "a.txt") = true).
  { apply exists_in_lookup. split; [reflexivity | eauto]. }
  pose proof (add_keeps_ok self w d OK _ _ _ _ Hxa Ha Hda Hea) as OKa.
  fold id_a wa in OKa.
  assert (Hb' : fs wa !! lit "b.txt" = Some (File bb)).
  { change (lit "b.txt") with (lit "b.tx" ++ [116%N]).
    apply (add_keeps_txt self w d _ _ _ _ _ _ OK Hxa Ha Hda Hea). exact Hb. }
  assert (Hxb : exists_in (fs wa) (lit "b.txt") = true).
  { apply exists_in_lookup. split; [reflexivity | eauto]. }
  pose proof (add_keeps_ok self wa _ OKa _ _ _ _ Hxb Hb' Hdb Heb) as OKb.
  fold id_b wb d2 in OKb.
  assert (Hne : d2 <> []) by apply dict_set_nonempty.
  split; [now rewrite (add_ok self w d OK _ _ _ _ Hxa Ha Hda Hea)|].
  split; [now rewrite (add_ok self wa _ OKa _ _ _ _ Hxb Hb' Hdb Heb)|].
  split; [now rewrite (commit_ok self wb d2 OKb message Hne)|].
  split; [now rewrite (put_ok self w d OK sa ea Hea)|].
  split; [now rewrite (put_ok self wa _ OKa sb eb Heb)|].
  split; [now rewrite (read_index_ok self wb d2 OKb)|].
  split; [intros ->; reflexivity|].
  unfold wc. rewrite (commit_ok self wb d2 OKb message Hne). cbn [fst stdout fs].
  split; [reflexivity|]. split; [apply lookup_insert_eq|].
  exists (commit_data message d2). now apply (commit_bytes_read self wb d2).
Qed.

Lemma commit_snapshot_witness :
  repo_ok ex_self ex_w1 []
  /\ stdout (fst (commit ex_self (lit "msg") ex_wab))
     = stdout ex_wab
       ++ [lit "Committed with message: msg";
           lit "Commit hash: a33ec7e6ed74b4dc5ef591203ece884d22210c9c"]
  /\ json_loads (commit_data (lit "msg")
                   [(lit "a.txt", id_hello); (lit "b.txt", id_hello)])
     = Ok (commit_record (lit "msg")
             (index_json [(lit "a.txt", id_hello); (lit "b.txt", id_hello)])).
Proof.
  split; [exact ex_w1_ok|].
  destruct (commit_snapshot ex_self ex_w1 [] (bytes_of_string "hello")
              (bytes_of_string "hello") (lit "hello") (lit "hello")
              (bytes_of_string "hello") (bytes_of_string "hello") (lit "msg")
              ex_w1_ok)
    as (_ & _ & _ & _ & _ & _ & _ & Hout & _ & text & Hdec & Hload);
    [vm_compute; reflexivity ..|].
  split; [vm_compute; reflexivity|].
  vm_compute in Hdec. injection Hdec as <-. vm_compute. reflexivity.
Defined.

(** * Further properties of the operations *)

(** ** Creating a repository *)

Lemma simple_plain (r : str) : r <> [] -> no_sep r = true -> plain r.
Proof.
  intros Hne Hns. destruct (exists_last Hne) as (q & c & ->).
  exists c, (rev q). rewrite rev_app_distr. split; [reflexivity|].
  unfold no_sep in Hns. rewrite forallb_app in Hns.
  apply andb_true_iff in Hns as [_ Hc]. cbn in Hc.
  now destruct (is_sep c).
Qed.

Lemma split_simple (r : str) : no_sep r = true -> os_path_split r = ([], r).
Proof.
  intros Hns. unfold os_path_split.
  assert (Hr : forallb (fun c => negb (is_sep c)) (rev r) = true).
  { rewrite forallb_rev. exact Hns. }
  rewrite (take_while_all _ _ Hr).
  assert (Hd : drop_while (fun c => negb (is_sep c)) (rev r) = []).
  { clear Hns. induction (rev r) as [|c l IH]; [reflexivity|]. cbn in *.
    apply andb_true_iff in Hr as [-> Hr]. now apply IH. }
  rewrite Hd. cbn. now rewrite rev_involutive.
Qed.

Lemma simple_paths (r : str) :
  r <> [] -> no_sep r = true ->
  objects_dir (new_MiniGit r) = r ++ sep :: lit "objects"
  /\ index_file (new_MiniGit r) = r ++ sep :: lit "index".
Proof.
  intros Hne Hns. pose proof (simple_plain r Hne Hns) as Hp.
  unfold new_MiniGit. cbn [objects_dir index_file].
  split; apply join_plain; auto.
Qed.

Lemma hierarchical_orphan (m : gmap str node) (d n : str) :
  hierarchical m -> plain d -> no_sep n = true -> m !! d = None ->
  m !! (d ++ sep :: n) = None.
Proof.
  intros Hier Hp Hn Hd. destruct (m !! (d ++ sep :: n)) as [x|] eqn:E; [|reflexivity].
  exfalso. pose proof (hierarchical_parent _ _ _ Hier E) as Hpc.
  apply parent_check_inv in Hpc. unfold os_path_dirname in Hpc.
  rewrite split_join in Hpc by assumption. cbn [fst] in Hpc.
  destruct Hpc as [->|Hpc]; [now apply (plain_nonempty _ Hp)|congruence].
Qed.

Lemma makedirs_simple (fuel : nat) (r : str) (m : gmap str node) :
  r <> [] -> no_sep r = true -> fs_encodable r = true -> m !! r = None ->
  makedirs fuel r m = (<[r := Dir]> m, Ok tt).
Proof.
  intros Hne Hns Henc Hr. rewrite makedirs_eq. unfold split2.
  rewrite (split_simple r Hns). destruct r as [|c r]; [congruence|].
  cbv iota beta. unfold mkdir. rewrite Henc, Hr. cbn [negb].
  unfold parent_check, os_path_dirname. now rewrite (split_simple _ Hns).
Qed.

Lemma makedirs_child (fuel : nat) (d n : str) (m : gmap str node) :
  plain d -> n <> [] -> no_sep n = true ->
  fs_encodable d = true -> fs_encodable n = true ->
  m !! d = Some Dir -> m !! (d ++ sep :: n) = None ->
  makedirs fuel (d ++ sep :: n) m = (<[d ++ sep :: n := Dir]> m, Ok tt).
Proof.
  intros Hp Hne Hns Hd Hn Hdir Hnone. rewrite makedirs_eq. unfold split2.
  rewrite (split_join d n Hp Hns). destruct n as [|c n]; [congruence|].
  pose proof (plain_nonempty _ Hp) as Hdne. destruct d as [|c0 d]; [congruence|].
  assert (Hex : exists_in m (c0 :: d) = true).
  { apply exists_in_lookup. split; [exact Hd | eauto]. }
  rewrite Hex. unfold mkdir.
  assert (Henc : fs_encodable ((c0 :: d) ++ sep :: c :: n) = true).
  { rewrite fs_encodable_app, Hd. cbn [andb]. cbn. exact Hn. }
  rewrite Henc, Hnone. cbn [negb].
  rewrite parent_check_ok; [reflexivity | now destruct d | ].
  unfold os_path_dirname. now rewrite (split_join _ _ Hp Hns).
Qed.

Lemma construct_simple (r : str) (w : world) :
  simple_name r -> hierarchical (fs w) -> fs w !! r = None ->
  __init__ r w
  = (World (<[index_file (new_MiniGit r) := File (bytes_of_string "{}")]>
              (<[objects_dir (new_MiniGit r) := Dir]> (<[r := Dir]> (fs w))))
           (stdout w ++ [lit "Initialized empty MiniGit repository in " ++ r])
           (index_file (new_MiniGit r) :: wlog w),
     Ok (new_MiniGit r))
  /\ repo_ok (new_MiniGit r) (fst (__init__ r w)) [].
Proof.
  intros (Hne & Hns & Henc & _ & _) Hier Hr.
  pose proof (simple_plain r Hne Hns) as Hp.
  destruct (simple_paths r Hne Hns) as [Eo Ei].
  assert (Hex : exists_in (fs w) r = false) by now apply exists_in_false.
  assert (E : __init__ r w
              = (World (<[index_file (new_MiniGit r) := File (bytes_of_string "{}")]>
                          (<[objects_dir (new_MiniGit r) := Dir]> (<[r := Dir]> (fs w))))
                       (stdout w ++ [lit "Initialized empty MiniGit repository in " ++ r])
                       (index_file (new_MiniGit r) :: wlog w),
                 Ok (new_MiniGit r))).
  { rewrite construct_eq, Hex. unfold setup, bind.
    change (repo_dir (new_MiniGit r)) with r. rewrite os_makedirs_eq.
    rewrite (makedirs_simple _ r (fs w) Hne Hns Henc Hr). cbn [fst snd].
    rewrite os_makedirs_eq. cbn [fs stdout wlog]. rewrite Eo.
    rewrite (makedirs_child _ r (lit "objects") _ Hp);
      [| discriminate | reflexivity | exact Henc | reflexivity
       | apply lookup_insert_eq
       | rewrite lookup_insert_ne;
         [ apply hierarchical_orphan; auto
         | intros E; apply (f_equal (@List.length N)) in E;
           rewrite length_app in E; cbn in E; lia ] ].
    cbn [fst snd]. unfold _write_index, write_text. cbn [fs stdout wlog].
    rewrite Ei.
    assert (Hie : fs_encodable (r ++ sep :: lit "index") = true).
    { rewrite fs_encodable_app, Henc. reflexivity. }
    rewrite Hie. cbn [negb].
    assert (Hne1 : forall a b : str, a <> b -> r ++ a <> r ++ b).
    { intros a b Hab E. apply app_inv_head in E. contradiction. }
    assert (Hlen : forall t : str, r <> r ++ sep :: t).
    { intros t E. apply (f_equal (@List.length N)) in E.
      rewrite length_app in E. cbn in E. lia. }
    rewrite lookup_insert_ne by (apply Hne1; discriminate).
    rewrite lookup_insert_ne by apply Hlen.
    assert (Hni : no_sep (lit "index") = true) by reflexivity.
    rewrite (hierarchical_orphan _ r (lit "index") Hier Hp Hni Hr).
    rewrite parent_check_ok;
      [ | destruct r; [congruence | discriminate]
        | unfold os_path_dirname; rewrite (split_join r _ Hp Hni); cbn [fst];
          rewrite lookup_insert_ne by (apply not_eq_sym, Hlen);
          apply lookup_insert_eq ].
    reflexivity. }
  split; [exact E|].
  destruct (construct_fresh r w _ _ Hier Hex E) as [_ OK].
  rewrite E. exact OK.
Qed.

(** X1: [__init__] on a fresh simple name that fits in one component
    (at most 255 bytes of printable text) creates the directory, its [objects]
    directory and an index holding the empty dictionary, in this order, and
    prints its line. *)
Theorem construct_creates (r : str) (w : world) :
  simple_name r -> name_fits r = true ->
  hierarchical (fs w) -> fs w !! r = None ->
  __init__ r w
  = (World (<[index_file (new_MiniGit r) := File (bytes_of_string "{}")]>
              (<[objects_dir (new_MiniGit r) := Dir]> (<[r := Dir]> (fs w))))
           (stdout w ++ [lit "Initialized empty MiniGit repository in " ++ r])
           (index_file (new_MiniGit r) :: wlog w),
     Ok (new_MiniGit r))
  /\ repo_ok (new_MiniGit r) (fst (__init__ r w)) []
  /\ _read_index (new_MiniGit r) (fst (__init__ r w))
     = (fst (__init__ r w), Ok (JObj [])).
Proof.
  intros Hs _ Hier Hr. destruct (construct_simple r w Hs Hier Hr) as [E OK].
  split; [exact E|]. split; [exact OK|].
  apply (read_index_ok _ _ [] OK).
Qed.

Lemma construct_creates_witness :
  simple_name ex_repo /\ name_fits ex_repo = true /\ hierarchical (fs ex_w0)
  /\ fs ex_w1 !! lit ".minigit/index" = Some (File (bytes_of_string "{}")).
Proof.
  assert (Hs : simple_name ex_repo).
  { repeat split; try (vm_compute; reflexivity); intros E; vm_compute in E;
      discriminate. }
  assert (Hh : hierarchical (fs ex_w0)) by (vm_compute; reflexivity).
  split; [exact Hs|]. split; [reflexivity|]. split; [exact Hh|].
  destruct (construct_creates ex_repo ex_w0 Hs eq_refl Hh) as [E _];
    [vm_compute; reflexivity|].
  unfold ex_w1. rewrite E. vm_compute. reflexivity.
Defined.

(** ** Once a repository exists *)

Lemma repo_dir_present (self : MiniGit) (w : world) (d : list (str * str)) :
  repo_ok self w d -> simple_name (repo_dir self) ->
  exists_in (fs w) (repo_dir self) = true.
Proof.
  intros OK (Hne & Hns & Henc & _ & _).
  pose proof (ok_index_parent _ _ _ OK) as Hpc.
  apply parent_check_inv in Hpc. rewrite (ok_self _ _ _ OK) in Hpc.
  destruct (simple_paths _ Hne Hns) as [_ Ei]. rewrite Ei in Hpc.
  unfold os_path_dirname in Hpc.
  rewrite (split_join _ (lit "index") (simple_plain _ Hne Hns) eq_refl) in Hpc.
  cbn [fst] in Hpc. apply exists_in_lookup. split; [exact Henc|].
  destruct Hpc as [Hpc|Hpc]; [contradiction | eauto].
Qed.

(** X2: Once the repository exists, [init] and a second construction on the
    same path write nothing: each only prints its line. *)
Theorem init_after_construction (self : MiniGit) (w : world) :
  reachable self w -> simple_name (repo_dir self) ->
  init self w
  = (World (fs w) (stdout w ++ [lit "Repository already initialized."]) (wlog w),
     Ok VNone)
  /\ __init__ (repo_dir self) w
     = (World (fs w)
              (stdout w ++ [lit "Initialized empty MiniGit repository in "
                              ++ repo_dir self])
              (wlog w),
        Ok self).
Proof.
  intros Hr Hs. destruct (reachable_ok self w Hr) as [d OK].
  pose proof (repo_dir_present self w d OK Hs) as Hex.
  rewrite init_eq, construct_eq, Hex. split; [reflexivity|].
  now rewrite <- (ok_self _ _ _ OK).
Qed.

Lemma init_after_construction_witness :
  reachable ex_self ex_wa /\ simple_name (repo_dir ex_self)
  /\ fs (fst (init ex_self ex_wa)) = fs ex_wa.
Proof.
  assert (Hr : reachable ex_self ex_wa)
    by exact (reach_step ex_self ex_w1 (OpAdd (lit "a.txt")) ex_w1_reachable I).
  assert (Hs : simple_name (repo_dir ex_self)).
  { repeat split; try (vm_compute; reflexivity); intros E; vm_compute in E;
      discriminate. }
  split; [exact Hr|]. split; [exact Hs|].
  destruct (init_after_construction ex_self ex_wa Hr Hs) as [-> _]. reflexivity.
Defined.

(** X3: [init] and the constructor spell out the same creation: on every
    path and in every world they leave the same filesystem and the same
    write log; where the path does not exist they leave the same world and
    fail or succeed together. *)
Theorem init_matches_constructor (r : str) (w : world) :
  fs (fst (init (new_MiniGit r) w)) = fs (fst (__init__ r w))
  /\ wlog (fst (init (new_MiniGit r) w)) = wlog (fst (__init__ r w))
  /\ (exists_in (fs w) r = false ->
      fst (init (new_MiniGit r) w) = fst (__init__ r w)
      /\ (snd (init (new_MiniGit r) w) = Ok VNone
          /\ snd (__init__ r w) = Ok (new_MiniGit r)
          \/ exists e, snd (init (new_MiniGit r) w) = Raise e
                       /\ snd (__init__ r w) = Raise e)).
Proof.
  rewrite init_eq, construct_eq. change (repo_dir (new_MiniGit r)) with r.
  destruct (exists_in (fs w) r).
  - split; [reflexivity|]. split; [reflexivity|]. intros [=].
  - unfold bind. destruct (setup (new_MiniGit r) w) as [w1 [[]|e]];
      cbn [fst snd print ret fs wlog];
      (split; [reflexivity|]; split; [reflexivity|]; intros _;
       split; [reflexivity|]).
    + left. split; reflexivity.
    + right. exists e. split; reflexivity.
Qed.

(** ** What the operations leave alone *)

(** X4: In an initialised repository, for paths in their canonical
    spelling, no operation touches a path other than the index file and the
    entries of the objects directory: the working tree, the file being added
    included, stays as it is. *)
Theorem working_tree_untouched (self : MiniGit) (w : world) (d : list (str * str))
    (p : str) :
  repo_ok self w d -> simple_name (repo_dir self) ->
  canonical p = true ->
  p <> index_file self -> os_path_dirname p <> objects_dir self ->
  fs (fst (init self w)) !! p = fs w !! p
  /\ fs (fst (__init__ (repo_dir self) w)) !! p = fs w !! p
  /\ (forall q, canonical q = true -> fs (fst (add self q w)) !! p = fs w !! p)
  /\ (forall message, fs (fst (commit self message w)) !! p = fs w !! p).
Proof.
  intros OK Hs _ Hi Ho. pose proof (repo_dir_present self w d OK Hs) as Hex.
  assert (Hobj : forall h, is_digest h -> p <> object_file self h).
  { intros h Hh ->. apply Ho. rewrite (ok_self _ _ _ OK).
    now apply object_file_dirname, digest_no_sep. }
  rewrite init_eq, construct_eq, Hex. cbn [fst fs].
  split; [reflexivity|]. split; [reflexivity|]. split.
  - intros q _. destruct (add_fs self q w d OK) as [-> | [e ->]]; [reflexivity|].
    rewrite lookup_insert_ne by congruence.
    rewrite lookup_insert_ne; [reflexivity|].
    apply not_eq_sym, Hobj, hexdigest_is_digest.
  - intros message. now apply commit_frame.
Qed.

Lemma working_tree_untouched_witness :
  repo_ok ex_self ex_w1 [] /\ canonical (lit "a.txt") = true
  /\ fs ex_wa !! lit "a.txt" = fs ex_w1 !! lit "a.txt".
Proof.
  split; [exact ex_w1_ok|]. split; [reflexivity|].
  destruct (working_tree_untouched ex_self ex_w1 [] (lit "a.txt") ex_w1_ok)
    as (_ & _ & H & _).
  - repeat split; try (vm_compute; reflexivity); intros E; vm_compute in E;
      discriminate.
  - reflexivity.
  - intros E; vm_compute in E; discriminate.
  - intros E; vm_compute in E; discriminate.
  - exact (H (lit "a.txt") eq_refl).
Defined.

(** ** Doing it twice *)

Lemma dict_set_twice {V} (k : str) (v : V) (d : list (str * V)) :
  dict_set k v (dict_set k v d) = dict_set k v d.
Proof.
  induction d as [|[k' v'] d IH]; cbn [dict_set].
  - now rewrite decide_True.
  - destruct (decide (k = k')) as [->|Hne]; cbn [dict_set].
    + now rewrite decide_True.
    + rewrite decide_False by assumption. now rewrite IH.
Qed.

(** X5: Adding an unchanged text file (a printable path in its canonical
    spelling) a second time leaves the filesystem as
    the first [add] left it: the same object and the same index are written
    again, and the line is printed again. *)
Theorem add_twice (self : MiniGit) (w : world) (d : list (str * str))
    (p : str) (b : list byte) (s : str) :
  repo_ok self w d -> simple_name (repo_dir self) ->
  canonical p = true -> printable p = true ->
  exists_in (fs w) p = true -> fs w !! p = Some (File b) ->
  decode_text b = Some s ->
  p <> index_file self -> os_path_dirname p <> objects_dir self ->
  fs (fst (add self p (fst (add self p w)))) = fs (fst (add self p w))
  /\ snd (add self p (fst (add self p w))) = Ok VNone
  /\ stdout (fst (add self p (fst (add self p w))))
     = stdout w ++ [lit "Added file " ++ p ++ lit " to the index.";
                    lit "Added file " ++ p ++ lit " to the index."].
Proof.
  intros OK _ _ _ Hex Hp Hdec Hi Ho.
  destruct (decode_text_encodable _ _ Hdec) as [e He].
  pose proof (add_keeps_ok self w d OK p b s e Hex Hp Hdec He) as OK1.
  assert (E1 := add_ok self w d OK p b s e Hex Hp Hdec He).
  assert (Hoi : object_file self (SHA1.hexdigest e) <> index_file self).
  { rewrite (ok_self _ _ _ OK).
    apply object_file_not_index, digest_no_sep, hexdigest_is_digest. }
  assert (Hpo : p <> object_file self (SHA1.hexdigest e)).
  { intros ->. apply Ho. rewrite (ok_self _ _ _ OK).
    apply object_file_dirname, digest_no_sep, hexdigest_is_digest. }
  assert (Hp1 : fs (fst (add self p w)) !! p = Some (File b)).
  { rewrite E1. cbn [fst fs]. now rewrite !lookup_insert_ne by congruence. }
  assert (Hex1 : exists_in (fs (fst (add self p w))) p = true).
  { apply exists_in_lookup. apply exists_in_lookup in Hex as [Henc _].
    split; [exact Henc | eauto]. }
  rewrite (add_ok self _ _ OK1 p b s e Hex1 Hp1 Hdec He). cbn [fst snd fs stdout].
  rewrite dict_set_twice. rewrite E1. cbn [fst fs stdout].
  split; [|split; [reflexivity | now rewrite <- app_assoc]].
  rewrite (insert_id (<[index_file self := _]> _) (object_file self _) (File e)).
  - apply insert_insert_eq.
  - rewrite lookup_insert_ne by congruence. apply lookup_insert_eq.
Qed.

Lemma add_twice_witness :
  repo_ok ex_self ex_w1 [] /\ canonical (lit "crlf.txt") = true
  /\ fs (fst (add ex_self (lit "crlf.txt") (fst (add ex_self (lit "crlf.txt") ex_w1))))
     = fs (fst (add ex_self (lit "crlf.txt") ex_w1)).
Proof.
  split; [exact ex_w1_ok|]. split; [reflexivity|].
  destruct (add_twice ex_self ex_w1 [] (lit "crlf.txt") [x61; x0d; x0a]
              [97; 10]%N ex_w1_ok) as [H _];
    [ repeat split; try (vm_compute; reflexivity); intros E; vm_compute in E;
      discriminate
    | reflexivity | reflexivity
    | vm_compute; reflexivity | vm_compute; reflexivity | vm_compute; reflexivity
    | intros E; vm_compute in E; discriminate
    | intros E; vm_compute in E; discriminate | ].
  exact H.
Defined.

(** X6: A second [commit] with the same message and an unchanged index stores
    nothing new: it writes the same object under the same hash, so the
    filesystem and the object count stay as the first [commit] left them,
    and it prints the same lines again. *)
Theorem commit_twice (self : MiniGit) (w : world) (d : list (str * str))
    (message : str) :
  repo_ok self w d ->
  fs (fst (commit self message (fst (commit self message w))))
  = fs (fst (commit self message w))
  /\ object_count self (fst (commit self message (fst (commit self message w))))
     = object_count self (fst (commit self message w))
  /\ exists lines,
       stdout (fst (commit self message w)) = stdout w ++ lines
       /\ stdout (fst (commit self message (fst (commit self message w))))
          = stdout w ++ lines ++ lines.
Proof.
  intros OK. pose proof (commit_keeps self message w d OK) as OK1.
  assert (Hfs : fs (fst (commit self message (fst (commit self message w))))
                = fs (fst (commit self message w))).
  { destruct d as [|kv d].
    - rewrite (commit_empty self _ [] OK1) by reflexivity. reflexivity.
    - rewrite (commit_ok self _ _ OK1) by discriminate. cbn [fst fs].
      apply insert_id. rewrite (commit_ok self w _ OK) by discriminate.
      cbn [fst fs]. apply lookup_insert_eq. }
  split; [exact Hfs|]. split.
  - unfold object_count, objects. now rewrite Hfs.
  - destruct d as [|kv d].
    + exists [lit "No changes to commit."].
      rewrite (commit_empty self _ [] OK1) by reflexivity.
      rewrite (commit_empty self w [] OK) by reflexivity. cbn [fst stdout].
      split; [reflexivity | now rewrite <- app_assoc].
    + eexists. rewrite (commit_ok self _ _ OK1) by discriminate.
      rewrite (commit_ok self w _ OK) by discriminate. cbn [fst stdout].
      split; [reflexivity | now rewrite <- app_assoc].
Qed.

Lemma commit_twice_witness :
  repo_ok ex_self ex_wab [(lit "a.txt", id_hello); (lit "b.txt", id_hello)]
  /\ fs (fst (commit ex_self (lit "msg") (fst (commit ex_self (lit "msg") ex_wab))))
     = fs (fst (commit ex_self (lit "msg") ex_wab)).
Proof.
  split; [exact ex_wab_ok|].
  destruct (commit_twice ex_self ex_wab _ (lit "msg") ex_wab_ok) as [H _].
  exact H.
Defined.

(** ** What is stored *)



(** ** The index file *)

(** X8: Writing a value to the index and reading the index back returns the
    value, for every dictionary (or string) whose keys are distinct and whose
    strings survive [json.dumps] and [json.loads]. *)
Theorem write_read_index (self : MiniGit) (w : world) (v : json) :
  fs_encodable (index_file self) = true ->
  fs w !! index_file self <> Some Dir ->
  parent_check (fs w) (index_file self) = Ok tt ->
  wf_json v ->
  _write_index self v w
  = (World (<[index_file self := File (json_bytes v)]> (fs w))
           (stdout w) (index_file self :: wlog w), Ok tt)
  /\ _read_index self (fst (_write_index self v w))
     = (fst (_write_index self v w), Ok v).
Proof.
  intros Henc Hnd Hpc Hwf.
  destruct (json_text_roundtrip (json_dumps None v)
              (json_encode_json_char _ _ _)) as [He Hdec].
  assert (E : _write_index self v w
              = (World (<[index_file self := File (json_bytes v)]> (fs w))
                       (stdout w) (index_file self :: wlog w), Ok tt)).
  { unfold _write_index, write_text. rewrite Henc, Hpc, He. cbn [negb].
    destruct (fs w !! index_file self) as [[|bs]|]; [congruence | reflexivity ..]. }
  split; [exact E|]. rewrite E. cbn [fst].
  rewrite read_index_eq. cbn [fs]. rewrite Henc, lookup_insert_eq.
  unfold json_bytes. rewrite Hdec. now rewrite json_loads_dumps.
Qed.

Lemma write_read_index_witness :
  wf_json (index_json [(lit "a.txt", id_hello)])
  /\ snd (_read_index ex_self
            (fst (_write_index ex_self (index_json [(lit "a.txt", id_hello)]) ex_w1)))
     = Ok (index_json [(lit "a.txt", id_hello)]).
Proof.
  assert (Hwf : wf_json (index_json [(lit "a.txt", id_hello)]))
    by exact (index_json_wf ex_self ex_wa _ ex_wa_ok).
  split; [exact Hwf|].
  destruct (write_read_index ex_self ex_w1 _ ltac:(vm_compute; reflexivity)
              ltac:(vm_compute; discriminate) ltac:(vm_compute; reflexivity) Hwf)
    as [_ ->].
  reflexivity.
Defined.

(** ** How [add] can end *)

(** X9: In an initialised repository [add] of a printable path in its
    canonical spelling either completes and returns
    [None], or raises before it has written anything: [IsADirectoryError]
    when the path is a directory, [UnicodeDecodeError] when the file is not
    UTF-8 text. No other exception leaves [add], and no failure leaves a
    blob without its index entry. *)
Theorem add_outcomes (self : MiniGit) (w : world) (d : list (str * str)) (p : str) :
  repo_ok self w d ->
  canonical p = true -> printable p = true ->
  snd (add self p w) = Ok VNone
  \/ (fs w !! p = Some Dir /\ add self p w = (w, Raise IsADirectoryError))
  \/ (exists b, fs w !! p = Some (File b) /\ decode_text b = None
                /\ add self p w = (w, Raise UnicodeDecodeError)).
Proof.
  intros OK _ _. destruct (exists_in (fs w) p) eqn:Hex.
  2:{ left. now rewrite add_missing. }
  pose proof Hex as Hex'. apply exists_in_lookup in Hex' as [Henc [n Hn]].
  destruct n as [|b].
  { right. left. split; [exact Hn|].
    unfold add. unfold bind at 1. unfold os_path_exists. rewrite Hex.
    cbn [negb]. unfold bind at 1. unfold read_text. now rewrite Henc, Hn. }
  destruct (decode_text b) as [s|] eqn:Hdec.
  - left. destruct (decode_text_encodable _ _ Hdec) as [e He].
    now rewrite (add_ok self w d OK p b s e).
  - right. right. exists b. split; [exact Hn|]. split; [exact Hdec|].
    unfold add. unfold bind at 1. unfold os_path_exists. rewrite Hex.
    cbn [negb]. unfold bind at 1. unfold read_text. now rewrite Henc, Hn, Hdec.
Qed.

Lemma add_outcomes_witness :
  repo_ok ex_self ex_w1 [] /\ canonical ex_repo = true /\ printable ex_repo = true
  /\ (snd (add ex_self ex_repo ex_w1) = Ok VNone
      \/ (fs ex_w1 !! ex_repo = Some Dir
          /\ add ex_self ex_repo ex_w1 = (ex_w1, Raise IsADirectoryError))
      \/ (exists b, fs ex_w1 !! ex_repo = Some (File b) /\ decode_text b = None
                    /\ add ex_self ex_repo ex_w1 = (ex_w1, Raise UnicodeDecodeError))).
Proof.
  split; [exact ex_w1_ok|]. split; [reflexivity|]. split; [reflexivity|].
  exact (add_outcomes ex_self ex_w1 [] ex_repo ex_w1_ok eq_refl eq_refl).
Defined.

(** ** A directory that is not a repository *)

Lemma parent_check_missing (m : gmap str node) (p : str) :
  p <> [] -> os_path_dirname p <> [] -> m !! os_path_dirname p = None ->
  parent_check m p = Raise FileNotFoundError.
Proof.
  intros Hp Hd Hn. unfold parent_check. destruct p as [|c p]; [congruence|].
  destruct (os_path_dirname (c :: p)) as [|c' d] eqn:E; [congruence|].
  now rewrite Hn.
Qed.

Lemma objects_dir_encodable (r : str) :
  fs_encodable r = true -> fs_encodable (objects_dir (new_MiniGit r)) = true.
Proof.
  intros Hr. unfold new_MiniGit. cbn [objects_dir].
  destruct (join_first_not_sep r (lit "objects") 111%N (lit "bjects") eq_refl eq_refl)
    as (R & -> & [-> | [-> | ->]]);
    rewrite ?fs_encodable_app, ?Hr; reflexivity.
Qed.

(** X10: When the path (one printable component) is a directory that exists
    already but holds neither [objects] nor [index],
    the constructor creates nothing and still prints its line; [commit]
    then finds no index and reports no changes; [add] of a text file then
    raises [FileNotFoundError] from writing the object, having changed
    nothing. *)
Theorem existing_directory_not_initialised (r : str) (w : world) :
  simple_name r -> printable r = true ->
  fs w !! r = Some Dir -> hierarchical (fs w) ->
  fs w !! objects_dir (new_MiniGit r) = None ->
  fs w !! index_file (new_MiniGit r) = None ->
  __init__ r w
  = (World (fs w) (stdout w ++ [lit "Initialized empty MiniGit repository in " ++ r])
           (wlog w),
     Ok (new_MiniGit r))
  /\ (forall message w1, fs w1 = fs w ->
        commit (new_MiniGit r) message w1
        = (World (fs w1) (stdout w1 ++ [lit "No changes to commit."]) (wlog w1),
           Ok VNone))
  /\ (forall p b s w1, fs w1 = fs w ->
        canonical p = true ->
        exists_in (fs w) p = true -> fs w !! p = Some (File b) ->
        decode_text b = Some s ->
        add (new_MiniGit r) p w1 = (w1, Raise FileNotFoundError)).
Proof.
  intros (_ & _ & Hre & _ & _) _ Hdir Hier Ho Hi.
  assert (Hex : exists_in (fs w) r = true).
  { apply exists_in_lookup. split; [exact Hre | eauto]. }
  split; [rewrite construct_eq, Hex; reflexivity|]. split.
  - intros message w1 E. unfold commit. unfold bind at 1.
    assert (Hi1 : fs w1 !! index_file (new_MiniGit r) = None)
      by (rewrite E; exact Hi).
    rewrite read_index_eq, Hi1.
    destruct (fs_encodable (index_file (new_MiniGit r))); reflexivity.
  - intros p b s w1 E _ Hp Hb Hdec.
    destruct (decode_text_encodable _ _ Hdec) as [e He].
    pose proof (hexdigest_is_digest e) as Hd.
    pose proof (digest_no_sep _ Hd) as Hns.
    assert (Hpc : parent_check (fs w) (object_file (new_MiniGit r) (SHA1.hexdigest e))
                  = Raise FileNotFoundError).
    { pose proof (plain_nonempty _ (objects_dir_plain r)) as Hne.
      apply parent_check_missing; rewrite ?(object_file_dirname r _ Hns); auto.
      rewrite (object_file_eq r _ Hns).
      destruct (objects_dir (new_MiniGit r)); [congruence | discriminate]. }
    assert (Hnone : fs w !! object_file (new_MiniGit r) (SHA1.hexdigest e) = None).
    { destruct (fs w !! object_file _ _) as [n|] eqn:En; [|reflexivity].
      pose proof (hierarchical_parent _ _ _ Hier En). congruence. }
    assert (Hoe : fs_encodable (object_file (new_MiniGit r) (SHA1.hexdigest e)) = true).
    { rewrite (object_file_eq r _ Hns), fs_encodable_app.
      apply exists_in_lookup in Hex as [Hr _].
      rewrite (objects_dir_encodable r Hr).
      cbn [fs_encodable forallb andb]. change (fs_char sep) with true.
      apply digest_fs_encodable, Hd. }
    unfold add. unfold bind at 1. unfold os_path_exists. rewrite E, Hp.
    cbn [negb]. unfold bind at 1. unfold read_text. rewrite E, Hb, Hdec.
    apply exists_in_lookup in Hp as [-> _]. cbn [negb].
    unfold bind at 1. unfold put. unfold bind at 1. unfold _hash_object.
    rewrite He. unfold ret at 1. unfold bind at 1. unfold write_text.
    fold (object_file (new_MiniGit r) (SHA1.hexdigest e)).
    rewrite E, Hnone, Hpc, Hoe. reflexivity.
Qed.

Lemma existing_directory_not_initialised_witness :
  simple_name ex_repo /\ fs ex_wdir !! ex_repo = Some Dir
  /\ hierarchical (fs ex_wdir)
  /\ add ex_self (lit "a.txt") (fst (__init__ ex_repo ex_wdir))
     = (fst (__init__ ex_repo ex_wdir), Raise FileNotFoundError).
Proof.
  assert (Hs : simple_name ex_repo).
  { repeat split; try (vm_compute; reflexivity); intros E; vm_compute in E;
      discriminate. }
  assert (Hx : fs ex_wdir !! ex_repo = Some Dir) by (vm_compute; reflexivity).
  assert (Hh : hierarchical (fs ex_wdir)) by (vm_compute; reflexivity).
  split; [exact Hs|]. split; [exact Hx|]. split; [exact Hh|].
  destruct (existing_directory_not_initialised ex_repo ex_wdir Hs eq_refl Hx Hh)
    as (E & _ & H); [vm_compute; reflexivity ..|].
  apply (H (lit "a.txt") (bytes_of_string "hello") (lit "hello"));
    [rewrite E; reflexivity | vm_compute; reflexivity ..].
Defined.

(** ** An index that cannot be read *)

(** X11: [add] writes the object before it reads the index: when reading the
    index raises (the file is a directory, is not UTF-8 or is not JSON), the exception leaves [add] after the blob was stored; the
    index is as it was and nothing is printed. *)
Theorem add_unreadable_index (r : str) (w : world) (p : str) (b : list byte)
    (s : str) (e : list byte) (x : exn) :
  simple_name r -> canonical p = true -> x <> Unmodelled ->
  fs_encodable (objects_dir (new_MiniGit r)) = true ->
  fs w !! objects_dir (new_MiniGit r) = Some Dir ->
  fs w !! object_file (new_MiniGit r) (SHA1.hexdigest e) <> Some Dir ->
  exists_in (fs w) p = true -> fs w !! p = Some (File b) ->
  decode_text b = Some s -> utf8_encode s = Some e ->
  snd (_read_index (new_MiniGit r) w) = Raise x ->
  add (new_MiniGit r) p w
  = (World (<[object_file (new_MiniGit r) (SHA1.hexdigest e) := File e]> (fs w))
           (stdout w)
           (object_file (new_MiniGit r) (SHA1.hexdigest e) :: wlog w),
     Raise x).
Proof.
  intros _ _ _ Henc Hdir Hnd Hp Hb Hdec He Hx.
  pose proof (hexdigest_is_digest e) as Hd.
  pose proof (digest_no_sep _ Hd) as Hns.
  assert (Hoe : fs_encodable (object_file (new_MiniGit r) (SHA1.hexdigest e)) = true).
  { rewrite (object_file_eq r _ Hns), fs_encodable_app, Henc.
    cbn [fs_encodable forallb andb]. change (fs_char sep) with true.
    apply digest_fs_encodable, Hd. }
  assert (Hpc : parent_check (fs w) (object_file (new_MiniGit r) (SHA1.hexdigest e))
                = Ok tt).
  { apply parent_check_ok.
    - rewrite (object_file_eq r _ Hns).
      destruct (objects_dir (new_MiniGit r)); discriminate.
    - rewrite (object_file_dirname r _ Hns). exact Hdir. }
  unfold add. unfold bind at 1. unfold os_path_exists. rewrite Hp.
  cbn [negb]. unfold bind at 1. unfold read_text. rewrite Hb, Hdec.
  apply exists_in_lookup in Hp as [-> _]. cbn [negb].
  unfold bind at 1. unfold put. unfold bind at 1. unfold _hash_object.
  rewrite He. unfold ret at 1. unfold bind at 1. unfold write_text.
  fold (object_file (new_MiniGit r) (SHA1.hexdigest e)).
  rewrite Hoe, Hpc, He. cbn [negb].
  set (w' := World (<[object_file (new_MiniGit r) (SHA1.hexdigest e) := File e]> (fs w))
                   (stdout w)
                   (object_file (new_MiniGit r) (SHA1.hexdigest e) :: wlog w)).
  assert (Hx' : _read_index (new_MiniGit r) w' = (w', Raise x)).
  { rewrite (surjective_pairing (_read_index (new_MiniGit r) w')).
    rewrite read_index_pure. f_equal. rewrite <- Hx. apply read_index_congr.
    unfold w'. cbn [fs]. apply lookup_insert_ne.
    apply object_file_not_index, Hns. }
  assert (Hgoal : bind (ret (SHA1.hexdigest e))
                    (fun file_hash =>
                       bind (stage (new_MiniGit r) p file_hash)
                         (fun _ => bind (print (lit "Added file " ++ p
                                                  ++ lit " to the index."))
                                     (fun _ => ret VNone))) w'
                  = (w', Raise x)).
  { unfold bind at 1. unfold ret at 1. unfold bind at 1. unfold stage.
    unfold bind at 1. rewrite Hx'. reflexivity. }
  destruct (fs w !! object_file (new_MiniGit r) (SHA1.hexdigest e)) as [[|b0]|];
    [congruence | exact Hgoal | exact Hgoal].
Qed.

Lemma add_unreadable_index_witness :
  snd (_read_index ex_self ex_wbad) = Raise JSONDecodeError
  /\ snd (add ex_self (lit "a.txt") ex_wbad) = Raise JSONDecodeError
  /\ fs (fst (add ex_self (lit "a.txt") ex_wbad)) !! object_file ex_self id_hello
     = Some (File (bytes_of_string "hello")).
Proof.
  assert (Hx : snd (_read_index ex_self ex_wbad) = Raise JSONDecodeError)
    by (vm_compute; reflexivity).
  split; [exact Hx|].
  pose proof (add_unreadable_index ex_repo ex_wbad (lit "a.txt")
             (bytes_of_string "hello") (lit "hello") (bytes_of_string "hello")
             JSONDecodeError
             ltac:(repeat split; try (vm_compute; reflexivity);
                   intros E; vm_compute in E; discriminate)
             eq_refl ltac:(discriminate)
             ltac:(vm_compute; reflexivity) ltac:(vm_compute; reflexivity)
             ltac:(vm_compute; discriminate) ltac:(vm_compute; reflexivity)
             ltac:(vm_compute; reflexivity) ltac:(vm_compute; reflexivity)
             ltac:(vm_compute; reflexivity) Hx) as E.
  change (new_MiniGit ex_repo) with ex_self in E. rewrite E.
  split; [reflexivity|]. cbn [fst fs]. apply lookup_insert_eq.
Defined.

(** ** What a commit object says *)

Lemma index_json_inj (d1 d2 : list (str * str)) :
  index_json d1 = index_json d2 -> d1 = d2.
Proof.
  unfold index_json. intros [= E]. revert d2 E.
  induction d1 as [|[k v] d1 IH]; intros [|[k' v'] d2] E; try discriminate.
  - reflexivity.
  - cbn in E. injection E as -> -> E. f_equal. now apply IH.
Qed.

(** X12: The bytes of a commit object determine the message and the index it
    was made from: two commits with the same bytes have the same message
    and the same files in the same order. *)
Theorem commit_bytes_injective (m1 m2 : str) (d1 d2 : list (str * str)) :
  json_safe m1 = true -> json_safe m2 = true ->
  wf_json (index_json d1) -> wf_json (index_json d2) ->
  commit_bytes m1 d1 = commit_bytes m2 d2 ->
  m1 = m2 /\ d1 = d2.
Proof.
  intros H1 H2 W1 W2 E.
  assert (Hwf : forall m d, json_safe m = true -> wf_json (index_json d) ->
                            wf_json (commit_record m (index_json d))).
  { intros m d Hm Hd. unfold commit_record. constructor.
    - cbn [map fst]. constructor; [|apply NoDup_singleton].
      intros H%list_elem_of_singleton. vm_compute in H. discriminate.
    - constructor; [split; [reflexivity | constructor; exact Hm]|].
      constructor; [split; [reflexivity | exact Hd]|]. constructor. }
  assert (Hread : forall m d, json_safe m = true -> wf_json (index_json d) ->
                    decode_text (commit_bytes m d) = Some (commit_data m d)
                    /\ json_loads (commit_data m d)
                       = Ok (commit_record m (index_json d))).
  { intros m d Hm Hd. split.
    - unfold commit_bytes.
      apply (json_text_roundtrip _ (json_encode_json_char _ _ _)).
    - unfold commit_data. apply json_loads_dumps. auto. }
  destruct (Hread m1 d1 H1 W1) as [D1 L1]. destruct (Hread m2 d2 H2 W2) as [D2 L2].
  assert (D : commit_data m1 d1 = commit_data m2 d2) by congruence.
  assert (R : commit_record m1 (index_json d1) = commit_record m2 (index_json d2))
    by congruence.
  unfold commit_record in R.
  split; [congruence|]. apply index_json_inj. congruence.
Qed.

Lemma commit_bytes_injective_witness :
  json_safe (lit "msg") = true
  /\ wf_json (index_json [(lit "a.txt", id_hello)])
  /\ lit "msg" = lit "msg".
Proof.
  assert (Hwf : wf_json (index_json [(lit "a.txt", id_hello)]))
    by exact (index_json_wf ex_self ex_wa _ ex_wa_ok).
  split; [reflexivity|]. split; [exact Hwf|].
  exact (proj1 (commit_bytes_injective (lit "msg") (lit "msg") _ _
                  eq_refl eq_refl Hwf Hwf eq_refl)).
Defined.

(** ** A whole session *)

(** X13: The session of the usage example, with the default repository path:
    construct, [init], [add] a text file, [commit]. In a working tree that
    has the file and no [.minigit], every call completes; five lines are
    printed, the last one with the hash of the commit; four files are
    written (index, blob, index, commit); and afterwards the index maps the
    file to the digest of its text, and the blob and the commit are in the
    store. *)
Theorem example_session (w : world) (b : list byte) (s : str) (e : list byte) :
  hierarchical (fs w) -> fs w !! lit ".minigit" = None ->
  fs w !! lit "test.txt" = Some (File b) ->
  decode_text b = Some s -> utf8_encode s = Some e ->
  let repo := new_MiniGit (lit ".minigit") in
  let w1 := fst (__init__ (lit ".minigit") w) in
  let w2 := fst (init repo w1) in
  let w3 := fst (add repo (lit "test.txt") w2) in
  let w4 := fst (commit repo (lit "Initial commit") w3) in
  let d := [(lit "test.txt", SHA1.hexdigest e)] in
  snd (__init__ (lit ".minigit") w) = Ok repo
  /\ snd (init repo w1) = Ok VNone
  /\ snd (add repo (lit "test.txt") w2) = Ok VNone
  /\ snd (commit repo (lit "Initial commit") w3) = Ok VNone
  /\ stdout w4
     = stdout w
       ++ [lit "Initialized empty MiniGit repository in .minigit";
           lit "Repository already initialized.";
           lit "Added file test.txt to the index.";
           lit "Committed with message: Initial commit";
           lit "Commit hash: " ++ commit_id (lit "Initial commit") d]
  /\ wlog w4
     = [object_file repo (commit_id (lit "Initial commit") d);
        index_file repo; object_file repo (SHA1.hexdigest e); index_file repo]
       ++ wlog w
  /\ repo_ok repo w4 d
  /\ (exists bs, fs w4 !! object_file repo (SHA1.hexdigest e) = Some (File bs)
                 /\ SHA1.hexdigest bs = SHA1.hexdigest e)
  /\ fs w4 !! object_file repo (commit_id (lit "Initial commit") d)
     = Some (File (commit_bytes (lit "Initial commit") d))
  /\ fs w4 !! lit "test.txt" = Some (File b).
Proof.
  intros Hier Hnew Hfile Hdec He repo w1 w2 w3 w4 d.
  assert (Hs : simple_name (lit ".minigit")).
  { repeat split; try reflexivity; intros E; vm_compute in E; discriminate. }
  destruct (construct_simple (lit ".minigit") w Hs Hier Hnew) as (E1 & OK1).
  fold repo w1 in OK1.
  assert (Hr1 : exists_in (fs w1) (lit ".minigit") = true)
    by exact (repo_dir_present repo w1 [] OK1 Hs).
  assert (E2 : init repo w1
               = (World (fs w1) (stdout w1 ++ [lit "Repository already initialized."])
                        (wlog w1), Ok VNone)).
  { rewrite init_eq. change (repo_dir repo) with (lit ".minigit").
    rewrite Hr1. reflexivity. }
  assert (OK2 : repo_ok repo w2 []).
  { unfold w2. rewrite E2. exact OK1. }
  assert (Hf2 : fs w2 !! lit "test.txt" = Some (File b)).
  { unfold w2. rewrite E2. cbn [fst fs]. unfold w1. rewrite E1. cbn [fst fs].
    rewrite !lookup_insert_ne by (intros E; vm_compute in E; discriminate).
    exact Hfile. }
  assert (Hx2 : exists_in (fs w2) (lit "test.txt") = true).
  { apply exists_in_lookup. split; [reflexivity | eauto]. }
  pose proof (add_ok repo w2 [] OK2 _ _ _ _ Hx2 Hf2 Hdec He) as E3.
  pose proof (add_keeps_ok repo w2 [] OK2 _ _ _ _ Hx2 Hf2 Hdec He) as OK3.
  fold w3 in OK3. change (dict_set (lit "test.txt") (SHA1.hexdigest e) []) with d in *.
  assert (Hd : d <> []) by discriminate.
  pose proof (commit_ok repo w3 d OK3 (lit "Initial commit") Hd) as E4.
  pose proof (commit_keeps repo (lit "Initial commit") w3 d OK3) as OK4.
  fold w4 in OK4.
  split; [rewrite E1; reflexivity|]. split; [rewrite E2; reflexivity|].
  split; [rewrite E3; reflexivity|]. split; [rewrite E4; reflexivity|].
  assert (Hof : forall h, is_digest h -> lit "test.txt" <> object_file repo h).
  { intros h Hh. change (lit "test.txt") with (lit "test.tx" ++ [116%N]).
    apply (txt_path_free repo); [reflexivity | exact Hh]. }
  assert (Hblob : exists bs, fs w4 !! object_file repo (SHA1.hexdigest e)
                             = Some (File bs)
                             /\ SHA1.hexdigest bs = SHA1.hexdigest e).
  { destruct (ref_present repo (fs w4) d (lit "test.txt") (SHA1.hexdigest e) OK4)
      as (bs & Hbs & _ & Hh); [left; reflexivity|]. eauto. }
  assert (F4 : fs w4 = <[object_file repo (commit_id (lit "Initial commit") d)
                           := File (commit_bytes (lit "Initial commit") d)]> (fs w3))
    by (unfold w4; rewrite E4; reflexivity).
  assert (F3 : fs w3 = <[index_file repo := File (json_bytes (index_json d))]>
                         (<[object_file repo (SHA1.hexdigest e) := File e]> (fs w2)))
    by (unfold w3; rewrite E3; reflexivity).
  assert (F2 : fs w2 = fs w1) by (unfold w2; rewrite E2; reflexivity).
  split.
  { unfold w4. rewrite E4. cbn [fst stdout]. unfold w3. rewrite E3.
    cbn [fst stdout]. unfold w2. rewrite E2. cbn [fst stdout].
    unfold w1. rewrite E1. cbn [fst stdout]. rewrite <- !app_assoc. reflexivity. }
  split.
  { unfold w4. rewrite E4. cbn [fst wlog]. unfold w3. rewrite E3.
    cbn [fst wlog]. unfold w2. rewrite E2. cbn [fst wlog].
    unfold w1. rewrite E1. reflexivity. }
  split; [exact OK4|]. split; [exact Hblob|]. split.
  - rewrite F4. apply lookup_insert_eq.
  - rewrite F4, F3.
    rewrite lookup_insert_ne by (apply not_eq_sym, Hof, hexdigest_is_digest).
    rewrite lookup_insert_ne by (intros E; vm_compute in E; discriminate).
    rewrite lookup_insert_ne by (apply not_eq_sym, Hof, hexdigest_is_digest).
    exact Hf2.
Qed.

Lemma example_session_witness :
  hierarchical (fs ex_wt) /\ fs ex_wt !! lit ".minigit" = None
  /\ fs ex_wt !! lit "test.txt" = Some (File [x61; x0a])
  /\ snd (commit ex_self (lit "Initial commit")
            (fst (add ex_self (lit "test.txt")
                    (fst (init ex_self (fst (__init__ (lit ".minigit") ex_wt)))))))
     = Ok VNone.
Proof.
  split; [vm_compute; reflexivity|]. split; [vm_compute; reflexivity|].
  split; [vm_compute; reflexivity|].
  destruct (example_session ex_wt [x61; x0a] [97; 10]%N [x61; x0a])
    as (_ & _ & _ & H & _); [vm_compute; reflexivity ..|].
  exact H.
Defined.

(** ** Line endings *)

Lemma byte_of_N_cr (n : N) : (n < 256)%N -> byte_of_N n = x0d -> n = 13%N.
Proof.
  intros Hn E. rewrite <- (to_N_byte_of_N n Hn), E. reflexivity.
Qed.

Lemma utf8_encode_char_cr (c : N) (bs : list byte) :
  utf8_encode_char c = Some bs -> In x0d bs -> c = 13%N.
Proof.
  unfold utf8_encode_char.
  destruct (N.ltb_spec c 0x80).
  { intros [= <-] [E|[]]. apply byte_of_N_cr in E; lia. }
  destruct (N.ltb_spec c 0x800).
  { intros [= <-] [E|[E|[]]]; apply byte_of_N_cr in E; lia. }
  destruct (N.ltb_spec c 0x10000).
  { destruct (is_surrogate c); [discriminate|].
    intros [= <-] [E|[E|[E|[]]]]; apply byte_of_N_cr in E; lia. }
  destruct (N.ltb_spec c 0x110000); [|discriminate].
  intros [= <-] [E|[E|[E|[E|[]]]]]; apply byte_of_N_cr in E; lia.
Qed.

Lemma utf8_encode_cr (s : str) (e : list byte) :
  utf8_encode s = Some e -> In x0d e -> In 13%N s.
Proof.
  revert e. induction s as [|c s IH]; intros e H Hin.
  - injection H as <-. destruct Hin.
  - cbn [utf8_encode] in H.
    destruct (utf8_encode_char c) as [cb|] eqn:Hc; [|discriminate].
    destruct (utf8_encode s) as [rest|] eqn:Hs; [|discriminate].
    injection H as <-. apply in_app_or in Hin as [Hin|Hin].
    + left. eapply utf8_encode_char_cr; eauto.
    + right. eapply IH; eauto.
Qed.

(** X14: [add] stores text with its line endings normalised: whatever the
    file holds, the blob that is written and staged has no carriage return
    byte. *)
Theorem add_normalises_newlines (self : MiniGit) (w : world) (d : list (str * str))
    (p : str) (b : list byte) (s : str) :
  repo_ok self w d ->
  exists_in (fs w) p = true -> fs w !! p = Some (File b) ->
  decode_text b = Some s ->
  exists e,
    utf8_encode s = Some e /\ ~ In x0d e
    /\ fs (fst (add self p w)) !! object_file self (SHA1.hexdigest e)
       = Some (File e)
    /\ snd (_read_index self (fst (add self p w)))
       = Ok (index_json (dict_set p (SHA1.hexdigest e) d)).
Proof.
  intros OK Hex Hp Hdec. destruct (decode_text_encodable _ _ Hdec) as [e He].
  exists e. split; [exact He|]. split.
  - intros Hin. apply (utf8_encode_cr _ _ He) in Hin.
    unfold decode_text in Hdec. destruct (utf8_decode b) as [t|]; [|discriminate].
    injection Hdec as <-. revert Hin. apply universal_newlines_no_cr.
  - pose proof (add_keeps_ok self w d OK p b s e Hex Hp Hdec He) as OK1.
    rewrite (read_index_ok self _ _ OK1). split; [|reflexivity].
    rewrite (add_ok self w d OK p b s e Hex Hp Hdec He). cbn [fst fs].
    rewrite lookup_insert_ne; [apply lookup_insert_eq|].
    apply not_eq_sym. rewrite (ok_self _ _ _ OK).
    apply object_file_not_index, digest_no_sep, hexdigest_is_digest.
Qed.

Lemma add_normalises_newlines_witness :
  repo_ok ex_self ex_w1 []
  /\ exists e, utf8_encode [97; 10]%N = Some e /\ ~ In x0d e.
Proof.
  split; [exact ex_w1_ok|].
  destruct (add_normalises_newlines ex_self ex_w1 [] (lit "crlf.txt")
              [x61; x0d; x0a] [97; 10]%N ex_w1_ok)
    as (e & He & Hcr & _); [vm_compute; reflexivity ..|].
  exists e. split; [exact He | exact Hcr].
Defined.

(** ** Counting objects *)

Lemma objects_insert_object (self : MiniGit) (m : gmap str node) (h : str)
    (n : node) (out : list str) (lg lg' : list str) (out' : list str) :
  os_path_dirname (object_file self h) = objects_dir self ->
  objects self (World (<[object_file self h := n]> m) out lg)
  = <[object_file self h := n]> (objects self (World m out' lg')).
Proof.
  intros Hd. unfold objects. cbn [fs].
  now rewrite map_filter_insert_True.
Qed.

Lemma objects_insert_other (self : MiniGit) (m : gmap str node) (k : str)
    (n : node) (out : list str) (lg lg' : list str) (out' : list str) :
  os_path_dirname k <> objects_dir self ->
  objects self (World (<[k := n]> m) out lg) = objects self (World m out' lg').
Proof.
  intros Hd. unfold objects. cbn [fs].
  now rewrite map_filter_insert_not.
Qed.

Lemma objects_lookup_object (self : MiniGit) (w : world) (k : str) :
  os_path_dirname k = objects_dir self -> objects self w !! k = fs w !! k.
Proof.
  intros Hd. unfold objects. destruct (fs w !! k) as [n|] eqn:E.
  - apply map_lookup_filter_Some. auto.
  - apply map_lookup_filter_None. left. exact E.
Qed.

(** X15: The store grows by at most one object at a time: a successful [add]
    and a [commit] of a non-empty index each add one object when no object
    has the digest of what they store, and none when one has. *)
Theorem object_count_step (self : MiniGit) (w : world) (d : list (str * str)) :
  repo_ok self w d ->
  (forall p b s e,
      exists_in (fs w) p = true -> fs w !! p = Some (File b) ->
      decode_text b = Some s -> utf8_encode s = Some e ->
      object_count self (fst (add self p w))
      = match fs w !! object_file self (SHA1.hexdigest e) with
        | Some _ => object_count self w
        | None => S (object_count self w)
        end)
  /\ (forall message,
        d <> [] ->
        object_count self (fst (commit self message w))
        = match fs w !! object_file self (commit_id message d) with
          | Some _ => object_count self w
          | None => S (object_count self w)
          end).
Proof.
  intros OK.
  assert (Hdir : forall bs, os_path_dirname (object_file self (SHA1.hexdigest bs))
                            = objects_dir self).
  { intros bs. rewrite (ok_self _ _ _ OK).
    apply object_file_dirname, digest_no_sep, hexdigest_is_digest. }
  assert (Hidx : os_path_dirname (index_file self) <> objects_dir self).
  { rewrite (ok_self _ _ _ OK). apply index_file_not_object. }
  assert (Hcount : forall bs out lg,
             size (objects self (World (<[object_file self (SHA1.hexdigest bs)
                                            := File bs]> (fs w)) out lg))
             = match fs w !! object_file self (SHA1.hexdigest bs) with
               | Some _ => object_count self w
               | None => S (object_count self w)
               end).
  { intros bs out lg.
    rewrite (objects_insert_object self (fs w) _ _ out lg (wlog w) (stdout w) (Hdir bs)).
    rewrite map_size_insert. unfold object_count.
    replace (World (fs w) (stdout w) (wlog w)) with w by (destruct w; reflexivity).
    rewrite (objects_lookup_object self w _ (Hdir bs)).
    destruct (fs w !! object_file self (SHA1.hexdigest bs)); reflexivity. }
  split.
  - intros p b s e Hex Hp Hdec He.
    rewrite (add_ok self w d OK p b s e Hex Hp Hdec He). cbn [fst].
    unfold object_count at 1.
    rewrite (objects_insert_other self _ _ _ _ _
               (object_file self (SHA1.hexdigest e) :: wlog w) (stdout w) Hidx).
    apply Hcount.
  - intros message Hd. rewrite (commit_ok self w d OK message Hd). cbn [fst].
    unfold object_count at 1. apply Hcount.
Qed.

Lemma object_count_step_witness :
  repo_ok ex_self ex_wa [(lit "a.txt", id_hello)]
  /\ object_count ex_self (fst (add ex_self (lit "b.txt") ex_wa))
     = object_count ex_self ex_wa.
Proof.
  split; [exact ex_wa_ok|].
  destruct (object_count_step ex_self ex_wa _ ex_wa_ok) as [H _].
  rewrite (H (lit "b.txt") (bytes_of_string "hello") (lit "hello")
             (bytes_of_string "hello"));
    [| vm_compute; reflexivity ..].
  vm_compute. reflexivity.
Defined.

(** ** The paths of a repository *)

(** X16: Whatever the repository path (empty, relative, absolute, with or
    without a trailing separator): every object lies directly in the objects
    directory, distinct digests name distinct object files, and no object
    file is the index file, the objects directory or the directory of the
    index. *)
Theorem repository_paths (r : str) (h1 h2 : str) :
  is_digest h1 -> is_digest h2 ->
  os_path_dirname (object_file (new_MiniGit r) h1) = objects_dir (new_MiniGit r)
  /\ (object_file (new_MiniGit r) h1 = object_file (new_MiniGit r) h2 -> h1 = h2)
  /\ object_file (new_MiniGit r) h1 <> index_file (new_MiniGit r)
  /\ object_file (new_MiniGit r) h1 <> objects_dir (new_MiniGit r)
  /\ object_file (new_MiniGit r) h1 <> os_path_dirname (index_file (new_MiniGit r))
  /\ index_file (new_MiniGit r) <> objects_dir (new_MiniGit r)
  /\ os_path_dirname (index_file (new_MiniGit r)) <> objects_dir (new_MiniGit r).
Proof.
  intros H1 H2. pose proof (digest_no_sep _ H1) as N1.
  pose proof (digest_no_sep _ H2) as N2.
  split; [apply object_file_dirname, N1|].
  split; [apply object_file_inj; assumption|].
  split; [apply object_file_not_index, N1|].
  split; [apply object_file_not_objects_dir, N1|].
  split; [apply object_file_not_index_parent, N1|].
  split; [apply index_file_not_objects_dir | apply index_file_not_object].
Qed.

Lemma repository_paths_witness :
  is_digest id_hello
  /\ object_file (new_MiniGit []) id_hello <> index_file (new_MiniGit []).
Proof.
  assert (H : is_digest id_hello) by apply hexdigest_is_digest.
  split; [exact H|].
  exact (proj1 (proj2 (proj2 (repository_paths [] id_hello id_hello H H)))).
Defined.

(** ** A repository below a directory that does not exist yet *)

Lemma makedirs_parent (fuel : nat) (d n : str) (m : gmap str node) :
  d <> [] -> no_sep d = true -> fs_encodable d = true ->
  n <> [] -> no_sep n = true -> fs_encodable n = true -> n <> lit "." ->
  m !! d = None -> m !! (d ++ sep :: n) = None ->
  makedirs (S fuel) (d ++ sep :: n) m
  = (<[d ++ sep :: n := Dir]> (<[d := Dir]> m), Ok tt).
Proof.
  intros Hd Hds Hde Hn Hns Hne Hdot Hmd Hmr.
  pose proof (simple_plain d Hd Hds) as Hp.
  rewrite makedirs_eq. unfold split2. rewrite (split_join d n Hp Hns).
  destruct n as [|c n]; [congruence|]. destruct d as [|c0 d]; [congruence|].
  rewrite (exists_in_false _ _ Hmd).
  rewrite (makedirs_simple fuel (c0 :: d) m Hd Hds Hde Hmd).
  rewrite decide_False by exact Hdot.
  unfold mkdir.
  assert (Henc : fs_encodable ((c0 :: d) ++ sep :: c :: n) = true).
  { rewrite fs_encodable_app, Hde. cbn [andb]. cbn. exact Hne. }
  rewrite Henc. cbn [negb].
  assert (Hlen : c0 :: d <> (c0 :: d) ++ sep :: c :: n).
  { intros E. apply (f_equal (@List.length N)) in E.
    rewrite length_app in E. cbn in E. lia. }
  rewrite lookup_insert_ne by exact Hlen. rewrite Hmr.
  rewrite parent_check_ok; [reflexivity | discriminate |].
  unfold os_path_dirname. rewrite (split_join _ _ Hp Hns). cbn [fst].
  apply lookup_insert_eq.
Qed.

(** X17: The constructor creates the missing parent as well: for a path of two
    components, each of at most 255 bytes of printable text, under a directory that does not exist, both directories, the
    [objects] directory and the empty index are created. *)
Theorem construct_creates_parent (d n : str) (w : world) :
  simple_name d -> simple_name n ->
  name_fits d = true -> name_fits n = true ->
  hierarchical (fs w) -> fs w !! d = None ->
  __init__ (d ++ sep :: n) w
  = (World (<[index_file (new_MiniGit (d ++ sep :: n)) := File (bytes_of_string "{}")]>
              (<[objects_dir (new_MiniGit (d ++ sep :: n)) := Dir]>
                 (<[d ++ sep :: n := Dir]> (<[d := Dir]> (fs w)))))
           (stdout w
              ++ [lit "Initialized empty MiniGit repository in " ++ d ++ sep :: n])
           (index_file (new_MiniGit (d ++ sep :: n)) :: wlog w),
     Ok (new_MiniGit (d ++ sep :: n)))
  /\ repo_ok (new_MiniGit (d ++ sep :: n)) (fst (__init__ (d ++ sep :: n) w)) [].
Proof.
  intros (Hd & Hds & Hde & _ & _) (Hn & Hns & Hne & Hdot & _) _ _ Hier Hmd.
  pose proof (simple_plain d Hd Hds) as Hpd.
  set (r := d ++ sep :: n).
  assert (Hp : plain r).
  { destruct (simple_plain n Hn Hns) as (c & t & Hr & Hc).
    exists c, (t ++ sep :: rev d). unfold r. rewrite rev_app_distr. cbn [rev].
    rewrite <- app_assoc. cbn [app]. rewrite Hr. split; [reflexivity | exact Hc]. }
  assert (Hre : fs_encodable r = true).
  { unfold r. rewrite fs_encodable_app, Hde. cbn [andb]. cbn. exact Hne. }
  assert (Hmr : fs w !! r = None) by (apply hierarchical_orphan; auto).
  assert (Hno : no_sep (lit "objects") = true) by reflexivity.
  assert (Hni : no_sep (lit "index") = true) by reflexivity.
  assert (Eo : objects_dir (new_MiniGit r) = r ++ sep :: lit "objects").
  { unfold new_MiniGit. cbn [objects_dir]. apply join_plain; auto. }
  assert (Ei : index_file (new_MiniGit r) = r ++ sep :: lit "index").
  { unfold new_MiniGit. cbn [index_file]. apply join_plain; auto. }
  assert (Hex : exists_in (fs w) r = false) by now apply exists_in_false.
  assert (Hlen : forall (a t : str), a <> a ++ sep :: t).
  { intros a t E. apply (f_equal (@List.length N)) in E.
    rewrite length_app in E. cbn in E. lia. }
  assert (Hlen2 : forall t : str, d <> r ++ sep :: t).
  { intros t E. apply (f_equal (@List.length N)) in E. unfold r in E.
    rewrite !length_app in E. cbn in E. lia. }
  assert (E : __init__ r w
              = (World (<[index_file (new_MiniGit r) := File (bytes_of_string "{}")]>
                          (<[objects_dir (new_MiniGit r) := Dir]>
                             (<[r := Dir]> (<[d := Dir]> (fs w)))))
                       (stdout w ++ [lit "Initialized empty MiniGit repository in " ++ r])
                       (index_file (new_MiniGit r) :: wlog w),
                 Ok (new_MiniGit r))).
  { rewrite construct_eq, Hex. unfold setup, bind.
    change (repo_dir (new_MiniGit r)) with r. rewrite os_makedirs_eq.
    assert (Hfuel : exists f, List.length r = S f).
    { unfold r. rewrite length_app. cbn. eexists. rewrite Nat.add_succ_r. reflexivity. }
    destruct Hfuel as [f ->].
    pose proof (makedirs_parent f d n (fs w) Hd Hds Hde Hn Hns Hne Hdot Hmd Hmr)
      as Hmk.
    fold r in Hmk. rewrite Hmk. cbn [fst snd]. rewrite os_makedirs_eq. cbn [fs stdout wlog]. rewrite Eo.
    rewrite (makedirs_child _ r (lit "objects") _ Hp);
      [| discriminate | reflexivity | exact Hre | reflexivity
       | apply lookup_insert_eq
       | rewrite lookup_insert_ne by apply Hlen;
         rewrite lookup_insert_ne by apply Hlen2;
         apply hierarchical_orphan; auto ].
    cbn [fst snd]. unfold _write_index, write_text. cbn [fs stdout wlog].
    rewrite Ei.
    assert (Hie : fs_encodable (r ++ sep :: lit "index") = true).
    { rewrite fs_encodable_app, Hre. reflexivity. }
    rewrite Hie. cbn [negb].
    rewrite lookup_insert_ne
      by (intros E; apply app_inv_head in E; discriminate).
    rewrite lookup_insert_ne by apply Hlen.
    rewrite lookup_insert_ne by apply Hlen2.
    rewrite (hierarchical_orphan _ r (lit "index") Hier Hp Hni Hmr).
    rewrite parent_check_ok;
      [ | destruct r; [exfalso; now apply (plain_nonempty _ Hp) | discriminate]
        | unfold os_path_dirname; rewrite (split_join r _ Hp Hni); cbn [fst];
          rewrite lookup_insert_ne by (apply not_eq_sym, Hlen);
          apply lookup_insert_eq ].
    reflexivity. }
  split; [exact E|].
  destruct (construct_fresh r w _ _ Hier Hex E) as [_ OK].
  rewrite E. exact OK.
Qed.

Lemma construct_creates_parent_witness :
  simple_name (lit "work") /\ simple_name (lit "repo")
  /\ hierarchical (fs ex_w0)
  /\ fs (fst (__init__ (lit "work/repo") ex_w0)) !! lit "work" = Some Dir.
Proof.
  assert (Hs : forall x : str,
             x <> [] -> no_sep x = true -> fs_encodable x = true ->
             x <> lit "." -> x <> lit ".." -> simple_name x)
    by (intros x; unfold simple_name; tauto).
  assert (H1 : simple_name (lit "work")).
  { apply Hs; try reflexivity; intros E; vm_compute in E; discriminate. }
  assert (H2 : simple_name (lit "repo")).
  { apply Hs; try reflexivity; intros E; vm_compute in E; discriminate. }
  assert (Hh : hierarchical (fs ex_w0)) by (vm_compute; reflexivity).
  split; [exact H1|]. split; [exact H2|]. split; [exact Hh|].
  destruct (construct_creates_parent (lit "work") (lit "repo") ex_w0 H1 H2
              eq_refl eq_refl Hh)
    as [E _]; [vm_compute; reflexivity|].
  change (lit "work" ++ sep :: lit "repo") with (lit "work/repo") in E.
  rewrite E. vm_compute. reflexivity.
Defined.
